(** * Non-duplicated intersects: a shallow embedding of [nd_intersects.py]

    The module folds the row-per-pair result of a spatial left join into one
    row per point.  Frames are embedded as positional tables of cells.  The
    calls into pandas and geopandas ([sjoin], [__getitem__], [groupby],
    [unique], [.loc] assignment) are embedded as functions on those tables
    that follow the behaviour of the libraries, and the two functions of the
    module, [do_sjoin] and [nd_intersects], are written over them statement
    by statement.  What the installed libraries decide and the module does
    not (the predicates, the order in which the spatial index yields the
    partners of a geometry, the row order of an inner and of a right join,
    whether a value of one row is broadcast) is a parameter, [libraries].
    The only argument object the module writes to is the caller's
    [keep_columns] list; it is threaded as the state of a small
    state-and-exception monad.  The frames are values there; in [Objects]
    the same two functions run over a store that holds the caller's list
    and frames by address, to state what a call does to them.

    Contents: the embedding; the demonstration data of the source; facts
    about lists, labels, the pair table, the groups and the shell; the
    properties of the two functions; the properties on concrete frames. *)

From Stdlib Require Import ZArith String List.
From stdpp Require Import base tactics decidable option list sorting strings.

Local Open Scope string_scope.
Local Open Scope Z_scope.
Local Open Scope list_scope.

(** ** Exceptions and the two monads *)

Inductive exception :=
  | KeyError (label : string)
  | TypeError
  | ValueError
  | AttributeError.

Inductive result (A : Type) :=
  | Ok (a : A)
  | Raise (e : exception).
Arguments Ok {A} a.
Arguments Raise {A} e.

#[global] Instance result_ret : MRet result := λ A a, Ok a.
#[global] Instance result_bind : MBind result := λ A B k r,
  match r with
  | Ok a => k a
  | Raise e => Raise e
  end.

Definition is_Ok {A} (r : result A) : Prop :=
  match r with Ok _ => True | Raise _ => False end.

Definition raises {A} (r : result A) : Prop :=
  match r with Ok _ => False | Raise _ => True end.

(** A computation that may append to the caller's [keep_columns] list and may
    raise.  The final content of the list is returned also when the call
    raises: an exception does not undo [keep_columns += ...]. *)
Definition M (A : Type) : Type := list string → list string * result A.

#[global] Instance M_ret : MRet M := λ A a kc, (kc, Ok a).
#[global] Instance M_bind : MBind M := λ A B k m kc,
  match m kc with
  | (kc', Ok a) => k a kc'
  | (kc', Raise e) => (kc', Raise e)
  end.
Definition lift {A} (r : result A) : M A := λ kc, (kc, r).
Definition read : M (list string) := λ kc, (kc, Ok kc).
Definition iadd (extra : list string) : M unit := λ kc, (kc ++ extra, Ok tt).

Section Frames.

(** Geometries are opaque values compared by value. *)
Context {geometry : Type} `{EqDecision geometry}.

(** ** Data model *)

Inductive cell :=
  | NA
  | Str (s : string)
  | Num (z : Z)
  | Geom (g : geometry).

#[global] Instance cell_eq_dec : EqDecision cell.
Proof. solve_decision. Defined.

(** A frame: column labels, the label of the active geometry column, and
    the rows, each with its index label. *)
Record GeoDataFrame := mkFrame {
  columns : list string;
  geometry_name : string;
  rows : list (Z * list cell)
}.

Definition index (df : GeoDataFrame) : list Z := (rows df).*1.

Definition well_shaped (df : GeoDataFrame) : Prop :=
  Forall (λ r, length r.2 = length (columns df)) (rows df).

(** Position of the first column carrying a label. *)
Fixpoint get_loc (c : string) (cols : list string) : option nat :=
  match cols with
  | [] => None
  | x :: cols' => if decide (x = c) then Some 0%nat else S <$> get_loc c cols'
  end.

Definition at_loc (k : nat) (r : list cell) : cell := nth k r NA.

Definition locate (cols : list string) (c : string) : result nat :=
  match get_loc c cols with
  | Some k => Ok k
  | None => Raise (KeyError c)
  end.

(** [df[c]] for a single label. *)
Definition series (df : GeoDataFrame) (c : string) : result (list cell) :=
  match get_loc c (columns df) with
  | Some k => Ok ((λ r, at_loc k r.2) <$> rows df)
  | None => Raise (KeyError c)
  end.

(** [df.geometry] *)
Definition geometry_series (df : GeoDataFrame) : result (list cell) :=
  match get_loc (geometry_name df) (columns df) with
  | Some k => Ok ((λ r, at_loc k r.2) <$> rows df)
  | None => Raise AttributeError
  end.

(** [df[key]] for a list of labels. *)
Definition getitem (df : GeoDataFrame) (key : list string) : result GeoDataFrame :=
  locs ← mapM (locate (columns df)) key;
  Ok {| columns := key;
        geometry_name := geometry_name df;
        rows := (λ r, (r.1, (λ k, at_loc k r.2) <$> locs)) <$> rows df |}.

(** [Series.unique()]: distinct values in order of first appearance. *)
Fixpoint unique {A} `{EqDecision A} (l : list A) : list A :=
  match l with
  | [] => []
  | x :: l' => x :: filter (λ y, y ≠ x) (unique l')
  end.

(** The same as the specification words it, "distinct values, preserving
    first-occurrence order": scan the sequence and keep a value when it
    has not been met before. *)
Fixpoint first_occurrences_from {A} `{EqDecision A} (seen l : list A) : list A :=
  match l with
  | [] => []
  | x :: l' =>
      if decide (x ∈ seen) then first_occurrences_from seen l'
      else x :: first_occurrences_from (x :: seen) l'
  end.
Definition first_occurrences {A} `{EqDecision A} (l : list A) : list A :=
  first_occurrences_from [] l.

Definition isna (c : cell) : bool :=
  match c with NA => true | _ => false end.

Definition is_geom (c : cell) : bool :=
  match c with Geom _ => true | _ => false end.

(** ** The spatial join (external capability) *)

Inductive join_mode := how_left | how_right | how_inner.

Definition drop_label (c : string) (cols : list string) : list string :=
  filter (λ x, x ≠ c) cols.

Definition drop_cells (c : string) (cols : list string) (r : list cell) : list cell :=
  (filter (λ p, p.1 ≠ c) (zip cols r)).*2.

Definition suffixed (overlap : list string) (sfx : string) (c : string) : string :=
  if decide (c ∈ overlap) then c +:+ "_" +:+ sfx else c.

Definition geom_match (f : geometry → geometry → bool) (a b : cell) : bool :=
  match a, b with
  | Geom x, Geom y => f x y
  | _, _ => false
  end.

(** Stable insertion sort by an integer key. *)
Fixpoint insert_by {A} (key : A → Z) (x : A) (l : list A) : list A :=
  match l with
  | [] => [x]
  | y :: l' => if decide (key x ≤ key y) then x :: l else y :: insert_by key x l'
  end.
Definition sort_by {A} (key : A → Z) (l : list A) : list A :=
  foldr (insert_by key) [] l.

(** What the code takes from the installed libraries and does not fix
    itself:
    - the binary predicates of the geometry engine, looked up by name;
    - the order in which the spatial index of a geometry column yields the
      geometries that answer a query: [sindex_rank g tree j] is the rank of
      the [j]-th geometry of the column [tree] in the answer to [g];
    - the order in which an inner or a right join lists its rows:
      [join_rank how ltree rtree p] is the rank of the [p]-th row of the
      listing by outer frame;
    - whether a [.loc] assignment of a table of one row fills every row of
      the frame (pandas 2.2 does) or is refused (pandas 1.5). *)
Record libraries := {
  binary_predicate : string → option (geometry → geometry → bool);
  sindex_rank : cell → list cell → nat → Z;
  join_rank : join_mode → list cell → list cell → nat → Z;
  broadcasts : bool
}.
Variable lib : libraries.

(** [sindex.query(g, predicate=op)] on the index of the column [tree]: the
    positions of the geometries that satisfy the predicate with [g], in the
    order of the index. *)
Definition query (hit : cell → cell → bool) (tree : list cell) (g : cell)
    : list nat :=
  sort_by (sindex_rank lib g tree)
    (filter (λ j, hit g (at_loc j tree)) (seq 0 (length tree))).

Definition take_rows (rs : list (Z * list cell)) (js : list nat)
    : list (Z * list cell) :=
  omap (λ j, rs !! j) js.

(** The rows of an inner or a right join in the order the library lists
    them. *)
Definition listed (how : join_mode) (ltree rtree : list cell)
    (rs : list (Z * list cell)) : list (Z * list cell) :=
  (sort_by (λ pr, join_rank lib how ltree rtree pr.1)
     (zip (seq 0 (length rs)) rs)).*2.

(** [geopandas.sjoin(left_df, right_df, how=how, op=op)]: one row per pair
    of a left and a right row whose geometries satisfy the predicate; an
    outer row without a partner is kept with nulls on the other side unless
    the join is inner.  A left join lists the left rows in their order, each
    with its partners in the order of the spatial index of the right frame;
    the row order of an inner and of a right join is the library's.  Labels
    that occur on both sides get the suffixes [_left] and [_right]. *)
Definition sjoin (left_df right_df : GeoDataFrame) (how : join_mode) (op : string)
    : result GeoDataFrame :=
  if decide (Exists (λ c, c = "index_left" ∨ c = "index_right")
               (columns left_df ++ columns right_df))
  then Raise ValueError
  else
    match binary_predicate lib op,
          get_loc (geometry_name left_df) (columns left_df),
          get_loc (geometry_name right_df) (columns right_df) with
    | None, _, _ => Raise ValueError
    | _, None, _ | _, _, None => Raise AttributeError
    | Some f, Some lk, Some rk =>
        let hit (l r : list cell) := geom_match f (at_loc lk l) (at_loc rk r) in
        let ltree := (λ l, at_loc lk l.2) <$> rows left_df in
        let rtree := (λ r, at_loc rk r.2) <$> rows right_df in
        match how with
        | how_right =>
            let lcols := drop_label (geometry_name left_df) (columns left_df) in
            let overlap := filter (λ c, c ∈ columns right_df) lcols in
            Ok {| columns := (suffixed overlap "left" <$> lcols)
                               ++ "index_left" :: (suffixed overlap "right" <$> columns right_df);
                  geometry_name := geometry_name right_df;
                  rows := listed how_right ltree rtree (flat_map (λ r,
                    match filter (λ l, hit l.2 r.2) (rows left_df) with
                    | [] => [(r.1, replicate (length lcols) NA ++ NA :: r.2)]
                    | ms => (λ l, (r.1, drop_cells (geometry_name left_df) (columns left_df) l.2
                                          ++ Num l.1 :: r.2)) <$> ms
                    end) (rows right_df)) |}
        | _ =>
            let rcols := drop_label (geometry_name right_df) (columns right_df) in
            let overlap := filter (λ c, c ∈ rcols) (columns left_df) in
            let pairs := flat_map (λ l,
                    match take_rows (rows right_df)
                            (query (geom_match f) rtree (at_loc lk l.2)) with
                    | [] => match how with
                            | how_inner => []
                            | _ => [(l.1, l.2 ++ NA :: replicate (length rcols) NA)]
                            end
                    | ms => (λ r, (l.1, l.2 ++ Num r.1
                                          :: drop_cells (geometry_name right_df) (columns right_df) r.2)) <$> ms
                    end) (rows left_df) in
            Ok {| columns := (suffixed overlap "left" <$> columns left_df)
                               ++ "index_right" :: (suffixed overlap "right" <$> rcols);
                  geometry_name := geometry_name left_df;
                  rows := match how with
                          | how_inner => listed how_inner ltree rtree pairs
                          | _ => pairs
                          end |}
        end
    end.

(** ** [do_sjoin] (source lines 56-95) *)

(** [df3.loc[(df3[pgid].isna()), pgid] = fillna]: the label has to name one
    column; with none, and with several (where [df3[pgid]] is a frame), the
    statement raises [KeyError]. *)
Definition fill_isna (df3 : GeoDataFrame) (pgid : string) (fillna : cell)
    : result GeoDataFrame :=
  match get_loc pgid (columns df3) with
  | None => Raise (KeyError pgid)
  | Some k =>
      if decide (length (filter (λ c, c = pgid) (columns df3)) = 1%nat)
      then Ok {| columns := columns df3;
                 geometry_name := geometry_name df3;
                 rows := (λ r, (r.1, if isna (at_loc k r.2) then <[k := fillna]> r.2 else r.2))
                           <$> rows df3 |}
      else Raise (KeyError pgid)
  end.

(** [df.geometry.name]: reading the active geometry column of a frame that
    has none raises [AttributeError]. *)
Definition geometry_label (df : GeoDataFrame) : result string :=
  geometry_series df;;
  Ok (geometry_name df).

(** The caller's [keep_columns] is the state of the computation.  The
    defaults of the source, [how="left"] and [fillna="NaN"], are passed
    explicitly by the callers.  [ptid] is not used, as in the source. *)
Definition do_sjoin (df1 df2 : GeoDataFrame) (op ptid pgid : string)
    (how : join_mode) (fillna : cell) : M GeoDataFrame :=
  name ← lift (geometry_label df1);
  keep_columns ← read;
  (if decide (name ∈ keep_columns) then mret tt
   else iadd [name]);;
  keep_columns ← read;
  df3 ← lift (sjoin df1 df2 how op ≫= λ joined, getitem joined keep_columns);
  lift (fill_isna df3 pgid fillna).

(** The content of [keep_columns] after
    [if name not in keep_columns: keep_columns += [name]]. *)
Definition with_geometry (name : string) (keep_columns : list string) : list string :=
  if decide (name ∈ keep_columns) then keep_columns else keep_columns ++ [name].

(** ** [nd_intersects] (source lines 13-53) *)

(** ["-".join(xs)]: every item has to be a string. *)
Definition str_join (sep : string) (xs : list cell) : result string :=
  ss ← mapM (λ c, match c with Str s => Ok s | _ => Raise TypeError end) xs;
  Ok (String.concat sep ss).

Definition _row (pgid : string) (_p : cell) (_g : GeoDataFrame) : result (list cell) :=
  ids ← series _g pgid;
  merged ← str_join "-" ids;
  geoms ← geometry_series _g;
  Ok (_p :: Str merged :: unique geoms).

(** Order of group keys: numbers before strings, each in its own order. *)
Definition cell_leb (a b : cell) : bool :=
  match a, b with
  | Num x, Num y => bool_decide (x ≤ y)
  | Num _, _ => true
  | Str _, Num _ => false
  | Str x, Str y => String.leb x y
  | Str _, _ => true
  | _, (Num _ | Str _) => false
  | _, _ => true
  end.
Definition cell_le (a b : cell) : Prop := cell_leb a b.

Definition group_keys (keys : list cell) : list cell :=
  merge_sort cell_le (unique (filter (λ c, c ≠ NA) keys)).

(** [df.groupby(label)], iterated: the groups in ascending order of their key
    ([sort=True] is the default), rows with a null key dropped, each group
    keeping the frame's row order.  Geometries are not valid keys. *)
Definition groupby (df : GeoDataFrame) (label : string)
    : result (list (cell * GeoDataFrame)) :=
  keys ← series df label;
  if decide (Exists (λ c, is_geom c) keys) then Raise TypeError
  else
    Ok ((λ key, (key, {| columns := columns df;
                         geometry_name := geometry_name df;
                         rows := (filter (λ kr, kr.1 = key) (zip keys (rows df))).*2 |}))
          <$> group_keys keys).

(** [geopandas.GeoDataFrame(columns=cols, index=idx)] *)
Definition shell (cols : list string) (idx : list Z) : GeoDataFrame :=
  {| columns := cols;
     geometry_name := "geometry";
     rows := (λ i, (i, replicate (length cols) NA)) <$> idx |}.

(** [df.loc[:, labels] = value] with [value] a list of tuples: every tuple
    has to have as many cells as there are labels; the cell [value[i][j]]
    goes to row [i] of the column labelled [labels[j]]. *)
Definition assign_row (cols labels : list string) (t old : list cell) : list cell :=
  zip_with (λ c o, match get_loc c labels with
                   | Some j => at_loc j t
                   | None => o
                   end) cols old.

Definition store_rows (df : GeoDataFrame) (labels : list string)
    (value : list (list cell)) : GeoDataFrame :=
  {| columns := columns df;
     geometry_name := geometry_name df;
     rows := zip_with (λ r t, (r.1, assign_row (columns df) labels t r.2))
               (rows df) value |}.

(** What is stored for a value in a frame of [n] rows: a value of one row
    is repeated for every row, any other value is taken as it is. *)
Definition broadcast {X} (n : nat) (xs : list X) : list X :=
  match xs with
  | [x] => replicate n x
  | _ => xs
  end.

(** The source does not compare the number of folded rows with the number
    of rows of the frame; the assignment does.  A value of as many rows as
    the frame is stored row by row.  A value of one row is stored in every
    row by the libraries that broadcast and refused by the others; any
    other number of rows is refused. *)
Definition loc_setitem (df : GeoDataFrame) (labels : list string)
    (value : list (list cell)) : result GeoDataFrame :=
  mapM (locate (columns df)) labels;;
  if decide (Forall (λ t, length t = length labels) value)
  then
    if decide (length value = length (rows df))
    then Ok (store_rows df labels value)
    else
      match value with
      | [t] => if broadcasts lib
               then Ok (store_rows df labels (replicate (length (rows df)) t))
               else Raise ValueError
      | _ => Raise ValueError
      end
  else Raise ValueError.

Definition nd_intersects (pnts pgons : GeoDataFrame) (ptid pgid : string)
    : M GeoDataFrame :=
  name ← lift (geometry_label pnts);
  keep_columns ← read;
  (if decide (name ∈ keep_columns) then mret tt
   else iadd [name]);;
  igdf ← do_sjoin pnts pgons "intersects" ptid pgid how_left (Str "NaN");
  let ndgdf := shell (columns igdf) (index pnts) in
  keep_columns ← read;
  groups ← lift (groupby igdf ptid);
  value ← lift (mapM (λ pg, _row pgid pg.1 pg.2) groups);
  lift (loc_setitem ndgdf keep_columns value).

(** ** What a well-formed call computes

    The cell of a row under a label, the polygons a point row is paired
    with by the left join, and the row a point is folded into.  These are
    read off the input frames and are used to state the results. *)
Definition cell_of (df : GeoDataFrame) (c : string) (r : list cell) : cell :=
  match get_loc c (columns df) with
  | Some k => at_loc k r
  | None => NA
  end.

Definition intersects_hit (a b : cell) : bool :=
  match binary_predicate lib "intersects" with
  | Some f => geom_match f a b
  | None => false
  end.

(** The geometry column of a frame. *)
Definition geometry_column (df : GeoDataFrame) : list cell :=
  (λ r, cell_of df (geometry_name df) r.2) <$> rows df.

(** The polygon rows whose geometry intersects the geometry of a point row,
    in the order in which the spatial index of the polygons yields them. *)
Definition partners (pnts pgons : GeoDataFrame) (l : list cell) : list (Z * list cell) :=
  take_rows (rows pgons)
    (query intersects_hit (geometry_column pgons)
       (cell_of pnts (geometry_name pnts) l)).

Definition pair_ids (pnts pgons : GeoDataFrame) (pgid : string) (l : list cell)
    : list cell :=
  match partners pnts pgons l with
  | [] => [NA]
  | ms => (λ r, cell_of pgons pgid r.2) <$> ms
  end.

Definition fill (fillna c : cell) : cell := if isna c then fillna else c.

Definition id_text (c : cell) : string :=
  match c with Str s => s | _ => "NaN" end.

(** The pair rows of one point row, and the pair table: the table
    [do_sjoin] returns to [nd_intersects] in a well-formed call. *)
Definition pair_block (pnts pgons : GeoDataFrame) (ptid pgid : string)
    (l : Z * list cell) : list (Z * list cell) :=
  (λ c, (l.1, [cell_of pnts ptid l.2; fill (Str "NaN") c;
               cell_of pnts (geometry_name pnts) l.2]))
    <$> pair_ids pnts pgons pgid l.2.

Definition pair_rows (pnts pgons : GeoDataFrame) (ptid pgid : string)
    : list (Z * list cell) :=
  flat_map (pair_block pnts pgons ptid pgid) (rows pnts).

Definition pair_table (pnts pgons : GeoDataFrame) (ptid pgid : string)
    : GeoDataFrame :=
  {| columns := [ptid; pgid; geometry_name pnts];
     geometry_name := geometry_name pnts;
     rows := pair_rows pnts pgons ptid pgid |}.

(** The key of a pair row: the cell of its first column. *)
Definition row_key (r : Z * list cell) : cell := at_loc 0 r.2.

Definition fold_point (pnts pgons : GeoDataFrame) (ptid pgid : string)
    (l : list cell) : list cell :=
  [cell_of pnts ptid l;
   Str (String.concat "-" (id_text <$> pair_ids pnts pgons pgid l));
   cell_of pnts (geometry_name pnts) l].

(** [t] is the folded row of the point of [pnts] whose identifier is [k]. *)
Definition folded (pnts pgons : GeoDataFrame) (ptid pgid : string)
    (k : cell) (t : list cell) : Prop :=
  ∃ l, l ∈ rows pnts ∧ cell_of pnts ptid l.2 = k
       ∧ t = fold_point pnts pgons ptid pgid l.2.

Definition point_ids (pnts : GeoDataFrame) (ptid : string) : list cell :=
  (λ l, cell_of pnts ptid l.2) <$> rows pnts.

Definition is_key (c : cell) : bool :=
  match c with Str _ | Num _ => true | _ => false end.

Definition str_or_na (c : cell) : bool :=
  match c with Str _ | NA => true | _ => false end.

(** A call of [nd_intersects] with frames and labels that fit together:
    rectangular frames whose labels do not clash, point identifiers that
    can be grouped and sorted, polygon identifiers that are strings or
    missing, and [keep_columns] naming the two identifier columns. *)
Record valid_call (pnts pgons : GeoDataFrame) (ptid pgid : string)
    (keep_columns : list string) : Prop := {
  vc_predicate : is_Some (binary_predicate lib "intersects");
  vc_pnts_shape : well_shaped pnts;
  vc_pgons_shape : well_shaped pgons;
  vc_reserved : Forall (λ c, c ≠ "index_left" ∧ c ≠ "index_right")
                  (columns pnts ++ columns pgons);
  vc_disjoint : Forall (λ c, c ∉ drop_label (geometry_name pgons) (columns pgons))
                  (columns pnts);
  vc_pnts_geometry : geometry_name pnts ∈ columns pnts;
  vc_pgons_geometry : geometry_name pgons ∈ columns pgons;
  vc_ptid : ptid ∈ columns pnts;
  vc_ptid_geometry : ptid ≠ geometry_name pnts;
  vc_pgid : pgid ∈ drop_label (geometry_name pgons) (columns pgons);
  vc_point_ids : Forall (λ c, is_key c) (point_ids pnts ptid);
  vc_polygon_ids : Forall (λ r, str_or_na (cell_of pgons pgid r.2)) (rows pgons);
  vc_keep_columns :
    with_geometry (geometry_name pnts) keep_columns = [ptid; pgid; geometry_name pnts]
}.

End Frames.

Arguments cell : clear implicits.
Arguments GeoDataFrame : clear implicits.
Arguments libraries : clear implicits.

(** ** The two functions over the objects of their caller

    For the effects of a call on what its caller holds, the frames are
    objects too.  A store holds the caller's [keep_columns] list and the
    frames, addressed by position; the arguments [df1], [df2], [pnts] and
    [pgons] are addresses.  [sjoin], [__getitem__] and the frame
    constructor make new frames, a [.loc] assignment writes to the frame it
    is applied to, and [+=] writes to the list. *)
Module Objects.
Section Objects.
Context {geometry : Type} `{EqDecision geometry}.
Variable lib : libraries geometry.

Record store := {
  list_object : list string;
  frame_objects : list (GeoDataFrame geometry)
}.

Definition S (A : Type) : Type := store → store * result A.

#[global] Instance S_ret : MRet S := λ A a s, (s, Ok a).
#[global] Instance S_bind : MBind S := λ A B k m s,
  match m s with
  | (s', Ok a) => k a s'
  | (s', Raise e) => (s', Raise e)
  end.

Definition lift_S {A} (r : result A) : S A := λ s, (s, r).
Definition read_list : S (list string) := λ s, (s, Ok (list_object s)).
Definition extend_list (extra : list string) : S unit := λ s,
  ({| list_object := list_object s ++ extra; frame_objects := frame_objects s |},
   Ok tt).

(** Reading the frame at an address; an address outside the store does not
    occur in a call. *)
Definition load (a : nat) : S (GeoDataFrame geometry) := λ s,
  (s, match frame_objects s !! a with
      | Some f => Ok f
      | None => Raise AttributeError
      end).

(** A new frame, at the next free address. *)
Definition new (f : GeoDataFrame geometry) : S nat := λ s,
  ({| list_object := list_object s; frame_objects := frame_objects s ++ [f] |},
   Ok (length (frame_objects s))).

Definition write (a : nat) (f : GeoDataFrame geometry) : S unit := λ s,
  ({| list_object := list_object s; frame_objects := <[a := f]> (frame_objects s) |},
   Ok tt).

Definition do_sjoin (df1 df2 : nat) (op ptid pgid : string)
    (how : join_mode) (fillna : cell geometry) : S nat :=
  left_df ← load df1;
  name ← lift_S (geometry_label left_df);
  keep_columns ← read_list;
  (if decide (name ∈ keep_columns) then mret tt
   else extend_list [name]);;
  keep_columns ← read_list;
  right_df ← load df2;
  joined ← lift_S (sjoin lib left_df right_df how op);
  projected ← lift_S (getitem joined keep_columns);
  df3 ← new projected;
  frame ← load df3;
  filled ← lift_S (fill_isna frame pgid fillna);
  write df3 filled;;
  mret df3.

Definition nd_intersects (pnts pgons : nat) (ptid pgid : string) : S nat :=
  points ← load pnts;
  name ← lift_S (geometry_label points);
  keep_columns ← read_list;
  (if decide (name ∈ keep_columns) then mret tt
   else extend_list [name]);;
  igdf ← do_sjoin pnts pgons "intersects" ptid pgid how_left (Str "NaN");
  joined ← load igdf;
  ndgdf ← new (shell (columns joined) (index points));
  keep_columns ← read_list;
  groups ← lift_S (groupby joined ptid);
  value ← lift_S (mapM (λ pg, _row pgid pg.1 pg.2) groups);
  frame ← load ndgdf;
  filled ← lift_S (loc_setitem lib frame keep_columns value);
  write ndgdf filled;;
  mret ndgdf.

End Objects.
Arguments store : clear implicits.
End Objects.

(** ** The demonstration data (source lines 189-243)

    Points and axis-parallel squares with coordinates in quarters of a unit,
    so that the coordinates of the source ([0.5], [-0.75]) are integers. *)
Module Demo.

Inductive shape :=
  | Point (x y : Z)
  | Polygon (coords : list (Z * Z)).

#[global] Instance shape_eq_dec : EqDecision shape.
Proof. solve_decision. Defined.

(** Bounding box [(minx, miny, maxx, maxy)] of a ring of vertices. *)
Definition bounds (coords : list (Z * Z)) : Z * Z * Z * Z :=
  match coords with
  | [] => (0, 0, 0, 0)
  | (x, y) :: rest =>
      foldr (λ p b, (Z.min p.1 b.1.1.1, Z.min p.2 b.1.1.2,
                      Z.max p.1 b.1.2, Z.max p.2 b.2))
            (x, y, x, y) rest
  end.

(** The predicates for a point against an axis-parallel rectangle, which
    is all the demonstration needs: [intersects] includes the boundary,
    [within] excludes it, and a point contains no polygon. *)
Definition intersects (a b : shape) : bool :=
  match a, b with
  | Point x y, Polygon cs =>
      let '(x0, y0, x1, y1) := bounds cs in
      bool_decide (x0 ≤ x ≤ x1 ∧ y0 ≤ y ≤ y1)
  | _, _ => false
  end.

Definition within (a b : shape) : bool :=
  match a, b with
  | Point x y, Polygon cs =>
      let '(x0, y0, x1, y1) := bounds cs in
      bool_decide (x0 < x < x1 ∧ y0 < y < y1)
  | _, _ => false
  end.

Definition predicate_d (op : string) : option (shape → shape → bool) :=
  if decide (op = "intersects") then Some intersects
  else if decide (op = "within") then Some within
  else if decide (op = "contains") then Some (λ _ _, false)
  else None.

Definition frame := GeoDataFrame shape.

(** The libraries of the demonstration: the predicates above, a spatial
    index and joins that list the rows in the order of their frames, with
    and without the broadcast of a one-row value. *)
Definition libraries_d (broadcasts : bool) : libraries shape :=
  {| binary_predicate := predicate_d;
     sindex_rank := λ _ _ j, Z.of_nat j;
     join_rank := λ _ _ _ p, Z.of_nat p;
     broadcasts := broadcasts |}.
Definition pandas_1_5 : libraries shape := libraries_d false.
Definition pandas_2_2 : libraries shape := libraries_d true.

(** The same with a spatial index that yields the polygons in the reverse
    of their order in the frame. *)
Definition reversed_d : libraries shape :=
  {| binary_predicate := predicate_d;
     sindex_rank := λ _ _ j, - Z.of_nat j;
     join_rank := λ _ _ _ p, Z.of_nat p;
     broadcasts := true |}.

Definition demo_points (ptid : string) : frame :=
  let point_coords :=
    [(-4, -4); (0, -4); (2, -3); (-2, -2); (2, -2); (0, 0); (2, 2)] in
  let point_ids := ["A"; "B"; "C"; "D"; "E"; "F"; "G"] in
  {| columns := [ptid; "geometry"];
     geometry_name := "geometry";
     rows := zip (seqZ 0 7)
               (zip_with (λ i c, [Str i; Geom (Point c.1 c.2)])
                  point_ids point_coords) |}.

Definition demo_polygons (pgid : string) : frame :=
  let polygon_coords :=
    [ [(-4, -4); (0, -4); (0, 0); (-4, 0)];
      [(0, -4); (4, -4); (4, 0); (0, 0)];
      [(-4, 0); (0, 0); (0, 4); (-4, 4)] ] in
  let polygon_ids := ["x"; "y"; "z"] in
  {| columns := [pgid; "geometry"];
     geometry_name := "geometry";
     rows := zip (seqZ 0 3)
               (zip_with (λ i c, [Str i; Geom (Polygon c)])
                  polygon_ids polygon_coords) |}.

Definition PTID := "point_id".
Definition PGID := "polygon_id".
Definition KEEP_COLUMNS := [PTID; PGID].

(** [demo()]: the three joins, which share the one [KEEP_COLUMNS] list; the
    tables are returned instead of printed. *)
Definition demo (lib : libraries shape) : M (frame * frame * frame) :=
  let points := demo_points PTID in
  let polygons := demo_polygons PGID in
  within_join ← do_sjoin lib points polygons "within" PTID PGID
                  how_left (Str "NaN");
  intersects_join ← do_sjoin lib points polygons "intersects" PTID PGID
                      how_left (Str "NaN");
  nd_join ← nd_intersects lib points polygons PTID PGID;
  mret (within_join, intersects_join, nd_join).

(** The objects [demo] holds when it makes its calls: the list and the two
    frames. *)
Definition demo_store : Objects.store shape :=
  {| Objects.list_object := KEEP_COLUMNS;
     Objects.frame_objects := [demo_points PTID; demo_polygons PGID] |}.

(** *** Further inputs, used to exercise the two functions *)

(** The demonstration points as a frame whose geometries are not in an
    active geometry column. *)
Definition points_plain : frame :=
  {| columns := [PTID; "location"];
     geometry_name := "geometry";
     rows := rows (demo_points PTID) |}.

(** Two points whose identifiers are not in ascending order. *)
Definition points_BA : frame :=
  {| columns := [PTID; "geometry"];
     geometry_name := "geometry";
     rows := [(0, [Str "B"; Geom (Point (-2) (-2))]);
              (1, [Str "A"; Geom (Point 2 (-2))])] |}.

(** One point on the edge shared by two squares that carry the same id. *)
Definition point_P : frame :=
  {| columns := [PTID; "geometry"];
     geometry_name := "geometry";
     rows := [(0, [Str "P"; Geom (Point 0 (-2))])] |}.

Definition twin_polygons : frame :=
  {| columns := [PGID; "geometry"];
     geometry_name := "geometry";
     rows := [(0, [Str "a"; Geom (Polygon [(-4, -4); (0, -4); (0, 0); (-4, 0)])]);
              (1, [Str "a"; Geom (Polygon [(0, -4); (4, -4); (4, 0); (0, 0)])])] |}.

(** The group of [P] in the join of [point_P] with [twin_polygons]. *)
Definition group_aa : frame :=
  {| columns := [PTID; PGID; "geometry"];
     geometry_name := "geometry";
     rows := [(0, [Str "P"; Str "a"; Geom (Point 0 (-2))]);
              (0, [Str "P"; Str "a"; Geom (Point 0 (-2))])] |}.

(** A group whose polygon ids come in the order b, a. *)
Definition group_ba : frame :=
  {| columns := [PTID; PGID; "geometry"];
     geometry_name := "geometry";
     rows := [(0, [Str "P"; Str "b"; Geom (Point 0 (-2))]);
              (0, [Str "P"; Str "a"; Geom (Point 0 (-2))])] |}.

(** A group with a geometry that comes back after another one. *)
Definition group_mixed : frame :=
  {| columns := [PTID; PGID; "geometry"];
     geometry_name := "geometry";
     rows := [(0, [Str "P"; Str "x"; Geom (Point 2 2)]);
              (1, [Str "P"; Str "y"; Geom (Point 0 0)]);
              (2, [Str "P"; Str "z"; Geom (Point 2 2)])] |}.

(** Points with a repeated identifier: at one place, and at two places. *)
Definition points_AA : frame :=
  {| columns := [PTID; "geometry"];
     geometry_name := "geometry";
     rows := [(0, [Str "A"; Geom (Point (-2) (-2))]);
              (1, [Str "A"; Geom (Point (-2) (-2))])] |}.

Definition points_AAB : frame :=
  {| columns := [PTID; "geometry"];
     geometry_name := "geometry";
     rows := [(0, [Str "A"; Geom (Point (-2) (-2))]);
              (1, [Str "A"; Geom (Point 2 (-2))]);
              (2, [Str "B"; Geom (Point 0 0)])] |}.

End Demo.

(** ** The join, column by column

    What a left or inner join of two frames that fit together holds in each
    of its columns; used to state what [do_sjoin] returns for any predicate
    and any list of kept columns. *)
Section Tables.
Context {geometry : Type} `{EqDecision geometry}.
Variable lib : libraries geometry.

(** The right rows a left row is paired with under the predicate [f], in
    the order in which the spatial index of the right frame yields them. *)
Definition partners_by (f : geometry → geometry → bool)
    (df1 df2 : GeoDataFrame geometry) (l : list (cell geometry))
    : list (Z * list (cell geometry)) :=
  take_rows (rows df2)
    (query lib (geom_match f) (geometry_column df2)
       (cell_of df1 (geometry_name df1) l)).

(** The cells of the right column [c] in the pair rows of a left row: one
    per partner, and a single null for a left row without a partner unless
    the join is inner. *)
Definition right_cells (how : join_mode) (f : geometry → geometry → bool)
    (df1 df2 : GeoDataFrame geometry) (c : string) (l : list (cell geometry))
    : list (cell geometry) :=
  match partners_by f df1 df2 l with
  | [] => match how with how_inner => [] | _ => [NA] end
  | ms => (λ r, cell_of df2 c r.2) <$> ms
  end.

(** The number of pair rows of a left row. *)
Definition pair_count (how : join_mode) (f : geometry → geometry → bool)
    (df1 df2 : GeoDataFrame geometry) (l : list (cell geometry)) : nat :=
  match partners_by f df1 df2 l with
  | [] => match how with how_inner => 0%nat | _ => 1%nat end
  | ms => length ms
  end.

(** The entries of [xs] that stand at the positions where [keys] is [k]. *)
Definition select {X} (k : cell geometry) (keys : list (cell geometry))
    (xs : list X) : list X :=
  (filter (λ kx, kx.1 = k) (zip keys xs)).*2.

(** Two frames the join accepts under the predicate named [op]:
    rectangular, each with distinct labels and with its geometry column,
    and without clashing or reserved labels. *)
Record join_ready (f : geometry → geometry → bool) (op : string)
    (df1 df2 : GeoDataFrame geometry) : Prop := {
  jr_predicate : binary_predicate lib op = Some f;
  jr_left_shape : well_shaped df1;
  jr_right_shape : well_shaped df2;
  jr_left_labels : NoDup (columns df1);
  jr_right_labels : NoDup (columns df2);
  jr_reserved : Forall (λ c, c ≠ "index_left" ∧ c ≠ "index_right")
                  (columns df1 ++ columns df2);
  jr_disjoint : Forall (λ c, c ∉ drop_label (geometry_name df2) (columns df2))
                  (columns df1);
  jr_left_geometry : geometry_name df1 ∈ columns df1;
  jr_right_geometry : geometry_name df2 ∈ columns df2
}.

(** ** The texts of [demo_plot_join] (source lines 98-186)

    The function draws; of it, the two nested functions that compute text
    are embedded: [set_card] (the subtitle) and [_lab] (the label of a
    point). *)

(** [set_card()], for the [orig] and [pnts] of the enclosing call. *)
Definition set_card (orig : Z) (pnts : GeoDataFrame geometry) : result string :=
  let sj_pnts := Z.of_nat (length (rows pnts)) in
  oper ← (if decide (orig = sj_pnts) then Ok "="
          else if decide (orig < sj_pnts) then Ok "<"
          else if decide (orig > sj_pnts) then Ok ">"
          else Raise ValueError);
  Ok ("$\vert P \vert " +:+ oper +:+ " \vert P^\prime \vert$").

(** [_x[c]] for a row [_x] of the frame [p]. *)
Definition row_getitem (p : GeoDataFrame geometry) (c : string)
    (_x : list (cell geometry)) : result (cell geometry) :=
  k ← locate (columns p) c;
  Ok (at_loc k _x).

(** [_lab(_x)] of [pt_labels]: [",".join([_x[ptid], _x[pgid]])]. *)
Definition _lab (ptid pgid : string) (p : GeoDataFrame geometry)
    (_x : list (cell geometry)) : result string :=
  a ← row_getitem p ptid _x;
  b ← row_getitem p pgid _x;
  str_join "," [a; b].

(** The label texts [pt_labels(p)] computes, row by row. *)
Definition pt_label_texts (ptid pgid : string) (p : GeoDataFrame geometry)
    : result (list string) :=
  mapM (λ r, _lab ptid pgid p r.2) (rows p).

End Tables.

(** ** [_get_requirements_from_files] of [setup.py] (source lines 17-38) *)
Module Setup.
Section Requirements.

(** [open(v, "r")] and [f.read().splitlines()]: the lines of the file named
    [v], or nothing when the file cannot be opened. *)
Variable read_lines : string → option (list string).

(** [d[k] = v] on a dict kept as its items in insertion order. *)
Fixpoint setitem {V} (d : list (string * V)) (k : string) (v : V)
    : list (string * V) :=
  match d with
  | [] => [(k, v)]
  | kv :: d' => if decide (kv.1 = k) then (k, v) :: d' else kv :: setitem d' k v
  end.

(** The loop over [groups_files.items()]; a file that cannot be opened ends
    the call with its exception. *)
Definition _get_requirements_from_files (groups_files : list (string * string))
    : option (list (string * list string)) :=
  foldl (λ acc kv,
           groups_reqlist ← acc;
           pkg_list ← read_lines kv.2;
           Some (setitem groups_reqlist kv.1 pkg_list))
        (Some []) groups_files.

End Requirements.
End Setup.

(** ** Further inputs, used to exercise the properties proved besides the
    claims *)
Module Cases.
Import Demo.

(** The demonstration polygons with their geometry column under another
    name. *)
Definition polygons_geom : frame :=
  {| columns := [PGID; "geom"];
     geometry_name := "geom";
     rows := rows (demo_polygons PGID) |}.

(** The demonstration polygons with numbers for identifiers. *)
Definition numbered_polygons : frame :=
  {| columns := [PGID; "geometry"];
     geometry_name := "geometry";
     rows := [(0, [Num 1; Geom (Polygon [(-4, -4); (0, -4); (0, 0); (-4, 0)])]);
              (1, [Num 2; Geom (Polygon [(0, -4); (4, -4); (4, 0); (0, 0)])]);
              (2, [Num 3; Geom (Polygon [(-4, 0); (0, 0); (0, 4); (-4, 4)])])] |}.

(** A group with a number among its polygon ids. *)
Definition group_numeric : frame :=
  {| columns := [PTID; PGID; "geometry"];
     geometry_name := "geometry";
     rows := [(0, [Str "P"; Str "x"; Geom (Point 0 0)]);
              (0, [Str "P"; Num 2; Geom (Point 0 0)])] |}.

(** The demonstration polygons with a further column, the geometry first
    and under another name, and another index. *)
Definition polygons_wide : frame :=
  {| columns := ["shape"; "name"; PGID];
     geometry_name := "shape";
     rows := [(10, [Geom (Polygon [(-4, -4); (0, -4); (0, 0); (-4, 0)]);
                    Str "south-west"; Str "x"]);
              (20, [Geom (Polygon [(0, -4); (4, -4); (4, 0); (0, 0)]);
                    Str "south-east"; Str "y"]);
              (30, [Geom (Polygon [(-4, 0); (0, 0); (0, 4); (-4, 4)]);
                    Str "north-west"; Str "z"])] |}.

(** The one group of [setup_package], and a file system that holds its
    file. *)
Definition _groups_files : list (string * string) := [("base", "requirements.txt")].

Definition read_lines (v : string) : option (list string) :=
  if decide (v = "requirements.txt") then Some ["geopandas"; "matplotlib"] else None.

End Cases.

(** Closed statements about concrete frames are decided by evaluation. *)
Ltac by_computation := apply (bool_decide_unpack _); vm_compute; exact I.

Ltac valid_by_computation :=
  constructor;
  [ by eexists
  | unfold well_shaped; by_computation
  | unfold well_shaped; by_computation
  | by_computation .. ].

(** ** Facts about the list primitives *)

Section ListFacts.
Context {A : Type} `{EqDecision A}.
Implicit Types l : list A.

Lemma filter_all (P : A → Prop) `{∀ x, Decision (P x)} l :
  Forall P l → filter P l = l.
Proof.
  induction 1 as [|x l Hx _ IH]; [done|].
  by rewrite filter_cons_True, IH.
Qed.

Lemma filter_none (P : A → Prop) `{∀ x, Decision (P x)} l :
  Forall (λ x, ¬ P x) l → filter P l = [].
Proof.
  induction 1 as [|x l Hx _ IH]; [done|].
  by rewrite filter_cons_False.
Qed.

Lemma elem_of_unique l x : x ∈ unique l ↔ x ∈ l.
Proof.
  induction l as [|y l IH]; simpl; [done|].
  rewrite !elem_of_cons, list_elem_of_filter, IH.
  destruct (decide (x = y)); tauto.
Qed.

Lemma NoDup_unique l : NoDup (unique l).
Proof.
  induction l as [|y l IH]; simpl; [constructor|].
  constructor; [|by apply NoDup_filter].
  rewrite list_elem_of_filter. intros [Hne _]. by apply Hne.
Qed.

Lemma unique_NoDup l : NoDup l → unique l = l.
Proof.
  induction 1 as [|y l Hy _ IH]; simpl; [done|].
  rewrite IH. f_equal. apply filter_all, Forall_forall.
  intros z Hz ->. done.
Qed.

Lemma unique_app l1 l2 :
  unique (l1 ++ l2) = unique l1 ++ filter (λ x, x ∉ l1) (unique l2).
Proof.
  induction l1 as [|y l1 IH]; simpl.
  - symmetry. apply filter_all, Forall_forall. intros x _. apply not_elem_of_nil.
  - rewrite IH, filter_app, list_filter_filter. do 2 f_equal.
    apply list_filter_iff. intros x. rewrite not_elem_of_cons. tauto.
Qed.

Lemma unique_const l (x : A) : l ≠ [] → Forall (λ y, y = x) l → unique l = [x].
Proof.
  intros Hne Hall. destruct Hall as [|y l -> Hall]; [done|]. clear Hne.
  simpl. f_equal. apply filter_none, Forall_forall.
  intros z Hz Hzx. apply Hzx. apply (proj1 (elem_of_unique _ _)) in Hz.
  rewrite Forall_forall in Hall. by apply Hall.
Qed.

Lemma count_NoDup l x : NoDup l → x ∈ l → length (filter (λ y, y = x) l) = 1%nat.
Proof.
  induction 1 as [|y l Hy Hnd IH]; [by intros ?%elem_of_nil|].
  rewrite filter_cons. intros [->|Hx]%elem_of_cons.
  - rewrite decide_True by done. cbn [length]. f_equal.
    rewrite filter_none; [done|]. apply Forall_forall. by intros z Hz ->.
  - rewrite decide_False by (by intros ->). by apply IH.
Qed.

(** A list with a repeated value has strictly fewer distinct values than
    entries. *)
Lemma length_distinct_lt l u :
  ¬ NoDup l → NoDup u → (∀ x, x ∈ u → x ∈ l) → (length u < length l)%nat.
Proof.
  intros Hdup Hnd Hsub.
  pose proof (NoDup_submseteq u l Hnd Hsub) as Hms.
  pose proof (submseteq_length _ _ Hms) as Hle.
  destruct (decide (length u = length l)) as [Heq|]; [|lia].
  destruct Hdup. rewrite <-(submseteq_length_Permutation u l Hms); [done|lia].
Qed.
End ListFacts.

Section ListFacts2.
Context {A B : Type}.

Lemma filter_zip_fmap (f : A → B) (P : B → Prop)
    `{!∀ kr : B * A, Decision (P kr.1)} `{!∀ x, Decision (P (f x))} (l : list A) :
  (filter (λ kr, P kr.1) (zip (f <$> l) l)).*2 = filter (λ x, P (f x)) l.
Proof.
  induction l as [|x l IH]; [done|].
  cbn [fmap list_fmap zip zip_with]. rewrite !filter_cons. cbn [fst].
  do 2 case_decide; try done.
  rewrite fmap_cons. cbn [snd]. f_equal. exact IH.
Qed.

Lemma filter_flat_map (g : A → list B) (P : B → Prop) `{∀ y, Decision (P y)}
    (l : list A) :
  filter P (flat_map g l) = flat_map (λ x, filter P (g x)) l.
Proof.
  induction l as [|x l IH]; simpl; [done|]. by rewrite filter_app, IH.
Qed.

Lemma flat_map_nil {C} (g : A → list C) (l : list A) :
  Forall (λ x, g x = []) l → flat_map g l = [].
Proof. induction 1 as [|x l Hx _ IH]; simpl; [done|]. by rewrite Hx, IH. Qed.

Lemma filter_fmap (h : A → B) (P : B → Prop) `{∀ x, Decision (P x)}
    (l : list A) :
  filter P (h <$> l) = h <$> filter (λ x, P (h x)) l.
Proof.
  induction l as [|x l IH]; [done|].
  rewrite fmap_cons, !filter_cons. case_decide; [|done].
  by rewrite fmap_cons, IH.
Qed.

Lemma omap_fmap {C} (h : A → B) (g : B → option C) (l : list A) :
  omap g (h <$> l) = omap (λ x, g (h x)) l.
Proof.
  induction l as [|x l IH]; [done|].
  rewrite fmap_cons. cbn [omap list_omap]. by rewrite IH.
Qed.

(** With distinct keys, selecting the blocks of one key from a table made
    of blocks yields the block of the row carrying that key. *)
Lemma flat_map_select `{EqDecision B} {C} (key : A → B) (g : A → list C)
    (l : list A) (x0 : A) :
  NoDup (key <$> l) → x0 ∈ l →
  flat_map (λ x, if decide (key x = key x0) then g x else []) l = g x0.
Proof.
  induction l as [|x l IH]; intros Hnd Hin; [by apply elem_of_nil in Hin|].
  cbn [fmap list_fmap] in Hnd. apply NoDup_cons in Hnd as [Hx Hnd].
  cbn [flat_map]. apply elem_of_cons in Hin as [->|Hin].
  - rewrite decide_True by done. rewrite flat_map_nil; [by rewrite app_nil_r|].
    apply Forall_forall. intros y Hy. rewrite decide_False; [done|].
    intros Heq. apply Hx. rewrite <-Heq. by apply list_elem_of_fmap_2.
  - rewrite decide_False.
    + by rewrite IH.
    + intros Heq. apply Hx. rewrite Heq. by apply list_elem_of_fmap_2.
Qed.

Lemma NoDup_fmap_elem_inj (f : A → B) (l : list A) x y :
  NoDup (f <$> l) → x ∈ l → y ∈ l → f x = f y → x = y.
Proof.
  induction l as [|z l IH]; intros Hnd Hx Hy Hxy; [by apply elem_of_nil in Hx|].
  cbn [fmap list_fmap] in Hnd. apply NoDup_cons in Hnd as [Hz Hnd].
  apply elem_of_cons in Hx as [->|Hx]; apply elem_of_cons in Hy as [->|Hy].
  - done.
  - destruct Hz. rewrite Hxy. by apply list_elem_of_fmap_2.
  - destruct Hz. rewrite <-Hxy. by apply list_elem_of_fmap_2.
  - by apply IH.
Qed.
End ListFacts2.

(** ** Facts about the spatial index and the order of the joins *)

Section SortFacts.
Context {A : Type}.
Implicit Types (key : A → Z) (l : list A).

Lemma insert_by_perm key x l : insert_by key x l ≡ₚ x :: l.
Proof.
  induction l as [|y l IH]; simpl; [done|].
  case_decide; [done|]. rewrite IH. apply Permutation_swap.
Qed.

Lemma sort_by_perm key l : sort_by key l ≡ₚ l.
Proof.
  induction l as [|x l IH]; simpl; [done|].
  by rewrite insert_by_perm, IH.
Qed.

Lemma elem_of_sort_by key l x : x ∈ sort_by key l ↔ x ∈ l.
Proof. by rewrite sort_by_perm. Qed.

Lemma length_sort_by key l : length (sort_by key l) = length l.
Proof. by rewrite sort_by_perm. Qed.

Lemma sort_by_nil_inv key l : sort_by key l = [] → l = [].
Proof.
  intros Hnil. apply length_zero_iff_nil.
  by rewrite <-(length_sort_by key), Hnil.
Qed.

Lemma insert_by_ext key key' x l :
  key x = key' x → Forall (λ y, key y = key' y) l →
  insert_by key x l = insert_by key' x l.
Proof.
  intros Hx. induction 1 as [|y k Hy _ IHk]; simpl; [done|].
  rewrite Hx, Hy. case_decide; [done|]. by rewrite IHk.
Qed.

Lemma sort_by_ext key key' l :
  (∀ x, x ∈ l → key x = key' x) → sort_by key l = sort_by key' l.
Proof.
  induction l as [|x l IH]; intros Hext; simpl; [done|].
  rewrite IH by (intros y Hy; apply Hext; by apply list_elem_of_further).
  apply insert_by_ext; [apply Hext; apply list_elem_of_here|].
  apply Forall_forall. intros y Hy%elem_of_sort_by.
  apply Hext. by apply list_elem_of_further.
Qed.

(** Taking the entries at the positions that satisfy a property of the
    entry is filtering. *)
Lemma positions_filter (P : A → Prop) `{∀ x, Decision (P x)}
    (Q : nat → Prop) `{∀ j, Decision (Q j)} l :
  (∀ j x, l !! j = Some x → Q j ↔ P x) →
  omap (λ j, l !! j) (filter Q (seq 0 (length l))) = filter P l.
Proof.
  revert Q H0. induction l as [|x l IH]; intros Q HQ Hiff; [done|].
  cbn [length seq]. rewrite <-fmap_S_seq, !filter_cons.
  rewrite filter_fmap.
  specialize (IH (λ j, Q (S j)) _ (λ j y Hy, Hiff (S j) y Hy)).
  pose proof (Hiff 0%nat x eq_refl) as H0x.
  do 2 case_decide; try tauto.
  - cbn [omap list_omap lookup list_lookup]. f_equal.
    rewrite omap_fmap. exact IH.
  - rewrite omap_fmap. exact IH.
Qed.
End SortFacts.

Section IndexFacts.
Context {geometry : Type} `{EqDecision geometry}.
Variable lib : libraries geometry.
Implicit Types (tree : list (cell geometry)) (rs : list (Z * list (cell geometry))).

Lemma elem_of_query hit tree g j :
  j ∈ query lib hit tree g ↔ (j < length tree)%nat ∧ hit g (at_loc j tree).
Proof.
  unfold query. rewrite elem_of_sort_by, list_elem_of_filter, elem_of_seq.
  split; intros [? ?]; split; (done || lia).
Qed.

Lemma query_perm hit tree g :
  query lib hit tree g
  ≡ₚ filter (λ j, hit g (at_loc j tree)) (seq 0 (length tree)).
Proof. apply sort_by_perm. Qed.

Lemma elem_of_take_rows rs js r :
  r ∈ take_rows rs js ↔ ∃ j, j ∈ js ∧ rs !! j = Some r.
Proof. apply list_elem_of_omap. Qed.

Lemma take_rows_elem rs js r : r ∈ take_rows rs js → r ∈ rs.
Proof.
  intros (j & _ & Hj)%elem_of_take_rows. by eapply list_elem_of_lookup_2.
Qed.

(** The rows the index yields for a query are, up to their order, the rows
    whose geometry satisfies the predicate. *)
Lemma take_rows_query hit (h : Z * list (cell geometry) → cell geometry) rs g :
  take_rows rs (query lib hit (h <$> rs) g)
  ≡ₚ filter (λ r, hit g (h r)) rs.
Proof.
  unfold take_rows. rewrite query_perm, length_fmap.
  rewrite (positions_filter (λ r, hit g (h r))); [done|].
  intros j x Hj. unfold at_loc.
  rewrite (nth_lookup_Some _ _ _ (h x)); [done|].
  by rewrite list_lookup_fmap, Hj.
Qed.

Lemma Forall2_take_rows (R : relation (Z * list (cell geometry))) rs rs' js :
  Forall2 R rs rs' → Forall2 R (take_rows rs js) (take_rows rs' js).
Proof.
  intros Hrs. unfold take_rows.
  induction js as [|j js IH]; [constructor|]. cbn [omap list_omap].
  pose proof (proj1 (Forall2_lookup _ _ _) Hrs j) as Hj.
  destruct Hj as [r r' Hr|]; [by constructor|done].
Qed.

Lemma partners_elem (pnts pgons : GeoDataFrame geometry) l r :
  r ∈ partners lib pnts pgons l → r ∈ rows pgons.
Proof. apply take_rows_elem. Qed.

Lemma partners_perm (pnts pgons : GeoDataFrame geometry) l :
  partners lib pnts pgons l
  ≡ₚ filter (λ r, intersects_hit lib (cell_of pnts (geometry_name pnts) l)
                    (cell_of pgons (geometry_name pgons) r.2)) (rows pgons).
Proof. apply take_rows_query. Qed.

Lemma listed_perm how ltree rtree rs : listed lib how ltree rtree rs ≡ₚ rs.
Proof.
  unfold listed. rewrite sort_by_perm, snd_zip; [done|].
  by rewrite length_seq.
Qed.
End IndexFacts.

Section MonadFacts.
Context {A B : Type}.

Lemma Ok_inj {X} (a b : X) : Ok a = Ok b → a = b.
Proof. by intros [= ->]. Qed.

Lemma mapM_Ok_length (f : A → result B) l k :
  mapM f l = Ok k → length k = length l.
Proof.
  revert k. induction l as [|x l IH]; intros k; simpl.
  - by intros [= <-].
  - destruct (f x); simpl; [|done].
    destruct (mapM f l); simpl; [|done].
    intros [= <-]. simpl. by rewrite (IH _ eq_refl).
Qed.

Lemma mapM_Ok_fmap (f : A → result B) (g : A → B) l :
  Forall (λ x, f x = Ok (g x)) l → mapM f l = Ok (g <$> l).
Proof.
  induction 1 as [|x l Hx _ IH]; simpl; [done|].
  by rewrite Hx, IH.
Qed.

Lemma mapM_Ok_intro (f : A → result B) (R : A → B → Prop) l :
  Forall (λ x, ∃ y, f x = Ok y ∧ R x y) l →
  ∃ ys, mapM f l = Ok ys ∧ Forall2 R l ys.
Proof.
  induction 1 as [|x l (y & Hy & HR) _ (ys & Hys & HRs)]; simpl.
  - exists []. by split; [|constructor].
  - exists (y :: ys). rewrite Hy, Hys. by split; [|constructor].
Qed.

Lemma mapM_fmap {C} (f : A → result B) (g : C → A) (l : list C) :
  mapM f (g <$> l) = mapM (f ∘ g) l.
Proof.
  induction l as [|x l IH]; [done|].
  rewrite fmap_cons. cbn [mapM]. by rewrite IH.
Qed.
End MonadFacts.

Section RowFacts.
Context {geometry : Type} `{EqDecision geometry}.
Implicit Types (g : GeoDataFrame geometry) (p : cell geometry).

Lemma str_join_strs sep (ids : list string) :
  str_join (geometry := geometry) sep (Str <$> ids) = Ok (String.concat sep ids).
Proof.
  unfold str_join.
  rewrite (mapM_Ok_fmap _ (λ c, match c with Str s => s | _ => "" end)).
  - simpl. do 2 f_equal. rewrite <-list_fmap_compose. by apply list_fmap_id.
  - apply Forall_forall. intros c (s & -> & _)%list_elem_of_fmap. done.
Qed.

Lemma row_Ok pgid p g ids geoms :
  series g pgid = Ok (Str <$> ids) →
  geometry_series g = Ok geoms →
  _row pgid p g = Ok (p :: Str (String.concat "-" ids) :: unique geoms).
Proof.
  intros Hids Hgeoms. unfold _row. rewrite Hids. simpl.
  rewrite str_join_strs. simpl. by rewrite Hgeoms.
Qed.

Lemma first_occurrences_from_unique (seen l : list (cell geometry)) :
  first_occurrences_from seen l = filter (λ x, x ∉ seen) (unique l).
Proof.
  revert seen. induction l as [|x l IH]; intros seen; simpl; [done|].
  rewrite filter_cons. case_decide as Hx.
  - rewrite decide_False by tauto.
    rewrite IH, list_filter_filter. apply list_filter_iff.
    intros y. split; [|tauto]. intros Hy. split; [done|]. by intros ->.
  - rewrite decide_True by done. f_equal.
    rewrite IH, list_filter_filter. apply list_filter_iff.
    intros y. rewrite elem_of_cons. tauto.
Qed.

Lemma unique_first_occurrences (l : list (cell geometry)) :
  unique l = first_occurrences l.
Proof.
  unfold first_occurrences. rewrite first_occurrences_from_unique.
  symmetry. apply filter_all, Forall_forall. intros x _. apply not_elem_of_nil.
Qed.
End RowFacts.

(** ** Labels and positions *)

Section LocFacts.
Context {geometry : Type} `{EqDecision geometry}.
Implicit Types (cols : list string) (r : list (cell geometry)).

Lemma get_loc_Some c cols k :
  get_loc c cols = Some k → cols !! k = Some c.
Proof.
  revert k. induction cols as [|x cols IH]; intros k; simpl; [done|].
  case_decide as Hx; [by intros [= <-]; subst|].
  destruct (get_loc c cols) as [k'|]; simpl; [|done].
  intros [= <-]. by apply IH.
Qed.

Lemma get_loc_lt c cols k : get_loc c cols = Some k → (k < length cols)%nat.
Proof. intros Hk%get_loc_Some. by eapply lookup_lt_Some. Qed.

Lemma get_loc_None c cols : get_loc c cols = None ↔ c ∉ cols.
Proof.
  induction cols as [|x cols IH]; simpl.
  - split; [intros _; apply not_elem_of_nil|done].
  - rewrite not_elem_of_cons. case_decide as Hx.
    + split; [done|]. intros [Hne _]. by destruct Hne.
    + destruct (get_loc c cols); simpl.
      * split; [done|]. intros [_ Hc]. by apply IH in Hc.
      * split; [|done]. intros _. split; [by intros ->|by apply IH].
Qed.

Lemma get_loc_elem c cols : c ∈ cols → ∃ k, get_loc c cols = Some k.
Proof.
  intros Hc. destruct (get_loc c cols) as [k|] eqn:Hk; [by exists k|].
  by apply get_loc_None in Hk.
Qed.

Lemma get_loc_app_l c cols cols' k :
  get_loc c cols = Some k → get_loc c (cols ++ cols') = Some k.
Proof.
  revert k. induction cols as [|x cols IH]; intros k; simpl; [done|].
  case_decide; [done|].
  destruct (get_loc c cols) as [k'|]; simpl; [|done].
  intros [= <-]. by rewrite (IH k').
Qed.

Lemma get_loc_app_r c cols cols' k :
  c ∉ cols → get_loc c cols' = Some k →
  get_loc c (cols ++ cols') = Some (length cols + k)%nat.
Proof.
  intros Hc Hk. induction cols as [|x cols IH]; simpl; [done|].
  apply not_elem_of_cons in Hc as [Hne Hc].
  rewrite decide_False by done. by rewrite IH.
Qed.

Lemma get_loc_NoDup cols k c :
  NoDup cols → cols !! k = Some c → get_loc c cols = Some k.
Proof.
  intros Hnd. revert k. induction Hnd as [|x cols Hx _ IH]; intros k; [done|].
  destruct k as [|k]; simpl.
  - intros [= ->]. by rewrite decide_True.
  - intros Hk. rewrite decide_False.
    + by rewrite (IH k).
    + intros ->. apply Hx. by eapply list_elem_of_lookup_2.
Qed.

Lemma at_loc_app_l k r r' : (k < length r)%nat → at_loc k (r ++ r') = at_loc k r.
Proof. intros. unfold at_loc. by rewrite app_nth1. Qed.

Lemma at_loc_app_r k r r' : at_loc (length r + k) (r ++ r') = at_loc k r'.
Proof. unfold at_loc. by rewrite app_nth2_plus. Qed.

Lemma at_loc_replicate k n : at_loc k (replicate n (@NA geometry)) = NA.
Proof.
  unfold at_loc. revert k. induction n as [|n IH]; intros [|k]; simpl; auto.
Qed.

(** Dropping the cells of one label moves the other labels along with
    their cells. *)
Lemma at_loc_drop d c cols r k :
  length r = length cols → c ≠ d → get_loc c cols = Some k →
  ∃ k', get_loc c (drop_label d cols) = Some k'
        ∧ at_loc k' (drop_cells d cols r) = at_loc k r.
Proof.
  revert r k. induction cols as [|x cols IH]; intros r k Hlen Hne; [done|].
  destruct r as [|y r]; [done|]. injection Hlen as Hlen.
  unfold drop_label, drop_cells in *. cbn [get_loc zip zip_with].
  rewrite !filter_cons. cbn [fst].
  case_decide as Hx.
  - subst x. intros [= <-]. rewrite !decide_True by done.
    exists 0%nat. simpl. by rewrite decide_True.
  - destruct (get_loc c cols) as [k0|] eqn:Hk0; [|done]. simpl.
    intros [= <-].
    destruct (IH r k0 Hlen Hne eq_refl) as (k' & Hk' & Hat).
    destruct (decide (x ≠ d)).
    + exists (S k'). simpl. rewrite decide_False by done. by rewrite Hk'.
    + exists k'. done.
Qed.
End LocFacts.

(** ** The two functions, run *)

Section Run.
Context {geometry : Type} `{EqDecision geometry}.
Variable lib : libraries geometry.
Implicit Types (df pnts pgons : GeoDataFrame geometry) (kc : list string).

Lemma with_geometry_elem g kc : g ∈ with_geometry g kc.
Proof.
  unfold with_geometry. case_decide; [done|].
  apply elem_of_app. right. apply list_elem_of_here.
Qed.

Lemma with_geometry_idemp g kc :
  with_geometry g (with_geometry g kc) = with_geometry g kc.
Proof.
  unfold with_geometry at 1. by rewrite decide_True by apply with_geometry_elem.
Qed.

Lemma geometry_label_Ok df :
  geometry_name df ∈ columns df → geometry_label df = Ok (geometry_name df).
Proof.
  intros [k Hk]%get_loc_elem. unfold geometry_label, geometry_series.
  by rewrite Hk.
Qed.

Lemma geometry_label_Raise df :
  geometry_name df ∉ columns df → geometry_label df = Raise AttributeError.
Proof.
  intros Hk%get_loc_None. unfold geometry_label, geometry_series.
  by rewrite Hk.
Qed.

(** [do_sjoin] reads the name of the geometry column, appends it to the
    list and then joins, projects and fills. *)
Lemma do_sjoin_run_cases (df1 df2 : GeoDataFrame geometry) op ptid pgid how fillna kc :
  do_sjoin lib df1 df2 op ptid pgid how fillna kc =
  if decide (geometry_name df1 ∈ columns df1)
  then (with_geometry (geometry_name df1) kc,
        joined ← sjoin lib df1 df2 how op;
        df3 ← getitem joined (with_geometry (geometry_name df1) kc);
        fill_isna df3 pgid fillna)
  else (kc, Raise AttributeError).
Proof.
  unfold do_sjoin. case_decide as Hg.
  - unfold mbind at 1, M_bind at 1, lift at 1.
    rewrite (geometry_label_Ok _ Hg).
    unfold with_geometry, mbind, M_bind, read, iadd, lift, mret, M_ret.
    case_decide; simpl;
      destruct (sjoin _ _ _ _ _) as [joined|]; simpl; try done;
      by destruct (getitem _ _).
  - unfold mbind at 1, M_bind at 1, lift at 1.
    by rewrite (geometry_label_Raise _ Hg).
Qed.

Lemma do_sjoin_run (df1 df2 : GeoDataFrame geometry) op ptid pgid how fillna kc :
  geometry_name df1 ∈ columns df1 →
  do_sjoin lib df1 df2 op ptid pgid how fillna kc =
  (with_geometry (geometry_name df1) kc,
   joined ← sjoin lib df1 df2 how op;
   df3 ← getitem joined (with_geometry (geometry_name df1) kc);
   fill_isna df3 pgid fillna).
Proof. intros Hg. by rewrite do_sjoin_run_cases, decide_True. Qed.

Lemma do_sjoin_no_geometry (df1 df2 : GeoDataFrame geometry) op ptid pgid how fillna kc :
  geometry_name df1 ∉ columns df1 →
  do_sjoin lib df1 df2 op ptid pgid how fillna kc = (kc, Raise AttributeError).
Proof. intros Hg. by rewrite do_sjoin_run_cases, decide_False. Qed.

Lemma nd_intersects_run pnts pgons ptid pgid kc :
  geometry_name pnts ∈ columns pnts →
  nd_intersects lib pnts pgons ptid pgid kc =
  (with_geometry (geometry_name pnts) kc,
   igdf ← (do_sjoin lib pnts pgons "intersects" ptid pgid
             how_left (Str "NaN") (with_geometry (geometry_name pnts) kc)).2;
   groups ← groupby igdf ptid;
   value ← mapM (λ pg, _row pgid pg.1 pg.2) groups;
   loc_setitem lib (shell (columns igdf) (index pnts))
     (with_geometry (geometry_name pnts) kc) value).
Proof.
  intros Hg. unfold nd_intersects.
  unfold mbind at 1, M_bind at 1, lift at 1.
  rewrite (geometry_label_Ok _ Hg).
  unfold mbind at 1 2 3, M_bind at 1 2 3, read at 1.
  assert ((if decide (geometry_name pnts ∈ kc) then mret () else iadd [geometry_name pnts]) kc
          = (with_geometry (geometry_name pnts) kc, Ok tt)) as ->.
  { unfold with_geometry. by case_decide. }
  rewrite (do_sjoin_run _ _ _ _ _ _ _ _ Hg), with_geometry_idemp. cbn [snd].
  set (r := mbind _ (sjoin _ _ _ _ _)). destruct r as [igdf|]; [|done].
  unfold mbind, M_bind, result_bind, read, lift.
  destruct (groupby igdf ptid) as [groups|]; [|done].
  by destruct (mapM _ groups).
Qed.

Lemma with_geometry_fixed g kc : with_geometry g kc = kc ↔ g ∈ kc.
Proof.
  unfold with_geometry. case_decide as Hin; [done|].
  split; [|done]. intros Heq. apply (f_equal length) in Heq.
  rewrite length_app in Heq. simpl in Heq. lia.
Qed.

Lemma nd_intersects_no_geometry pnts pgons ptid pgid kc :
  geometry_name pnts ∉ columns pnts →
  nd_intersects lib pnts pgons ptid pgid kc = (kc, Raise AttributeError).
Proof.
  intros Hg. unfold nd_intersects.
  unfold mbind at 1, M_bind at 1, lift at 1.
  by rewrite (geometry_label_Raise _ Hg).
Qed.
End Run.


(** ** The pair table of a well-formed call *)

Section JoinFacts.
Context {geometry : Type} `{EqDecision geometry}.
Variable lib : libraries geometry.
Variables (pnts pgons : GeoDataFrame geometry) (ptid pgid : string).
Variable keep_columns : list string.
Hypothesis Hvalid : valid_call lib pnts pgons ptid pgid keep_columns.

Local Abbreviation rcols := (drop_label (geometry_name pgons) (columns pgons)).

Lemma suffixed_nil sfx (cols : list string) : suffixed [] sfx <$> cols = cols.
Proof.
  rewrite <-(list_fmap_id cols) at 2. apply list_fmap_ext.
  intros i c _. unfold suffixed. rewrite decide_False; [done|].
  apply not_elem_of_nil.
Qed.

Lemma sjoin_valid :
  sjoin lib pnts pgons how_left "intersects" =
  Ok {| columns := columns pnts ++ "index_right" :: rcols;
        geometry_name := geometry_name pnts;
        rows := flat_map (λ l,
          match partners lib pnts pgons l.2 with
          | [] => [(l.1, l.2 ++ NA :: replicate (length rcols) NA)]
          | ms => (λ r, (l.1, l.2 ++ Num r.1
                                :: drop_cells (geometry_name pgons) (columns pgons) r.2)) <$> ms
          end) (rows pnts) |}.
Proof.
  destruct Hvalid as [[f Hf] _ _ Hres Hdis Hg1 Hg2 _ _ _ _ _ _].
  unfold sjoin. rewrite decide_False; last first.
  { rewrite Exists_exists. intros (c & Hc & Hbad).
    rewrite Forall_forall in Hres. specialize (Hres c Hc). tauto. }
  rewrite Hf.
  destruct (get_loc_elem _ _ Hg1) as [lk Hlk].
  destruct (get_loc_elem _ _ Hg2) as [rk Hrk].
  rewrite Hlk, Hrk. cbv zeta.
  rewrite (filter_none (λ c, c ∈ drop_label (geometry_name pgons) (columns pgons)))
    by done.
  rewrite !suffixed_nil. f_equal. f_equal.
  apply flat_map_ext. intros l.
  unfold partners, query, intersects_hit, geometry_column, cell_of.
  by rewrite Hf, Hlk, Hrk.
Qed.

Lemma fmap_flat_map {A B C} (f : B → C) (g : A → list B) (l : list A) :
  f <$> flat_map g l = flat_map (λ x, f <$> g x) l.
Proof. induction l as [|x l IH]; simpl; [done|]. by rewrite fmap_app, IH. Qed.

Lemma flat_map_ext_elem {A B} (f g : A → list B) (l : list A) :
  (∀ x, x ∈ l → f x = g x) → flat_map f l = flat_map g l.
Proof.
  induction l as [|x l IH]; intros Hfg; simpl; [done|].
  rewrite Hfg by apply list_elem_of_here. f_equal.
  apply IH. intros y Hy. apply Hfg. by apply list_elem_of_further.
Qed.

Lemma pgid_not_in_pnts : pgid ∉ columns pnts.
Proof.
  destruct Hvalid as [_ _ _ _ Hdis _ _ _ _ Hpgid _ _ _].
  intros Hc. rewrite Forall_forall in Hdis. by apply (Hdis pgid Hc).
Qed.

Lemma pgid_in_pgons : pgid ∈ columns pgons ∧ pgid ≠ geometry_name pgons.
Proof.
  destruct Hvalid as [_ _ _ _ _ _ _ _ _ Hpgid _ _ _].
  unfold drop_label in Hpgid. apply list_elem_of_filter in Hpgid. tauto.
Qed.

Lemma labels_distinct :
  ptid ≠ pgid ∧ pgid ≠ geometry_name pnts ∧ ptid ≠ geometry_name pnts.
Proof.
  pose proof pgid_not_in_pnts as Hq.
  destruct Hvalid as [_ _ _ _ _ Hg _ Hp Hpg _ _ _ _].
  repeat split; [by intros ->|by intros ->|done].
Qed.

Lemma igdf_valid :
  (do_sjoin lib pnts pgons "intersects" ptid pgid how_left
     (Str "NaN") keep_columns).2 =
  Ok (pair_table lib pnts pgons ptid pgid).
Proof.
  pose proof pgid_not_in_pnts as Hq1.
  pose proof pgid_in_pgons as [Hq2 Hq3].
  pose proof labels_distinct as (Hd1 & Hd2 & Hd3).
  rewrite do_sjoin_run by apply Hvalid. cbn [snd].
  rewrite (vc_keep_columns _ _ _ _ _ _ Hvalid), sjoin_valid.
  destruct Hvalid as [_ Hs1 Hs2 Hres _ Hg1 _ Hp _ Hpgid _ _ _].
  destruct (get_loc_elem _ _ Hp) as [kp Hkp].
  destruct (get_loc_elem _ _ Hg1) as [kg Hkg].
  destruct (get_loc_elem _ _ Hq2) as [kq0 Hkq0].
  destruct (get_loc_elem _ _ Hpgid) as [kq Hkq].
  assert (get_loc pgid (columns pnts ++ "index_right" :: rcols)
          = Some (length (columns pnts) + S kq)%nat) as Hloc.
  { apply get_loc_app_r; [done|]. simpl. rewrite decide_False.
    - by rewrite Hkq.
    - intros <-. rewrite Forall_forall in Hres.
      destruct (Hres "index_right") as [_ Hbad]; [|done].
      apply elem_of_app. by right. }
  cbn [mbind result_bind]. unfold getitem. cbn [columns mapM].
  unfold locate at 1 2 3.
  rewrite (get_loc_app_l _ _ _ _ Hkp), (get_loc_app_l _ _ _ _ Hkg), Hloc.
  cbn [mbind result_bind mret result_ret rows geometry_name].
  unfold fill_isna. cbn [columns get_loc].
  rewrite decide_False by done. rewrite decide_True by done.
  cbn [fmap option_fmap option_map rows geometry_name].
  rewrite (decide_True (P := length _ = 1%nat)); last first.
  { rewrite !filter_cons, filter_nil.
    rewrite (decide_False (P := ptid = pgid)) by done.
    rewrite (decide_True (P := pgid = pgid)) by done.
    by rewrite (decide_False (P := geometry_name pnts = pgid)). }
  unfold pair_table. do 2 f_equal.
  unfold pair_rows, pair_block. rewrite !fmap_flat_map.
  apply flat_map_ext_elem. intros l Hl.
  assert (length l.2 = length (columns pnts)) as Hlen.
  { unfold well_shaped in Hs1. rewrite Forall_forall in Hs1. by apply Hs1. }
  assert (∀ tl, at_loc kp (l.2 ++ tl) = cell_of pnts ptid l.2) as Hat1.
  { intros tl. unfold cell_of. rewrite Hkp. apply at_loc_app_l.
    rewrite Hlen. by eapply get_loc_lt. }
  assert (∀ tl, at_loc kg (l.2 ++ tl) = cell_of pnts (geometry_name pnts) l.2) as Hat2.
  { intros tl. unfold cell_of. rewrite Hkg. apply at_loc_app_l.
    rewrite Hlen. by eapply get_loc_lt. }
  unfold pair_ids.
  destruct (partners lib pnts pgons l.2) as [|r0 ms] eqn:Hms.
  - cbn [fmap list_fmap fst snd]. rewrite Hat1, Hat2, <-Hlen, at_loc_app_r.
    change (at_loc (S kq) (NA :: ?tl)) with (at_loc kq tl).
    by rewrite at_loc_replicate.
  - assert (Forall (λ r, r ∈ rows pgons) (r0 :: ms)) as Hin.
    { rewrite <-Hms. apply Forall_forall. intros r Hr.
      by apply take_rows_elem in Hr. }
    clear Hms. rewrite <-!list_fmap_compose.
    apply Forall_fmap_ext_1. eapply Forall_impl; [exact Hin|].
    intros r Hr. cbn [compose fst snd fmap list_fmap].
    rewrite Hat1, Hat2, <-Hlen, at_loc_app_r.
    change (at_loc (S kq) (?x :: ?tl)) with (at_loc kq tl).
    assert (length r.2 = length (columns pgons)) as Hrlen.
    { unfold well_shaped in Hs2. rewrite Forall_forall in Hs2. by apply Hs2. }
    destruct (at_loc_drop (geometry_name pgons) pgid (columns pgons) r.2 kq0
                Hrlen Hq3 Hkq0) as (k' & Hk' & Hat).
    rewrite Hkq in Hk'. injection Hk' as <-.
    rewrite Hat. unfold cell_of. rewrite Hkq0.
    unfold fill. cbn [at_loc nth]. by destruct (isna (at_loc kq0 r.2)).
Qed.
End JoinFacts.

(** ** Grouping the pair table *)

Section GroupFacts.
Context {geometry : Type} `{EqDecision geometry}.
Variable lib : libraries geometry.
Variables (pnts pgons : GeoDataFrame geometry) (ptid pgid : string).
Variable keep_columns : list string.
Hypothesis Hvalid : valid_call lib pnts pgons ptid pgid keep_columns.

Local Abbreviation igdf := (pair_table lib pnts pgons ptid pgid).
Local Abbreviation key := (row_key (geometry := geometry)).
Local Abbreviation block := (pair_block lib pnts pgons ptid pgid).

Lemma pair_ids_nonempty l : pair_ids lib pnts pgons pgid l ≠ [].
Proof. unfold pair_ids. by destruct (partners _ _ _ _). Qed.

Lemma pair_ids_str_or_na l :
  Forall (λ c, str_or_na c) (pair_ids lib pnts pgons pgid l).
Proof.
  unfold pair_ids.
  destruct (partners _ _ _ _) as [|r0 ms] eqn:Hms; [by repeat constructor|].
  rewrite <-Hms. apply Forall_fmap, Forall_forall. intros r Hr.
  apply partners_elem in Hr.
  pose proof (vc_polygon_ids _ _ _ _ _ _ Hvalid) as Hall.
  rewrite Forall_forall in Hall. by apply Hall.
Qed.

Lemma key_block l : Forall (λ r, key r = cell_of pnts ptid l.2) (block l).
Proof. unfold block. apply Forall_fmap, Forall_forall. by intros c _. Qed.

(** A cell that is the same in all pair rows of a point takes, over the
    pair table, the values it takes over the points. *)
Lemma pair_rows_elem {X} (h : Z * list (cell geometry) → X)
    (h0 : Z * list (cell geometry) → X) (x : X) :
  (∀ l, Forall (λ r, h r = h0 l) (block l)) →
  x ∈ h <$> rows igdf ↔ x ∈ h0 <$> rows pnts.
Proof.
  intros Hblock. cbn [rows pair_table]. unfold pair_rows.
  rewrite !list_elem_of_fmap. split.
  - intros (r & -> & Hr). rewrite list_elem_of_In, in_flat_map in Hr.
    destruct Hr as (l & Hl%list_elem_of_In & Hr%list_elem_of_In).
    exists l. split; [|done].
    specialize (Hblock l). rewrite Forall_forall in Hblock. by apply Hblock.
  - intros (l & -> & Hl).
    destruct (block l) as [|r rs] eqn:Hb.
    { unfold pair_block in Hb. apply fmap_nil_inv in Hb.
      by apply pair_ids_nonempty in Hb. }
    exists r. split.
    + specialize (Hblock l). rewrite Hb in Hblock.
      symmetry. by apply Forall_cons_1 in Hblock as [Hr _].
    + rewrite list_elem_of_In, in_flat_map. exists l.
      rewrite <-!list_elem_of_In. split; [done|]. rewrite Hb. by left.
Qed.

Lemma keys_elem k :
  k ∈ key <$> rows igdf ↔ k ∈ point_ids pnts ptid.
Proof. apply (pair_rows_elem key), key_block. Qed.

(** The geometry column of the pair table holds the geometries of the
    points frame. *)
Lemma pair_table_geometries :
  ∃ geoms,
    geometry_series igdf = Ok geoms
    ∧ ∀ x, x ∈ geoms
           ↔ x ∈ (λ l, cell_of pnts (geometry_name pnts) l.2) <$> rows pnts.
Proof.
  pose proof (labels_distinct _ _ _ _ _ _ Hvalid) as (Hd1 & Hd2 & Hd3).
  exists ((λ r, at_loc 2 r.2) <$> rows igdf). split.
  - unfold geometry_series. cbn [columns geometry_name pair_table get_loc].
    rewrite decide_False by done. cbn [fmap option_fmap option_map].
    rewrite decide_False by (by intros ->). cbn [fmap option_fmap option_map].
    by rewrite decide_True by done.
  - intros x. apply (pair_rows_elem (λ r, at_loc 2 r.2)). intros l.
    unfold pair_block. apply Forall_fmap, Forall_forall. by intros c _.
Qed.

Lemma keys_are_keys : Forall (λ c, is_key c) (key <$> rows igdf).
Proof.
  apply Forall_forall. intros k Hk%keys_elem.
  pose proof (vc_point_ids _ _ _ _ _ _ Hvalid) as Hall.
  rewrite Forall_forall in Hall. by apply Hall.
Qed.

(** The groups of the pair table of a well-formed call. *)
Lemma groupby_igdf :
  groupby igdf ptid =
  Ok ((λ k, (k, {| columns := columns igdf;
                   geometry_name := geometry_name igdf;
                   rows := filter (λ r, key r = k) (rows igdf) |}))
        <$> merge_sort cell_le (unique (key <$> rows igdf))).
Proof.
  pose proof keys_are_keys as Hkeys.
  unfold groupby, series. cbn [columns igdf get_loc].
  rewrite decide_True by done. cbn [mbind result_bind]. fold key.
  rewrite decide_False; last first.
  { rewrite Exists_exists. intros (c & Hc & Hg).
    rewrite Forall_forall in Hkeys. specialize (Hkeys c Hc). by destruct c. }
  f_equal. unfold group_keys.
  rewrite (filter_all (λ c, c ≠ NA)); last first.
  { eapply Forall_impl; [exact Hkeys|]. by intros []. }
  apply list_fmap_ext. intros _ k _. do 2 f_equal.
  apply (filter_zip_fmap key (λ c, c = k)).
Qed.

(** With unique point identifiers the first occurrences of the keys are
    the identifiers in the order of the points frame... *)
Lemma unique_keys :
  NoDup (point_ids pnts ptid) →
  unique (key <$> rows igdf) = point_ids pnts ptid.
Proof.
  unfold point_ids. cbn [rows igdf]. unfold pair_rows. fold block.
  induction (rows pnts) as [|l ls IH]; [done|].
  cbn [fmap list_fmap flat_map]. rewrite NoDup_cons. intros [Hl Hnd].
  rewrite fmap_app, unique_app, (unique_const _ (cell_of pnts ptid l.2)).
  - cbn [app]. f_equal. rewrite IH by done.
    apply filter_all, Forall_forall. intros k Hk Hin.
    apply list_elem_of_fmap in Hin as (r & -> & Hr).
    pose proof (key_block l) as Hkb. rewrite Forall_forall in Hkb.
    rewrite (Hkb r Hr) in Hk. done.
  - intros Hnil%fmap_nil_inv. unfold block in Hnil.
    apply fmap_nil_inv in Hnil. by apply pair_ids_nonempty in Hnil.
  - apply Forall_fmap. exact (key_block l).
Qed.

(** ... and each group is the block of rows of one point. *)
Lemma group_rows l0 :
  NoDup (point_ids pnts ptid) → l0 ∈ rows pnts →
  filter (λ r, key r = cell_of pnts ptid l0.2) (rows igdf) = block l0.
Proof.
  intros Hnd Hl0. cbn [rows igdf]. unfold pair_rows. fold block.
  rewrite filter_flat_map.
  rewrite <-(flat_map_select (λ l, cell_of pnts ptid l.2) block (rows pnts) l0)
    by done.
  apply flat_map_ext. intros l. pose proof (key_block l) as Hk.
  case_decide as Hl.
  - apply filter_all. eapply Forall_impl; [exact Hk|].
    intros r Hr. cbn beta. by rewrite Hr.
  - apply filter_none. eapply Forall_impl; [exact Hk|].
    intros r Hr. cbn beta. by rewrite Hr.
Qed.

(** Folding the block of a point gives its identifier, the joined
    identifiers of its partners, and its own geometry. *)
Lemma row_block l :
  _row pgid (cell_of pnts ptid l.2)
    {| columns := columns igdf; geometry_name := geometry_name igdf; rows := block l |}
  = Ok (fold_point lib pnts pgons ptid pgid l.2).
Proof.
  pose proof (labels_distinct _ _ _ _ _ _ Hvalid) as (Hd1 & Hd2 & Hd3).
  unfold fold_point.
  erewrite (row_Ok pgid _ _
              (id_text <$> pair_ids lib pnts pgons pgid l.2)
              ((λ r, at_loc 2 r.2) <$> block l)).
  - do 3 f_equal. apply unique_const.
    + intros Hnil%fmap_nil_inv. unfold block in Hnil.
      apply fmap_nil_inv in Hnil. by apply pair_ids_nonempty in Hnil.
    + unfold block. apply Forall_fmap, Forall_fmap, Forall_forall. by intros c _.
  - unfold series. cbn [columns igdf get_loc rows].
    rewrite decide_False by done. rewrite decide_True by done.
    cbn [fmap option_fmap option_map]. f_equal. unfold block.
    rewrite <-!list_fmap_compose. apply Forall_fmap_ext_1.
    eapply Forall_impl; [apply pair_ids_str_or_na|].
    intros c Hc. cbn. by destruct c.
  - unfold geometry_series. cbn [columns igdf get_loc geometry_name rows].
    rewrite decide_False by done. cbn [fmap option_fmap option_map].
    rewrite decide_False by (by intros ->). cbn [fmap option_fmap option_map].
    by rewrite decide_True by done.
Qed.
End GroupFacts.

(** ** Filling the shell *)

Section ShellFacts.
Context {geometry : Type} `{EqDecision geometry}.
Variable lib : libraries geometry.
Implicit Types (cols : list string) (t : list (cell geometry)).

Lemma assign_row_all cols t old :
  NoDup cols → length t = length cols → length old = length cols →
  assign_row cols cols t old = t.
Proof.
  intros Hnd Ht Hold. unfold assign_row. apply list_eq. intros i.
  rewrite lookup_zip_with.
  destruct (cols !! i) as [c|] eqn:Hc; simpl.
  - destruct (lookup_lt_is_Some_2 old i) as [o Ho].
    { rewrite Hold. by eapply lookup_lt_Some. }
    destruct (lookup_lt_is_Some_2 t i) as [x Hx].
    { rewrite Ht. by eapply lookup_lt_Some. }
    rewrite Ho, Hx. simpl. rewrite (get_loc_NoDup cols i c) by done.
    unfold at_loc. by rewrite nth_lookup, Hx.
  - symmetry. apply lookup_ge_None. rewrite Ht. by apply lookup_ge_None.
Qed.

Lemma locate_all cols labels :
  (∀ c, c ∈ labels → c ∈ cols) → is_Ok (mapM (locate cols) labels).
Proof.
  induction labels as [|c labels IH]; intros Hsub; simpl; [done|].
  destruct (get_loc_elem c cols) as [k Hk]; [apply Hsub; by left|].
  assert (locate cols c = Ok k) as -> by (unfold locate; by rewrite Hk).
  cbn [mbind result_bind].
  destruct (mapM (locate cols) labels); simpl; [done|].
  apply IH. intros c' Hc'. apply Hsub. by right.
Qed.

Lemma loc_setitem_all cols (idx : list Z) (value : list (list (cell geometry))) :
  NoDup cols → length value = length idx →
  Forall (λ t, length t = length cols) value →
  loc_setitem lib (shell cols idx) cols value =
  Ok {| columns := cols; geometry_name := "geometry"; rows := zip idx value |}.
Proof.
  intros Hnd Hlen Hall. unfold loc_setitem. cbn [columns shell rows].
  pose proof (locate_all cols cols (λ c Hc, Hc)) as Hloc.
  destruct (mapM (locate cols) cols); [|done]. cbn [mbind result_bind].
  rewrite decide_True by done.
  rewrite decide_True by (by rewrite length_fmap).
  unfold store_rows. cbn [columns shell rows geometry_name].
  do 2 f_equal. clear Hloc.
  revert value Hlen Hall. induction idx as [|i idx IH]; intros [|t value] Hlen Hall;
    try done.
  apply Forall_cons_1 in Hall as [Ht Hall]. cbn [fmap list_fmap zip_with fst snd].
  rewrite assign_row_all by (done || by rewrite length_replicate).
  f_equal. apply IH; [by injection Hlen|done].
Qed.

Lemma store_rows_index (df : GeoDataFrame geometry) labels value :
  length value = length (rows df) →
  index (store_rows df labels value) = index df.
Proof.
  unfold index, store_rows. cbn [rows].
  revert value. induction (rows df) as [|r rs IH]; intros [|t value] Hlen;
    try done.
  cbn [zip_with fmap list_fmap]. f_equal. apply IH. by injection Hlen.
Qed.

(** What a [.loc] assignment that returns has stored: the value row by
    row, or, with a library that broadcasts, the one row of the value in
    every row of the frame. *)
Lemma loc_setitem_Ok (df : GeoDataFrame geometry) labels value out :
  loc_setitem lib df labels value = Ok out →
  Forall (λ t, length t = length labels) value
  ∧ columns out = columns df
  ∧ index out = index df
  ∧ (length value = length (rows df) ∧ out = store_rows df labels value
     ∨ length value ≠ length (rows df) ∧ broadcasts lib = true
       ∧ ∃ t, value = [t]
              ∧ out = store_rows df labels (replicate (length (rows df)) t)).
Proof.
  unfold loc_setitem. destruct (mapM _ labels); [|done]. cbn [mbind result_bind].
  case_decide as Hall; [|done].
  case_decide as Hlen.
  - intros <-%Ok_inj. do 2 (split; [done|]).
    split; [by apply store_rows_index|]. by left.
  - destruct value as [|t [|t' value]]; try done.
    destruct (broadcasts lib) eqn:Hb; [|done].
    intros <-%Ok_inj. do 2 (split; [done|]).
    split; [apply store_rows_index; by rewrite length_replicate|].
    right. repeat split; try done. by exists t.
Qed.

Lemma broadcast_same {X} (xs : list X) : broadcast (length xs) xs = xs.
Proof. by destruct xs as [|x [|x' xs]]. Qed.


(** The same in terms of [broadcast]. *)
Lemma loc_setitem_Ok_broadcast (df : GeoDataFrame geometry) labels value out :
  loc_setitem lib df labels value = Ok out →
  out = store_rows df labels (broadcast (length (rows df)) value)
  ∧ length (broadcast (length (rows df)) value) = length (rows df)
  ∧ Forall (λ t, length t = length labels) (broadcast (length (rows df)) value)
  ∧ (broadcasts lib = false → broadcast (length (rows df)) value = value).
Proof.
  intros (Hall & _ & _ & [[Hlen ->]|(_ & Hb & t & -> & ->)])%loc_setitem_Ok.
  - rewrite <-Hlen, broadcast_same. done.
  - cbn [broadcast]. rewrite length_replicate. repeat split; try done.
    + apply Forall_replicate. by apply Forall_cons_1 in Hall as [Ht _].
    + congruence.
Qed.

Lemma loc_setitem_length (df : GeoDataFrame geometry) labels value out :
  loc_setitem lib df labels value = Ok out →
  length (rows out) = length (rows df).
Proof.
  intros (_ & _ & Hidx & _)%loc_setitem_Ok. unfold index in Hidx.
  by rewrite <-(length_fmap fst (rows out)), Hidx, length_fmap.
Qed.

(** Without the broadcast, and whenever the value has not exactly one row,
    an assignment that returns has got as many rows as the frame. *)
Lemma loc_setitem_Ok_rows (df : GeoDataFrame geometry) labels value out :
  loc_setitem lib df labels value = Ok out →
  broadcasts lib = false ∨ length value ≠ 1%nat →
  length value = length (rows df).
Proof.
  intros Hset Hor.
  apply loc_setitem_Ok in Hset as (_ & _ & _ & [[Hlen _]|(_ & Hb & t & -> & _)]);
    [done|].
  destruct Hor as [Hb'|Hone]; [congruence|done].
Qed.
End ShellFacts.

(** ** The result of a well-formed call *)

Section Pipeline.
Context {geometry : Type} `{EqDecision geometry}.
Variable lib : libraries geometry.
Variables (pnts pgons : GeoDataFrame geometry) (ptid pgid : string).
Variable keep_columns : list string.
Hypothesis Hvalid : valid_call lib pnts pgons ptid pgid keep_columns.

Lemma do_sjoin_result_with_geometry (df1 df2 : GeoDataFrame geometry) op how fillna kc :
  (do_sjoin lib df1 df2 op ptid pgid how fillna
     (with_geometry (geometry_name df1) kc)).2 =
  (do_sjoin lib df1 df2 op ptid pgid how fillna kc).2.
Proof.
  rewrite !do_sjoin_run_cases. case_decide; [|done].
  by rewrite with_geometry_idemp.
Qed.

Lemma cell_le_total : Total (cell_le (geometry := geometry)).
Proof.
  intros a b. unfold cell_le.
  destruct a as [|x|x|x], b as [|y|y|y]; simpl; auto.
  - destruct (String.leb_total x y) as [->| ->]; auto.
  - rewrite !bool_decide_spec. lia.
Qed.

Lemma nd_intersects_valid :
  NoDup (point_ids pnts ptid) →
  ∃ value,
    nd_intersects lib pnts pgons ptid pgid keep_columns =
      ([ptid; pgid; geometry_name pnts],
       Ok {| columns := [ptid; pgid; geometry_name pnts];
             geometry_name := "geometry";
             rows := zip (index pnts) value |})
    ∧ Forall2 (folded lib pnts pgons ptid pgid)
        (merge_sort cell_le (point_ids pnts ptid)) value.
Proof.
  intros Hnd.
  pose proof (labels_distinct _ _ _ _ _ _ Hvalid) as (Hd1 & Hd2 & Hd3).
  rewrite nd_intersects_run by apply Hvalid.
  rewrite do_sjoin_result_with_geometry.
  rewrite (igdf_valid _ _ _ _ _ _ Hvalid), (vc_keep_columns _ _ _ _ _ _ Hvalid).
  cbn [mbind result_bind].
  rewrite (groupby_igdf _ _ _ _ _ _ Hvalid). cbn [mbind result_bind].
  rewrite (unique_keys _ _ _ _ _ Hnd), mapM_fmap.
  destruct (mapM_Ok_intro
    ((λ pg, _row pgid pg.1 pg.2) ∘
       (λ k, (k, {| columns := columns (pair_table lib pnts pgons ptid pgid);
                    geometry_name :=
                      geometry_name (pair_table lib pnts pgons ptid pgid);
                    rows := filter (λ r, row_key r = k)
                              (rows (pair_table lib pnts pgons ptid pgid)) |})))
    (folded lib pnts pgons ptid pgid)
    (merge_sort cell_le (point_ids pnts ptid))) as (value & Hvalue & Hfold).
  { apply Forall_forall. intros k Hk.
    rewrite merge_sort_Permutation in Hk. unfold point_ids in Hk.
    apply list_elem_of_fmap in Hk as (l & -> & Hl).
    exists (fold_point lib pnts pgons ptid pgid l.2). split.
    - cbn [compose fst snd].
      rewrite (group_rows lib pnts pgons ptid pgid l Hnd Hl).
      apply (row_block _ _ _ _ _ _ Hvalid).
    - by exists l. }
  exists value. split; [|done].
  cbn [columns rows geometry_name] in Hvalue |- *. rewrite Hvalue.
  cbn [mbind result_bind]. rewrite loc_setitem_all; [done| | |].
  - rewrite !NoDup_cons, !not_elem_of_cons.
    repeat split; try done; try apply not_elem_of_nil. apply NoDup_nil_2.
  - rewrite <-(Forall2_length _ _ _ Hfold), merge_sort_Permutation.
    unfold point_ids, index. by rewrite !length_fmap.
  - apply Forall_forall. intros t Ht.
    apply list_elem_of_lookup in Ht as [i Hi].
    destruct (Forall2_lookup_r _ _ _ i t Hfold Hi) as (k & _ & l & _ & _ & ->).
    done.
Qed.

Lemma folded_keys ks (value : list (list (cell geometry))) :
  Forall2 (folded lib pnts pgons ptid pgid) ks value →
  at_loc 0 <$> value = ks.
Proof.
  induction 1 as [|k t ks value (l & _ & <- & ->) _ IH]; [done|].
  cbn [fmap list_fmap]. by rewrite IH.
Qed.

(** The table a well-formed call with unique point identifiers returns:
    indexed like the points frame, its identifier column sorted, and one
    folded row for every point. *)
Lemma nd_intersects_valid_out :
  NoDup (point_ids pnts ptid) →
  ∃ out,
    nd_intersects lib pnts pgons ptid pgid keep_columns =
      ([ptid; pgid; geometry_name pnts], Ok out)
    ∧ columns out = [ptid; pgid; geometry_name pnts]
    ∧ index out = index pnts
    ∧ series out ptid = Ok (merge_sort cell_le (point_ids pnts ptid))
    ∧ (∀ l, l ∈ rows pnts →
         ∃ i, (i, fold_point lib pnts pgons ptid pgid l.2) ∈ rows out).
Proof.
  intros Hnd. destruct (nd_intersects_valid Hnd) as (value & Hrun & Hfold).
  assert (length (index pnts) = length value) as Hlen.
  { rewrite <-(Forall2_length _ _ _ Hfold), merge_sort_Permutation.
    unfold point_ids, index. by rewrite !length_fmap. }
  eexists. split; [exact Hrun|]. split; [done|]. split; [|split].
  - unfold index at 1. cbn [rows]. apply fst_zip. lia.
  - unfold series. cbn [columns get_loc rows]. rewrite decide_True by done.
    f_equal. rewrite <-(folded_keys _ _ Hfold).
    rewrite <-(snd_zip (index pnts) value) at 2 by lia.
    by rewrite <-list_fmap_compose.
  - intros l Hl. cbn [rows].
    assert (cell_of pnts ptid l.2 ∈ merge_sort cell_le (point_ids pnts ptid)) as Hk.
    { rewrite merge_sort_Permutation. unfold point_ids.
      by apply (list_elem_of_fmap_2 (λ l, cell_of pnts ptid l.2)). }
    apply list_elem_of_lookup in Hk as [j Hj].
    destruct (Forall2_lookup_l _ _ _ j _ Hfold Hj) as (t & Ht & l' & Hl' & Hkey & ->).
    assert (l' = l) as ->.
    { apply (NoDup_fmap_elem_inj (λ l, cell_of pnts ptid l.2) (rows pnts)); done. }
    destruct (lookup_lt_is_Some_2 (index pnts) j) as [i Hi].
    { rewrite Hlen. by eapply lookup_lt_Some. }
    exists i. apply list_elem_of_lookup. exists j.
    by rewrite lookup_zip_with, Hi, Ht.
Qed.
End Pipeline.

(** ** Stages of a call, and what a successful call went through *)

Section Stages.
Context {geometry : Type} `{EqDecision geometry}.
Variable lib : libraries geometry.
Implicit Types (pnts pgons df : GeoDataFrame geometry) (kc : list string).

Lemma getitem_Ok df key proj :
  getitem df key = Ok proj →
  columns proj = key
  ∧ index proj = index df
  ∧ Forall (λ r, length r.2 = length key) (rows proj).
Proof.
  unfold getitem. destruct (mapM _ key) as [locs|] eqn:Hlocs; [|done].
  cbn [mbind result_bind]. intros [= <-]. cbn [columns rows]. split; [done|].
  apply mapM_Ok_length in Hlocs. split.
  - unfold index. cbn [rows]. rewrite <-list_fmap_compose. by apply list_fmap_ext.
  - apply Forall_fmap, Forall_forall. intros r _. cbn. by rewrite length_fmap.
Qed.

Lemma at_loc_insert k (r : list (cell geometry)) v :
  (k < length r)%nat → at_loc k (<[k:=v]> r) = v.
Proof.
  intros Hk. unfold at_loc. by rewrite nth_lookup, list_lookup_insert_eq.
Qed.

Lemma fill_isna_Ok df pgid fillna df3 :
  fill_isna df pgid fillna = Ok df3 →
  columns df3 = columns df
  ∧ geometry_name df3 = geometry_name df
  ∧ index df3 = index df.
Proof.
  unfold fill_isna. destruct (get_loc pgid (columns df)); [|done].
  case_decide; [|done].
  intros [= <-]. cbn [columns geometry_name]. do 2 (split; [done|]).
  unfold index. cbn [rows]. rewrite <-list_fmap_compose. by apply list_fmap_ext.
Qed.

Lemma fill_isna_series df pgid fillna df3 cells :
  Forall (λ r, length r.2 = length (columns df)) (rows df) →
  fill_isna df pgid fillna = Ok df3 →
  series df pgid = Ok cells →
  series df3 pgid = Ok (fill fillna <$> cells).
Proof.
  intros Hshape. unfold fill_isna, series.
  destruct (get_loc pgid (columns df)) as [k|] eqn:Hk; [|done].
  case_decide; [|done].
  intros [= <-] [= <-]. cbn [columns rows]. rewrite Hk. f_equal.
  rewrite <-!list_fmap_compose. apply Forall_fmap_ext_1.
  eapply Forall_impl; [exact Hshape|]. intros r Hr. cbn [compose snd].
  cbn beta in Hr. unfold fill. destruct (isna (at_loc k r.2)); [|done].
  apply at_loc_insert. rewrite Hr. by eapply get_loc_lt.
Qed.

Lemma do_sjoin_columns (df1 df2 : GeoDataFrame geometry) op ptid pgid how fillna kc igdf :
  (do_sjoin lib df1 df2 op ptid pgid how fillna kc).2 = Ok igdf →
  columns igdf = with_geometry (geometry_name df1) kc.
Proof.
  rewrite do_sjoin_run_cases. case_decide; [|done]. cbn [snd].
  destruct (sjoin _ _ _ _ _) as [joined|]; [|done]. cbn [mbind result_bind].
  destruct (getitem joined _) as [proj|] eqn:Hproj; [|done]. cbn [mbind result_bind].
  intros (-> & _ & _)%fill_isna_Ok. by apply getitem_Ok in Hproj as [-> _].
Qed.

Lemma nd_intersects_stages pnts pgons ptid pgid kc :
  (nd_intersects lib pnts pgons ptid pgid kc).2 =
  (igdf ← (do_sjoin lib pnts pgons "intersects" ptid pgid
             how_left (Str "NaN") kc).2;
   groups ← groupby igdf ptid;
   value ← mapM (λ pg, _row pgid pg.1 pg.2) groups;
   loc_setitem lib (shell (columns igdf) (index pnts))
     (with_geometry (geometry_name pnts) kc) value).
Proof.
  destruct (decide (geometry_name pnts ∈ columns pnts)) as [Hg|Hg].
  - by rewrite nd_intersects_run, do_sjoin_result_with_geometry.
  - by rewrite nd_intersects_no_geometry, do_sjoin_no_geometry.
Qed.

Lemma nd_intersects_Ok_inv pnts pgons ptid pgid kc out :
  (nd_intersects lib pnts pgons ptid pgid kc).2 = Ok out →
  ∃ igdf groups value,
    (do_sjoin lib pnts pgons "intersects" ptid pgid
       how_left (Str "NaN") kc).2 = Ok igdf
    ∧ groupby igdf ptid = Ok groups
    ∧ mapM (λ pg, _row pgid pg.1 pg.2) groups = Ok value
    ∧ loc_setitem lib (shell (columns igdf) (index pnts)) (columns igdf) value = Ok out.
Proof.
  rewrite nd_intersects_stages.
  destruct (do_sjoin _ _ _ _ _ _ _ _ _).2 as [igdf|] eqn:Higdf; [|done].
  cbn [mbind result_bind].
  destruct (groupby igdf ptid) as [groups|] eqn:Hgroups; [|done].
  cbn [mbind result_bind].
  destruct (mapM _ groups) as [value|] eqn:Hvalue; [|done].
  cbn [mbind result_bind].
  intros Hout. exists igdf, groups, value.
  pose proof (do_sjoin_columns _ _ _ _ _ _ _ _ _ Higdf) as Hcols.
  rewrite Hcols in Hout |- *. done.
Qed.

Lemma raises_not_Ok {A} (r : result A) : (∀ a, r ≠ Ok a) → raises r.
Proof. destruct r as [a|e]; [|done]. intros Hr. by destruct (Hr a). Qed.

Lemma length_assign_row (cols labels : list string) (t old : list (cell geometry)) :
  length old = length cols → length (assign_row cols labels t old) = length cols.
Proof. intros Hold. unfold assign_row. rewrite length_zip_with. lia. Qed.
End Stages.

(** ** The two functions over the objects of their caller *)

Section ObjectsFacts.
Context {geometry : Type} `{EqDecision geometry}.
Variable lib : libraries geometry.
Implicit Types (s : Objects.store geometry) (f : GeoDataFrame geometry).

(** A call of [do_sjoin] on the frames at two addresses leaves the list
    as the call on the frames themselves does, appends to the frames of
    the store and returns the address of the table the call on the frames
    returns. *)
Lemma objects_do_sjoin_run s df1 df2 f1 f2 op ptid pgid how fillna :
  Objects.frame_objects s !! df1 = Some f1 →
  Objects.frame_objects s !! df2 = Some f2 →
  ∃ extra,
    (Objects.do_sjoin lib df1 df2 op ptid pgid how fillna s).1
    = {| Objects.list_object :=
           (do_sjoin lib f1 f2 op ptid pgid how fillna (Objects.list_object s)).1;
         Objects.frame_objects := Objects.frame_objects s ++ extra |}
    ∧ match (do_sjoin lib f1 f2 op ptid pgid how fillna (Objects.list_object s)).2 with
      | Ok df3 =>
          extra = [df3]
          ∧ (Objects.do_sjoin lib df1 df2 op ptid pgid how fillna s).2
            = Ok (length (Objects.frame_objects s))
      | Raise e =>
          (Objects.do_sjoin lib df1 df2 op ptid pgid how fillna s).2 = Raise e
      end.
Proof.
  destruct s as [kc frames]. cbn [Objects.list_object Objects.frame_objects].
  intros H1 H2. rewrite do_sjoin_run_cases.
  unfold Objects.do_sjoin, mbind, Objects.S_bind, Objects.load, Objects.lift_S,
    Objects.read_list, mret, Objects.S_ret, Objects.new, Objects.write,
    Objects.extend_list.
  cbn [Objects.list_object Objects.frame_objects]. rewrite H1.
  destruct (decide (geometry_name f1 ∈ columns f1)) as [Hg|Hg]; last first.
  { rewrite (geometry_label_Raise _ Hg). exists []. by rewrite app_nil_r. }
  rewrite (geometry_label_Ok _ Hg). unfold with_geometry.
  destruct (decide (geometry_name f1 ∈ kc)) as [Hin|Hin];
    cbn [fst snd Objects.list_object Objects.frame_objects]; rewrite H2;
    (destruct (sjoin lib f1 f2 how op) as [joined|];
       cbn [mbind result_bind fst snd]; [|exists []; by rewrite app_nil_r]);
    (destruct (getitem joined _) as [proj|];
       cbn [mbind result_bind fst snd Objects.list_object Objects.frame_objects];
       [|exists []; by rewrite app_nil_r]);
    rewrite lookup_app_r, Nat.sub_diag by done; cbn [lookup list_lookup];
    (destruct (fill_isna proj pgid fillna) as [filled|];
       cbn [fst snd Objects.list_object Objects.frame_objects];
       [|by exists [proj]]);
    exists [filled];
    rewrite insert_app_r_alt, Nat.sub_diag by done; done.
Qed.
Lemma bind_load {A} a f (k : GeoDataFrame geometry → Objects.S A) s :
  Objects.frame_objects s !! a = Some f → (Objects.load a ≫= k) s = k f s.
Proof. intros Ha. unfold mbind, Objects.S_bind, Objects.load. by rewrite Ha. Qed.

Lemma bind_lift {A B} (r : result A) (k : A → Objects.S B) s :
  (Objects.lift_S r ≫= k) s
  = match r with Ok x => k x s | Raise e => (s, Raise e) end.
Proof. by destruct r. Qed.

Lemma bind_extend {A} name (k : unit → Objects.S (geometry := geometry) A)
    kc frames :
  ((if decide (name ∈ kc) then mret tt else Objects.extend_list [name]) ≫= k)
    {| Objects.list_object := kc; Objects.frame_objects := frames |}
  = k tt {| Objects.list_object := with_geometry name kc;
            Objects.frame_objects := frames |}.
Proof. unfold with_geometry. by case_decide. Qed.

Lemma objects_nd_intersects_pair s pnts pgons f1 f2 ptid pgid :
  Objects.frame_objects s !! pnts = Some f1 →
  Objects.frame_objects s !! pgons = Some f2 →
  ∃ extra res,
    Objects.nd_intersects lib pnts pgons ptid pgid s
    = ({| Objects.list_object :=
            (nd_intersects lib f1 f2 ptid pgid (Objects.list_object s)).1;
          Objects.frame_objects := Objects.frame_objects s ++ extra |}, res)
    ∧ match (nd_intersects lib f1 f2 ptid pgid (Objects.list_object s)).2 with
      | Ok out =>
          (∃ igdf, extra = [igdf; out])
          ∧ res = Ok (S (length (Objects.frame_objects s)))
      | Raise e => res = Raise e
      end.
Proof.
  destruct s as [kc frames]. cbn [Objects.list_object Objects.frame_objects].
  intros H1 H2. unfold Objects.nd_intersects.
  rewrite (bind_load _ f1) by done. rewrite bind_lift.
  destruct (decide (geometry_name f1 ∈ columns f1)) as [Hg|Hg]; last first.
  { rewrite (geometry_label_Raise _ Hg), nd_intersects_no_geometry by done.
    exists [], (Raise AttributeError). by rewrite app_nil_r. }
  rewrite (geometry_label_Ok _ Hg), nd_intersects_run by done.
  unfold mbind at 1, Objects.S_bind at 1, Objects.read_list at 1.
  cbn [Objects.list_object]. rewrite bind_extend.
  set (s1 := {| Objects.list_object := with_geometry (geometry_name f1) kc;
                Objects.frame_objects := frames |}).
  destruct (objects_do_sjoin_run s1 pnts pgons f1 f2 "intersects" ptid pgid
              how_left (Str "NaN") H1 H2) as (extra & Hst & Hres).
  cbn [Objects.list_object Objects.frame_objects s1] in Hst, Hres.
  unfold mbind at 1, Objects.S_bind at 1.
  destruct (Objects.do_sjoin lib pnts pgons "intersects" ptid pgid how_left
              (Str "NaN") s1) as [s2 r2].
  cbn [fst snd] in Hst, Hres. subst s2.
  rewrite (do_sjoin_run _ _ _ _ _ _ _ _ _ Hg), with_geometry_idemp in Hres |- *.
  cbn [fst snd] in Hres |- *.
  destruct (mbind _ (sjoin lib f1 f2 how_left "intersects")) as [igdf|e];
    [destruct Hres as [-> ->]|subst r2; by exists extra, (Raise e)].
  cbn [mbind result_bind].
  rewrite (bind_load _ igdf); last first.
  { cbn [Objects.frame_objects]. by rewrite lookup_app_r, Nat.sub_diag. }
  unfold mbind at 1, Objects.S_bind at 1, Objects.new at 1.
  cbn [Objects.list_object Objects.frame_objects].
  unfold mbind at 1, Objects.S_bind at 1, Objects.read_list at 1.
  cbn [Objects.list_object]. rewrite bind_lift.
  assert (∀ x y : GeoDataFrame geometry, (frames ++ [x]) ++ [y] = frames ++ [x; y])
    as Happ by (intros x y; by rewrite <-(assoc_L app)).
  assert (∀ x : GeoDataFrame geometry,
            length (frames ++ [x]) = S (length frames)) as Hlen.
  { intros x. rewrite length_app. cbn [length]. lia. }
  destruct (groupby igdf ptid) as [groups|e];
    [|eexists _, (Raise e); by rewrite Happ].
  cbn [mbind result_bind]. rewrite bind_lift.
  destruct (mapM _ groups) as [value|e];
    [|eexists _, (Raise e); by rewrite Happ].
  cbn [mbind result_bind].
  rewrite (bind_load _ (shell (columns igdf) (index f1))); last first.
  { cbn [Objects.frame_objects].
    by rewrite lookup_app_r, Nat.sub_diag by done. }
  rewrite bind_lift.
  destruct (loc_setitem lib _ _ value) as [out|e];
    [|eexists _, (Raise e); by rewrite Happ].
  exists [igdf; out], (Ok (S (length frames))).
  unfold mbind, Objects.S_bind, Objects.write, mret, Objects.S_ret.
  cbn [fst snd Objects.list_object Objects.frame_objects].
  rewrite Hlen. split; [|split; [by exists igdf|done]].
  do 2 f_equal.
  rewrite <-(Hlen igdf), insert_app_r_alt, Nat.sub_diag by done.
  cbn [insert list_insert]. apply Happ.
Qed.

Lemma objects_nd_intersects_run s pnts pgons f1 f2 ptid pgid :
  Objects.frame_objects s !! pnts = Some f1 →
  Objects.frame_objects s !! pgons = Some f2 →
  ∃ extra,
    (Objects.nd_intersects lib pnts pgons ptid pgid s).1
    = {| Objects.list_object :=
           (nd_intersects lib f1 f2 ptid pgid (Objects.list_object s)).1;
         Objects.frame_objects := Objects.frame_objects s ++ extra |}
    ∧ match (nd_intersects lib f1 f2 ptid pgid (Objects.list_object s)).2 with
      | Ok out =>
          (∃ igdf, extra = [igdf; out])
          ∧ (Objects.nd_intersects lib pnts pgons ptid pgid s).2
            = Ok (S (length (Objects.frame_objects s)))
      | Raise e =>
          (Objects.nd_intersects lib pnts pgons ptid pgid s).2 = Raise e
      end.
Proof.
  intros H1 H2.
  destruct (objects_nd_intersects_pair s pnts pgons f1 f2 ptid pgid H1 H2)
    as (extra & res & -> & Hres).
  by exists extra.
Qed.
End ObjectsFacts.

(** * The claims *)

Section Claims.
Context {geometry : Type} `{EqDecision geometry}.
Variable lib : libraries geometry.
Implicit Types (pnts pgons df g : GeoDataFrame geometry) (kc : list string).

(** C1.  A well-formed call on points with unique identifiers returns a table
    with exactly one row per point identifier: as many rows as the points
    frame has distinct identifiers, and an identifier column that is a
    duplicate-free rearrangement of the identifiers of the points. *)
Theorem nd_intersects_one_row_per_point pnts pgons ptid pgid kc :
  valid_call lib pnts pgons ptid pgid kc →
  NoDup (point_ids pnts ptid) →
  ∃ out ids,
    (nd_intersects lib pnts pgons ptid pgid kc).2 = Ok out
    ∧ series out ptid = Ok ids
    ∧ length (rows out) = length (unique (point_ids pnts ptid))
    ∧ NoDup ids
    ∧ ids ≡ₚ point_ids pnts ptid.
Proof.
  intros Hvalid Hnd.
  destruct (nd_intersects_valid_out _ _ _ _ _ _ Hvalid Hnd)
    as (out & Hrun & _ & Hidx & Hser & _).
  exists out, (merge_sort cell_le (point_ids pnts ptid)).
  rewrite Hrun. repeat split; try done.
  - rewrite unique_NoDup by done. unfold index, point_ids in *.
    rewrite <-(length_fmap fst (rows out)), Hidx. by rewrite !length_fmap.
  - by rewrite merge_sort_Permutation.
  - apply merge_sort_Permutation.
Qed.

(** C2, as amended.  The merged polygon-id string of a group is the ["-"]
    join of all the polygon ids of its pair rows, in their order and with
    repeats kept; a group of one row yields that row's id with no separator,
    and this holds for the sentinel like for any other id. *)
Theorem row_merged_id_keeps_repeats pgid (p : cell geometry) g ids geoms :
  series g pgid = Ok (Str <$> ids) →
  geometry_series g = Ok geoms →
  _row pgid p g = Ok (p :: Str (String.concat "-" ids) :: unique geoms)
  ∧ (∀ s, ids = [s] → String.concat "-" ids = s)
  ∧ (ids = ["NaN"] → _row pgid p g = Ok (p :: Str "NaN" :: unique geoms)).
Proof.
  intros Hids Hgeoms. pose proof (row_Ok pgid p g ids geoms Hids Hgeoms) as Hrow.
  split; [done|]. split.
  - by intros s ->.
  - intros ->. exact Hrow.
Qed.

(** C4.  When a group is folded, its polygon ids are strings and the merged
    string is their ["-"] join in the order of the pair rows, top to bottom;
    nothing sorts them. *)
Theorem row_joins_ids_in_pair_row_order pgid (p : cell geometry) g k ids :
  get_loc pgid (columns g) = Some k →
  (λ r, at_loc k r.2) <$> rows g = Str <$> ids →
  is_Ok (geometry_series g) →
  ∃ geoms, _row pgid p g = Ok (p :: Str (String.concat "-" ids) :: geoms).
Proof.
  intros Hk Hcells Hgeo.
  destruct (geometry_series g) as [geoms|] eqn:Hgeoms; [|done].
  exists (unique geoms). apply row_Ok; [|done].
  unfold series. by rewrite Hk, Hcells.
Qed.

(** C5.  The geometry values of a folded row are the distinct geometry
    values of the group, compared by value, in order of first occurrence. *)
Theorem row_geometries_distinct_in_first_occurrence_order
    pgid (p : cell geometry) g ids geoms :
  series g pgid = Ok (Str <$> ids) →
  geometry_series g = Ok geoms →
  ∃ merged distinct,
    _row pgid p g = Ok (p :: merged :: distinct)
    ∧ NoDup distinct
    ∧ (∀ x, x ∈ distinct ↔ x ∈ geoms)
    ∧ distinct = first_occurrences geoms.
Proof.
  intros Hids Hgeoms. exists (Str (String.concat "-" ids)), (unique geoms).
  split; [by apply row_Ok|]. split; [apply NoDup_unique|].
  split; [apply elem_of_unique|apply unique_first_occurrences].
Qed.

(** C6.  In the result of [do_sjoin] every null cell of the polygon-id column
    of the projected join is replaced by [fillna] and the other cells of the
    column are kept; and in the table of a well-formed [nd_intersects] call
    a point without a partner has a row with its identifier, the string
    ["NaN"] as polygon id, and its own geometry as the only geometry. *)
Theorem unmatched_points_get_the_sentinel :
  (∀ (df1 df2 : GeoDataFrame geometry) op ptid pgid how fillna kc df3,
      (do_sjoin lib df1 df2 op ptid pgid how fillna kc).2 = Ok df3 →
      ∃ proj cells,
        (joined ← sjoin lib df1 df2 how op;
         getitem joined (with_geometry (geometry_name df1) kc)) = Ok proj
        ∧ series proj pgid = Ok cells
        ∧ series df3 pgid = Ok ((λ c, if isna c then fillna else c) <$> cells)
        ∧ index df3 = index proj)
  ∧ (∀ pnts pgons ptid pgid kc l,
      valid_call lib pnts pgons ptid pgid kc →
      NoDup (point_ids pnts ptid) →
      l ∈ rows pnts →
      partners lib pnts pgons l.2 = [] →
      ∃ out i,
        (nd_intersects lib pnts pgons ptid pgid kc).2 = Ok out
        ∧ (i, [cell_of pnts ptid l.2; Str "NaN";
               cell_of pnts (geometry_name pnts) l.2]) ∈ rows out).
Proof.
  split.
  - intros df1 df2 op ptid pgid how fillna kc df3.
    rewrite do_sjoin_run_cases. case_decide; [|done]. cbn [snd].
    destruct (sjoin _ _ _ _ _) as [joined|]; [|done]. cbn [mbind result_bind].
    destruct (getitem joined _) as [proj|] eqn:Hproj; [|done].
    cbn [mbind result_bind]. intros Hfill.
    destruct (getitem_Ok _ _ _ Hproj) as (Hcols & _ & Hshape).
    rewrite <-Hcols in Hshape.
    destruct (series proj pgid) as [cells|] eqn:Hcells.
    + exists proj, cells. repeat split; try done.
      * by apply (fill_isna_series _ _ _ _ _ Hshape Hfill).
      * by apply fill_isna_Ok in Hfill as (_ & _ & ?).
    + unfold fill_isna in Hfill. unfold series in Hcells.
      by destruct (get_loc pgid (columns proj)).
  - intros pnts pgons ptid pgid kc l Hvalid Hnd Hl Hnone.
    destruct (nd_intersects_valid_out _ _ _ _ _ _ Hvalid Hnd)
      as (out & Hrun & _ & _ & _ & Hrows).
    destruct (Hrows l Hl) as [i Hi]. exists out, i. rewrite Hrun. split; [done|].
    unfold fold_point, pair_ids in Hi. by rewrite Hnone in Hi.
Qed.

(** C7, as amended.  Neither function writes to a frame of its caller:
    after a call the store holds the frames it held, the two input frames
    among them, each as it was, followed by the tables the call has made.
    The caller's [keep_columns] list is left as it was exactly when it
    already names the geometry column of the left frame or the left frame
    has no active geometry column, in which case the call raises before it
    gets to the list; otherwise the list ends up with that name appended,
    also when the call raises later.  The list and the outcome are those of
    the functions applied to the two frames. *)
Theorem keep_columns_is_extended_in_place
    (s : Objects.store geometry) (df1 df2 : nat) (f1 f2 : GeoDataFrame geometry)
    op ptid pgid how fillna :
  Objects.frame_objects s !! df1 = Some f1 →
  Objects.frame_objects s !! df2 = Some f2 →
  let kc := Objects.list_object s in
  let after :=
    if decide (geometry_name f1 ∈ columns f1)
    then with_geometry (geometry_name f1) kc else kc in
  let joined := Objects.do_sjoin lib df1 df2 op ptid pgid how fillna s in
  let folded := Objects.nd_intersects lib df1 df2 ptid pgid s in
  (∃ made, Objects.frame_objects joined.1 = Objects.frame_objects s ++ made)
  ∧ (∃ made, Objects.frame_objects folded.1 = Objects.frame_objects s ++ made)
  ∧ Objects.frame_objects joined.1 !! df1 = Some f1
  ∧ Objects.frame_objects joined.1 !! df2 = Some f2
  ∧ Objects.frame_objects folded.1 !! df1 = Some f1
  ∧ Objects.frame_objects folded.1 !! df2 = Some f2
  ∧ Objects.list_object joined.1 = after
  ∧ Objects.list_object folded.1 = after
  ∧ (after = kc ↔ geometry_name f1 ∈ kc ∨ geometry_name f1 ∉ columns f1)
  ∧ (geometry_name f1 ∉ columns f1 → raises joined.2 ∧ raises folded.2)
  ∧ (do_sjoin lib f1 f2 op ptid pgid how fillna kc).1 = after
  ∧ (nd_intersects lib f1 f2 ptid pgid kc).1 = after
  ∧ match (do_sjoin lib f1 f2 op ptid pgid how fillna kc).2 with
    | Ok df3 => ∃ a, joined.2 = Ok a
                     ∧ Objects.frame_objects joined.1 !! a = Some df3
    | Raise e => joined.2 = Raise e
    end
  ∧ match (nd_intersects lib f1 f2 ptid pgid kc).2 with
    | Ok out => ∃ a, folded.2 = Ok a
                     ∧ Objects.frame_objects folded.1 !! a = Some out
    | Raise e => folded.2 = Raise e
    end.
Proof.
  intros H1 H2 kc after joined folded.
  destruct (objects_do_sjoin_run lib s df1 df2 f1 f2 op ptid pgid how fillna H1 H2)
    as (made1 & Hst1 & Hres1).
  destruct (objects_nd_intersects_run lib s df1 df2 f1 f2 ptid pgid H1 H2)
    as (made2 & Hst2 & Hres2).
  fold joined in Hst1, Hres1. fold folded in Hst2, Hres2. fold kc in Hst1, Hres1, Hst2, Hres2.
  assert ((do_sjoin lib f1 f2 op ptid pgid how fillna kc).1 = after) as Hkc1.
  { unfold after. rewrite do_sjoin_run_cases. by case_decide. }
  assert ((nd_intersects lib f1 f2 ptid pgid kc).1 = after) as Hkc2.
  { unfold after. case_decide as Hg.
    - by rewrite nd_intersects_run.
    - by rewrite nd_intersects_no_geometry. }
  rewrite Hst1, Hst2. cbn [Objects.list_object Objects.frame_objects].
  split; [by exists made1|]. split; [by exists made2|].
  do 4 (split; [by apply lookup_app_l_Some|]).
  do 2 (split; [done|]). split; [|split; [|do 2 (split; [done|]); split]].
  - unfold after. case_decide as Hg.
    + rewrite with_geometry_fixed. tauto.
    + tauto.
  - intros Hg.
    rewrite do_sjoin_no_geometry in Hres1 by done.
    rewrite nd_intersects_no_geometry in Hres2 by done.
    cbn [snd] in Hres1, Hres2. by rewrite Hres1, Hres2.
  - destruct (do_sjoin lib f1 f2 op ptid pgid how fillna kc).2 as [df3|e]; [|done].
    destruct Hres1 as [-> Hret]. eexists. split; [exact Hret|].
    by rewrite lookup_app_r, Nat.sub_diag.
  - destruct (nd_intersects lib f1 f2 ptid pgid kc).2 as [out|e]; [|done].
    destruct Hres2 as [[igdf ->] Hret]. eexists. split; [exact Hret|].
    rewrite lookup_app_r by lia.
    by replace (S (length (Objects.frame_objects s))
                - length (Objects.frame_objects s))%nat with 1%nat by lia.
Qed.

(** C8.  When two groups fold into rows of different lengths the call
    raises; and a call that returns has stored every folded row whole: each
    row of the table has the length of the folded row it holds, which is the
    number of columns of the table.  The rows of the table hold the folded
    rows in their order; a library that broadcasts stores a single folded
    row in every row of the table, and without the broadcast the rows of
    the table and the folded rows correspond one to one. *)
Theorem nd_intersects_ragged_groups_raise pnts pgons ptid pgid kc igdf groups value :
  (do_sjoin lib pnts pgons "intersects" ptid pgid how_left
     (Str "NaN") kc).2 = Ok igdf →
  groupby igdf ptid = Ok groups →
  mapM (λ pg, _row pgid pg.1 pg.2) groups = Ok value →
  (∀ t1 t2, t1 ∈ value → t2 ∈ value → length t1 ≠ length t2 →
     raises (nd_intersects lib pnts pgons ptid pgid kc).2)
  ∧ (∀ out, (nd_intersects lib pnts pgons ptid pgid kc).2 = Ok out →
       Forall2 (λ r t, length r.2 = length t ∧ length t = length (columns out))
         (rows out) (broadcast (length (rows pnts)) value)
       ∧ (broadcasts lib = false →
          Forall2 (λ r t, length r.2 = length t ∧ length t = length (columns out))
            (rows out) value)).
Proof.
  intros Higdf Hgroups Hvalue.
  rewrite nd_intersects_stages, Higdf. cbn [mbind result_bind].
  rewrite Hgroups. cbn [mbind result_bind]. rewrite Hvalue. cbn [mbind result_bind].
  rewrite <-(do_sjoin_columns _ _ _ _ _ _ _ _ _ _ Higdf).
  assert (∀ stored : list (list (cell geometry)),
            length stored = length (index pnts) →
            Forall (λ t, length t = length (columns igdf)) stored →
            Forall2 (λ r t, length r.2 = length t
                            ∧ length t = length (columns igdf))
              (rows (store_rows (shell (columns igdf) (index pnts))
                       (columns igdf) stored)) stored) as Hstored.
  { unfold store_rows. cbn [columns shell rows].
    induction (index pnts) as [|i idx IH];
      intros [|t stored] Hlen Hall; try done; try (by constructor).
    apply Forall_cons_1 in Hall as [Ht Hall]. cbn [fmap list_fmap zip_with snd].
    constructor; [|apply IH; [by injection Hlen|done]].
    cbn [fst snd]. rewrite length_assign_row by (by rewrite length_replicate).
    done. }
  split.
  - intros t1 t2 Ht1 Ht2 Hne. apply raises_not_Ok. intros out Hout.
    apply loc_setitem_Ok in Hout as (Hall & _).
    rewrite Forall_forall in Hall.
    rewrite (Hall t1 Ht1), (Hall t2 Ht2) in Hne. done.
  - intros out Hout.
    apply loc_setitem_Ok_broadcast in Hout as (-> & Hlen & Hall & Hsame).
    assert (length (rows (shell (geometry := geometry) (columns igdf) (index pnts)))
            = length (rows pnts)) as Hn.
    { cbn [shell rows]. unfold index. by rewrite !length_fmap. }
    rewrite Hn in Hlen, Hall, Hsame |- *.
    assert (length (broadcast (length (rows pnts)) value) = length (index pnts))
      as Hlen'.
    { rewrite Hlen. unfold index. by rewrite length_fmap. }
    split; [by apply Hstored|].
    intros Hb. rewrite (Hsame Hb) in Hlen', Hall |- *. by apply Hstored.
Qed.

(** C10, as amended.  A call that returns carries the index of the points
    frame, and it has folded as many groups as the points frame has rows
    or, with a library that broadcasts a value of one row, exactly one
    group.  Hence a points frame with a repeated identifier makes an
    otherwise well-formed call raise when the library does not broadcast,
    and with any library when the points carry more than one identifier. *)
Theorem nd_intersects_needs_a_group_per_point_row pnts pgons ptid pgid kc :
  (∀ out, (nd_intersects lib pnts pgons ptid pgid kc).2 = Ok out →
     ∃ igdf groups,
       (do_sjoin lib pnts pgons "intersects" ptid pgid how_left
          (Str "NaN") kc).2 = Ok igdf
       ∧ groupby igdf ptid = Ok groups
       ∧ (length groups = length (rows pnts)
          ∨ broadcasts lib = true ∧ length groups = 1%nat)
       ∧ index out = index pnts)
  ∧ (valid_call lib pnts pgons ptid pgid kc →
     ¬ NoDup (point_ids pnts ptid) →
     broadcasts lib = false
     ∨ (1 < length (unique (point_ids pnts ptid)))%nat →
     raises (nd_intersects lib pnts pgons ptid pgid kc).2).
Proof.
  assert (∀ out, (nd_intersects lib pnts pgons ptid pgid kc).2 = Ok out →
     ∃ igdf groups,
       (do_sjoin lib pnts pgons "intersects" ptid pgid how_left
          (Str "NaN") kc).2 = Ok igdf
       ∧ groupby igdf ptid = Ok groups
       ∧ (length groups = length (rows pnts)
          ∨ broadcasts lib = true ∧ length groups = 1%nat)
       ∧ index out = index pnts) as Hok.
  { intros out (igdf & groups & value & Higdf & Hgroups & Hvalue & Hset)%nd_intersects_Ok_inv.
    exists igdf, groups. do 2 (split; [done|]).
    apply mapM_Ok_length in Hvalue.
    apply loc_setitem_Ok in Hset as (_ & _ & Hidx & Hrows). split.
    - destruct Hrows as [[Hlen _]|(_ & Hb & t & -> & _)].
      + left. rewrite <-Hvalue, Hlen. unfold shell, index. cbn [rows].
        by rewrite !length_fmap.
      + right. split; [done|]. by rewrite <-Hvalue.
    - rewrite Hidx. unfold index, shell. cbn [rows].
      rewrite <-list_fmap_compose. apply list_fmap_id. }
  split; [exact Hok|]. intros Hvalid Hdup Hor. apply raises_not_Ok. intros out Hout.
  destruct (Hok out Hout) as (igdf & groups & Higdf & Hgroups & Hlen & _).
  rewrite (igdf_valid _ _ _ _ _ _ Hvalid) in Higdf. injection Higdf as <-.
  rewrite (groupby_igdf _ _ _ _ _ _ Hvalid) in Hgroups. injection Hgroups as <-.
  rewrite length_fmap, merge_sort_Permutation in Hlen.
  set (keys := row_key <$> pair_rows lib pnts pgons ptid pgid) in Hlen.
  assert (length (unique keys) = length (unique (point_ids pnts ptid))) as Hsame.
  { apply Permutation_length, NoDup_Permutation; try apply NoDup_unique.
    intros k. rewrite !elem_of_unique.
    apply (keys_elem lib pnts pgons ptid pgid). }
  destruct Hlen as [Hlen|[Hb Hlen]].
  - pose proof (length_distinct_lt (point_ids pnts ptid) (unique keys)
                  Hdup (NoDup_unique keys)) as Hlt.
    rewrite Hlen in Hlt. unfold point_ids in Hlt at 2. rewrite length_fmap in Hlt.
    apply (Nat.lt_irrefl (length (rows pnts))), Hlt.
    intros k Hk. apply (proj1 (elem_of_unique _ _)) in Hk.
    by apply (keys_elem lib pnts pgons ptid pgid).
  - destruct Hor as [Hb'|Hmany]; [congruence|]. lia.
Qed.
End Claims.

(** * The claims on the demonstration data *)

Module Examples.
Import Demo.

Lemma demo_valid :
  valid_call pandas_2_2 (demo_points PTID) (demo_polygons PGID) PTID PGID KEEP_COLUMNS.
Proof. valid_by_computation. Qed.

Lemma demo_ids_NoDup : NoDup (point_ids (demo_points PTID) PTID).
Proof. by_computation. Qed.

Lemma points_AA_valid :
  valid_call pandas_1_5 points_AA (demo_polygons PGID) PTID PGID KEEP_COLUMNS.
Proof. valid_by_computation. Qed.

(** The run of the demonstration (source lines 219-239): the three tables,
    and the list [KEEP_COLUMNS] as the first call leaves it. *)
Example demo_run :
  demo pandas_2_2 KEEP_COLUMNS
  = ([PTID; PGID; "geometry"],
     Ok ({| columns := [PTID; PGID; "geometry"];
            geometry_name := "geometry";
            rows := [(0, [Str "A"; Str "NaN"; Geom (Point (-4) (-4))]);
                     (1, [Str "B"; Str "NaN"; Geom (Point 0 (-4))]);
                     (2, [Str "C"; Str "y"; Geom (Point 2 (-3))]);
                     (3, [Str "D"; Str "x"; Geom (Point (-2) (-2))]);
                     (4, [Str "E"; Str "y"; Geom (Point 2 (-2))]);
                     (5, [Str "F"; Str "NaN"; Geom (Point 0 0)]);
                     (6, [Str "G"; Str "NaN"; Geom (Point 2 2)])] |},
         {| columns := [PTID; PGID; "geometry"];
            geometry_name := "geometry";
            rows := [(0, [Str "A"; Str "x"; Geom (Point (-4) (-4))]);
                     (1, [Str "B"; Str "x"; Geom (Point 0 (-4))]);
                     (1, [Str "B"; Str "y"; Geom (Point 0 (-4))]);
                     (2, [Str "C"; Str "y"; Geom (Point 2 (-3))]);
                     (3, [Str "D"; Str "x"; Geom (Point (-2) (-2))]);
                     (4, [Str "E"; Str "y"; Geom (Point 2 (-2))]);
                     (5, [Str "F"; Str "x"; Geom (Point 0 0)]);
                     (5, [Str "F"; Str "y"; Geom (Point 0 0)]);
                     (5, [Str "F"; Str "z"; Geom (Point 0 0)]);
                     (6, [Str "G"; Str "NaN"; Geom (Point 2 2)])] |},
         {| columns := [PTID; PGID; "geometry"];
            geometry_name := "geometry";
            rows := [(0, [Str "A"; Str "x"; Geom (Point (-4) (-4))]);
                     (1, [Str "B"; Str "x-y"; Geom (Point 0 (-4))]);
                     (2, [Str "C"; Str "y"; Geom (Point 2 (-3))]);
                     (3, [Str "D"; Str "x"; Geom (Point (-2) (-2))]);
                     (4, [Str "E"; Str "y"; Geom (Point 2 (-2))]);
                     (5, [Str "F"; Str "x-y-z"; Geom (Point 0 0)]);
                     (6, [Str "G"; Str "NaN"; Geom (Point 2 2)])] |})).
Proof. vm_compute. reflexivity. Qed.

(** [group_aa] is the group the pipeline folds for [point_P]. *)
Example group_aa_is_reached :
  ∃ igdf, (do_sjoin pandas_2_2 point_P twin_polygons "intersects" PTID PGID
             how_left (Str "NaN") KEEP_COLUMNS).2 = Ok igdf
          ∧ groupby igdf PTID = Ok [(Str "P", group_aa)].
Proof. eexists. split; vm_compute; reflexivity. Qed.

(** C1 on the demonstration data. *)
Lemma demo_one_row_per_point :
  valid_call pandas_2_2 (demo_points PTID) (demo_polygons PGID) PTID PGID KEEP_COLUMNS
  ∧ NoDup (point_ids (demo_points PTID) PTID)
  ∧ ∃ out ids,
    (nd_intersects pandas_2_2 (demo_points PTID) (demo_polygons PGID)
       PTID PGID KEEP_COLUMNS).2 = Ok out
    ∧ series out PTID = Ok ids
    ∧ length (rows out) = length (unique (point_ids (demo_points PTID) PTID))
    ∧ NoDup ids
    ∧ ids ≡ₚ point_ids (demo_points PTID) PTID.
Proof.
  split; [exact demo_valid|]. split; [exact demo_ids_NoDup|].
  apply (nd_intersects_one_row_per_point pandas_2_2);
    [exact demo_valid|exact demo_ids_NoDup].
Defined.

(** C2: a point paired twice with the polygon id [a] gets the merged id
    [a-a], not [a]. *)
Lemma merged_id_repeats_are_kept :
  series group_aa PGID = Ok [Str "a"; Str "a"]
  ∧ _row PGID (Str "P") group_aa = Ok [Str "P"; Str "a-a"; Geom (Point 0 (-2))]
  ∧ "a-a" ≠ String.concat "-" (unique ["a"; "a"]).
Proof. split; [reflexivity|]. split; [reflexivity|]. vm_compute. discriminate. Qed.

(** C2, as amended, on [group_aa]. *)
Lemma group_aa_merged_id :
  series group_aa PGID = Ok (Str <$> ["a"; "a"])
  ∧ geometry_series group_aa = Ok [Geom (Point 0 (-2)); Geom (Point 0 (-2))]
  ∧ _row PGID (Str "P") group_aa
    = Ok (Str "P" :: Str "a-a" :: unique [Geom (Point 0 (-2)); Geom (Point 0 (-2))])
  ∧ (∀ s, ["a"; "a"] = [s] → String.concat "-" ["a"; "a"] = s)
  ∧ (["a"; "a"] = ["NaN"] →
     _row PGID (Str "P") group_aa
       = Ok (Str "P" :: Str "NaN" :: unique [Geom (Point 0 (-2)); Geom (Point 0 (-2))])).
Proof.
  split; [reflexivity|]. split; [reflexivity|].
  apply (row_merged_id_keeps_repeats PGID (Str "P") group_aa ["a"; "a"]);
    reflexivity.
Defined.

(** C3.  The points come in the order B, A under the index labels 0, 1,
    and so do their identifiers in the pair table.  The call returns a
    table under the same index labels whose rows hold the folded points in
    the order A, B: the groups are iterated in the ascending order of
    their keys and their rows are stored by position, so the row under the
    label of B holds the point A, and the identifier column of the output
    is not in the first-occurrence order of the points. *)
Lemma output_rows_are_not_in_first_occurrence_order :
  rows points_BA = [(0, [Str "B"; Geom (Point (-2) (-2))]);
                    (1, [Str "A"; Geom (Point 2 (-2))])]
  ∧ ∃ igdf keys out ids,
    (do_sjoin pandas_2_2 points_BA (demo_polygons PGID) "intersects" PTID PGID
       how_left (Str "NaN") KEEP_COLUMNS).2 = Ok igdf
    ∧ series igdf PTID = Ok keys
    ∧ first_occurrences keys = [Str "B"; Str "A"]
    ∧ (nd_intersects pandas_2_2 points_BA (demo_polygons PGID)
         PTID PGID KEEP_COLUMNS).2 = Ok out
    ∧ rows out = [(0, [Str "A"; Str "y"; Geom (Point 2 (-2))]);
                  (1, [Str "B"; Str "x"; Geom (Point (-2) (-2))])]
    ∧ series out PTID = Ok ids
    ∧ ids = [Str "A"; Str "B"]
    ∧ ids ≠ first_occurrences keys.
Proof.
  split; [reflexivity|].
  do 4 eexists. split; [vm_compute; reflexivity|].
  split; [vm_compute; reflexivity|]. split; [vm_compute; reflexivity|].
  split; [vm_compute; reflexivity|]. split; [vm_compute; reflexivity|].
  split; [vm_compute; reflexivity|].
  split; [reflexivity|]. vm_compute. discriminate.
Qed.

(** C4: the ids b, a merge into [b-a]. *)
Lemma group_ba_merged_id :
  get_loc PGID (columns group_ba) = Some 1%nat
  ∧ (λ r, at_loc 1 r.2) <$> rows group_ba = Str <$> ["b"; "a"]
  ∧ is_Ok (geometry_series group_ba)
  ∧ ∃ geoms, _row PGID (Str "P") group_ba = Ok (Str "P" :: Str "b-a" :: geoms).
Proof.
  split; [reflexivity|]. split; [reflexivity|]. split; [exact I|].
  apply (row_joins_ids_in_pair_row_order PGID (Str "P") group_ba 1%nat ["b"; "a"]);
    [reflexivity|reflexivity|exact I].
Defined.

(** C5: of the geometries (2,2), (0,0), (2,2) the first two are kept, in
    that order. *)
Lemma group_mixed_geometries :
  series group_mixed PGID = Ok (Str <$> ["x"; "y"; "z"])
  ∧ geometry_series group_mixed
    = Ok [Geom (Point 2 2); Geom (Point 0 0); Geom (Point 2 2)]
  ∧ ∃ merged distinct,
    _row PGID (Str "P") group_mixed = Ok (Str "P" :: merged :: distinct)
    ∧ NoDup distinct
    ∧ (∀ x, x ∈ distinct
            ↔ x ∈ [Geom (Point 2 2); Geom (Point 0 0); Geom (Point 2 2)])
    ∧ distinct = [Geom (Point 2 2); Geom (Point 0 0)].
Proof.
  split; [reflexivity|]. split; [reflexivity|].
  exact (row_geometries_distinct_in_first_occurrence_order PGID (Str "P")
           group_mixed ["x"; "y"; "z"]
           [Geom (Point 2 2); Geom (Point 0 0); Geom (Point 2 2)]
           eq_refl eq_refl).
Defined.

(** C6: the point G of the demonstration lies in no square. *)
Lemma demo_point_G_gets_the_sentinel :
  (6, [Str "G"; Geom (Point 2 2)]) ∈ rows (demo_points PTID)
  ∧ partners pandas_2_2 (demo_points PTID) (demo_polygons PGID)
      [Str "G"; Geom (Point 2 2)] = []
  ∧ ∃ out i,
    (nd_intersects pandas_2_2 (demo_points PTID) (demo_polygons PGID)
       PTID PGID KEEP_COLUMNS).2 = Ok out
    ∧ (i, [Str "G"; Str "NaN"; Geom (Point 2 2)]) ∈ rows out.
Proof.
  assert ((6, [Str "G"; Geom (Point 2 2)]) ∈ rows (demo_points PTID)) as Hin.
  { apply (bool_decide_unpack _). vm_compute. exact I. }
  split; [exact Hin|]. split; [reflexivity|].
  apply (proj2 (unmatched_points_get_the_sentinel pandas_2_2)
           (demo_points PTID) (demo_polygons PGID) PTID PGID KEEP_COLUMNS
           (6, [Str "G"; Geom (Point 2 2)]));
    [exact demo_valid|exact demo_ids_NoDup|exact Hin|reflexivity].
Defined.

(** C7, as amended, on the objects of the demonstration. *)
Lemma demo_store_is_extended :
  Objects.frame_objects demo_store !! 0%nat = Some (demo_points PTID)
  ∧ Objects.frame_objects demo_store !! 1%nat = Some (demo_polygons PGID)
  ∧ let kc := Objects.list_object demo_store in
    let after :=
      if decide (geometry_name (demo_points PTID) ∈ columns (demo_points PTID))
      then with_geometry (geometry_name (demo_points PTID)) kc else kc in
    let joined := Objects.do_sjoin pandas_2_2 0 1 "within" PTID PGID how_left
                    (Str "NaN") demo_store in
    let folded := Objects.nd_intersects pandas_2_2 0 1 PTID PGID demo_store in
    (∃ made, Objects.frame_objects joined.1
             = Objects.frame_objects demo_store ++ made)
    ∧ (∃ made, Objects.frame_objects folded.1
               = Objects.frame_objects demo_store ++ made)
    ∧ Objects.frame_objects joined.1 !! 0%nat = Some (demo_points PTID)
    ∧ Objects.frame_objects joined.1 !! 1%nat = Some (demo_polygons PGID)
    ∧ Objects.frame_objects folded.1 !! 0%nat = Some (demo_points PTID)
    ∧ Objects.frame_objects folded.1 !! 1%nat = Some (demo_polygons PGID)
    ∧ Objects.list_object joined.1 = after
    ∧ Objects.list_object folded.1 = after
    ∧ (after = kc
       ↔ geometry_name (demo_points PTID) ∈ kc
         ∨ geometry_name (demo_points PTID) ∉ columns (demo_points PTID))
    ∧ (geometry_name (demo_points PTID) ∉ columns (demo_points PTID) →
       raises joined.2 ∧ raises folded.2)
    ∧ (do_sjoin pandas_2_2 (demo_points PTID) (demo_polygons PGID) "within"
         PTID PGID how_left (Str "NaN") kc).1 = after
    ∧ (nd_intersects pandas_2_2 (demo_points PTID) (demo_polygons PGID)
         PTID PGID kc).1 = after
    ∧ match (do_sjoin pandas_2_2 (demo_points PTID) (demo_polygons PGID) "within"
               PTID PGID how_left (Str "NaN") kc).2 with
      | Ok df3 => ∃ a, joined.2 = Ok a
                       ∧ Objects.frame_objects joined.1 !! a = Some df3
      | Raise e => joined.2 = Raise e
      end
    ∧ match (nd_intersects pandas_2_2 (demo_points PTID) (demo_polygons PGID)
               PTID PGID kc).2 with
      | Ok out => ∃ a, folded.2 = Ok a
                       ∧ Objects.frame_objects folded.1 !! a = Some out
      | Raise e => folded.2 = Raise e
      end.
Proof.
  split; [reflexivity|]. split; [reflexivity|].
  exact (keep_columns_is_extended_in_place pandas_2_2 demo_store 0 1
           (demo_points PTID) (demo_polygons PGID) "within" PTID PGID how_left
           (Str "NaN") eq_refl eq_refl).
Defined.

(** A frame without an active geometry column: both functions raise on
    reading its name, and the list is as it was. *)
Example calls_without_a_geometry_column :
  do_sjoin pandas_2_2 points_plain (demo_polygons PGID) "intersects" PTID PGID
    how_left (Str "NaN") KEEP_COLUMNS = (KEEP_COLUMNS, Raise AttributeError)
  ∧ nd_intersects pandas_2_2 points_plain (demo_polygons PGID) PTID PGID
      KEEP_COLUMNS = (KEEP_COLUMNS, Raise AttributeError).
Proof. split; reflexivity. Qed.

(** C7: the first call of the demonstration leaves the caller's
    [KEEP_COLUMNS] with a third entry, and so does [nd_intersects]. *)
Lemma keep_columns_is_changed :
  (do_sjoin pandas_2_2 (demo_points PTID) (demo_polygons PGID) "within" PTID PGID
     how_left (Str "NaN") KEEP_COLUMNS).1 = [PTID; PGID; "geometry"]
  ∧ (nd_intersects pandas_2_2 (demo_points PTID) (demo_polygons PGID)
       PTID PGID KEEP_COLUMNS).1 = [PTID; PGID; "geometry"]
  ∧ [PTID; PGID; "geometry"] ≠ KEEP_COLUMNS.
Proof. split; [reflexivity|]. split; [reflexivity|]. discriminate. Qed.

(** C8: the group of A has two geometries and the group of B has one. *)
Lemma points_AAB_raise :
  ∃ igdf groups,
    (do_sjoin pandas_2_2 points_AAB (demo_polygons PGID) "intersects" PTID PGID
       how_left (Str "NaN") KEEP_COLUMNS).2 = Ok igdf
    ∧ groupby igdf PTID = Ok groups
    ∧ mapM (λ pg, _row PGID pg.1 pg.2) groups
      = Ok [[Str "A"; Str "x-y"; Geom (Point (-2) (-2)); Geom (Point 2 (-2))];
            [Str "B"; Str "x-y-z"; Geom (Point 0 0)]]
    ∧ raises (nd_intersects pandas_2_2 points_AAB (demo_polygons PGID)
                PTID PGID KEEP_COLUMNS).2.
Proof.
  do 2 eexists. split; [vm_compute; reflexivity|].
  split; [vm_compute; reflexivity|]. split; [vm_compute; reflexivity|].
  eapply (proj1 (nd_intersects_ragged_groups_raise pandas_2_2 points_AAB
                   (demo_polygons PGID) PTID PGID KEEP_COLUMNS _ _ _
                   eq_refl eq_refl eq_refl)
            [Str "A"; Str "x-y"; Geom (Point (-2) (-2)); Geom (Point 2 (-2))]
            [Str "B"; Str "x-y-z"; Geom (Point 0 0)]).
  - apply (bool_decide_unpack _). vm_compute. exact I.
  - apply (bool_decide_unpack _). vm_compute. exact I.
  - vm_compute. discriminate.
Defined.

(** C10: two rows with the identifier A make one group; a library that
    broadcasts stores its folded row in both rows of the table and the call
    returns. *)
Lemma points_AA_return_two_rows :
  ¬ NoDup (point_ids points_AA PTID)
  ∧ ∃ igdf groups,
    (do_sjoin pandas_2_2 points_AA (demo_polygons PGID) "intersects" PTID PGID
       how_left (Str "NaN") KEEP_COLUMNS).2 = Ok igdf
    ∧ groupby igdf PTID = Ok groups
    ∧ length groups = 1%nat
    ∧ length (rows points_AA) = 2%nat
    ∧ (nd_intersects pandas_2_2 points_AA (demo_polygons PGID)
         PTID PGID KEEP_COLUMNS).2
      = Ok {| columns := [PTID; PGID; "geometry"];
              geometry_name := "geometry";
              rows := [(0, [Str "A"; Str "x-x"; Geom (Point (-2) (-2))]);
                       (1, [Str "A"; Str "x-x"; Geom (Point (-2) (-2))])] |}.
Proof.
  split.
  { intros Hnd. apply NoDup_cons in Hnd as [Hin _]. apply Hin. vm_compute. by left. }
  do 2 eexists. split; [vm_compute; reflexivity|].
  split; [vm_compute; reflexivity|]. split; [reflexivity|].
  split; [reflexivity|]. vm_compute. reflexivity.
Qed.

(** C10, as amended: without the broadcast the same call raises. *)
Lemma points_AA_raise :
  valid_call pandas_1_5 points_AA (demo_polygons PGID) PTID PGID KEEP_COLUMNS
  ∧ ¬ NoDup (point_ids points_AA PTID)
  ∧ (broadcasts pandas_1_5 = false
     ∨ (1 < length (unique (point_ids points_AA PTID)))%nat)
  ∧ raises (nd_intersects pandas_1_5 points_AA (demo_polygons PGID)
            PTID PGID KEEP_COLUMNS).2.
Proof.
  assert (¬ NoDup (point_ids points_AA PTID)) as Hdup.
  { intros Hnd. apply NoDup_cons in Hnd as [Hin _]. apply Hin. vm_compute. by left. }
  split; [exact points_AA_valid|]. split; [exact Hdup|].
  split; [by left|].
  apply (proj2 (nd_intersects_needs_a_group_per_point_row pandas_1_5 points_AA
                  (demo_polygons PGID) PTID PGID KEEP_COLUMNS));
    [exact points_AA_valid|exact Hdup|by left].
Defined.

End Examples.

(** * Further properties of the two functions *)

(** ** Columns of projected and filled tables *)

Section SeriesFacts.
Context {geometry : Type} `{EqDecision geometry}.
Implicit Types (df proj : GeoDataFrame geometry).

Lemma series_Ok_elem df c xs : series df c = Ok xs → c ∈ columns df.
Proof.
  unfold series. destruct (get_loc c (columns df)) as [k|] eqn:Hk; [|done].
  intros _. destruct (decide (c ∈ columns df)) as [|Hc]; [done|].
  apply get_loc_None in Hc. congruence.
Qed.

Lemma series_elem_Ok df c :
  c ∈ columns df → ∃ k, get_loc c (columns df) = Some k
                        ∧ series df c = Ok ((λ r, at_loc k r.2) <$> rows df).
Proof.
  intros (k & Hk)%get_loc_elem. exists k. split; [done|].
  unfold series. by rewrite Hk.
Qed.

Lemma series_raises df c : c ∉ columns df → series df c = Raise (KeyError c).
Proof. intros Hc%get_loc_None. unfold series. by rewrite Hc. Qed.

Lemma at_loc_insert_ne k k' (r : list (cell geometry)) v :
  k ≠ k' → at_loc k' (<[k:=v]> r) = at_loc k' r.
Proof.
  intros Hne. unfold at_loc. by rewrite !nth_lookup, list_lookup_insert_ne.
Qed.

Lemma fill_isna_series_other df pgid fillna df3 c :
  fill_isna df pgid fillna = Ok df3 → c ≠ pgid → series df3 c = series df c.
Proof.
  unfold fill_isna. destruct (get_loc pgid (columns df)) as [k|] eqn:Hk; [|done].
  case_decide; [|done].
  intros [= <-] Hne. unfold series. cbn [columns rows].
  destruct (get_loc c (columns df)) as [k'|] eqn:Hk'; [|done]. f_equal.
  rewrite <-list_fmap_compose. apply list_fmap_ext. intros _ r _. cbn.
  destruct (isna (at_loc k r.2)); [|done].
  apply at_loc_insert_ne. intros ->.
  apply get_loc_Some in Hk, Hk'. congruence.
Qed.

Lemma fill_isna_raises df pgid fillna :
  pgid ∉ columns df → raises (fill_isna df pgid fillna).
Proof. intros Hc%get_loc_None. unfold fill_isna. by rewrite Hc. Qed.

Lemma mapM_locate_Ok cols key locs :
  mapM (locate cols) key = Ok locs →
  Forall2 (λ c k, get_loc c cols = Some k) key locs.
Proof.
  revert locs. induction key as [|c key IH]; intros locs; simpl.
  - intros [= <-]. constructor.
  - destruct (locate cols c) as [k|] eqn:Hk; [|done].
    cbn [mbind result_bind]. destruct (mapM (locate cols) key) as [ks|]; [|done].
    cbn [mbind result_bind mret result_ret]. intros [= <-]. constructor; auto.
    unfold locate in Hk. destruct (get_loc c cols); congruence.
Qed.

(** A projected table holds, under each of its labels, the column the
    source table has under that label. *)
Lemma getitem_series df key proj c :
  getitem df key = Ok proj → c ∈ key → series proj c = series df c.
Proof.
  unfold getitem. destruct (mapM _ key) as [locs|] eqn:Hlocs; [|done].
  cbn [mbind result_bind]. intros [= <-] Hc.
  apply mapM_locate_Ok in Hlocs.
  destruct (get_loc_elem _ _ Hc) as [j Hj].
  pose proof (get_loc_Some _ _ _ Hj) as Hcj.
  destruct (Forall2_lookup_l _ _ _ _ _ Hlocs Hcj) as (k & Hk & Hck).
  unfold series. cbn [columns rows]. rewrite Hj, Hck. f_equal.
  rewrite <-list_fmap_compose. apply list_fmap_ext. intros _ r _. cbn.
  unfold at_loc at 1. rewrite nth_lookup, list_lookup_fmap, Hk. done.
Qed.

Lemma getitem_raises df key c :
  c ∈ key → c ∉ columns df → raises (getitem df key).
Proof.
  intros Hc Hcol. destruct (getitem df key) as [proj|] eqn:Hproj; [|done].
  pose proof (getitem_series _ _ _ _ Hproj Hc) as Hser.
  rewrite (series_raises _ _ Hcol) in Hser.
  destruct (series_elem_Ok proj c) as (k & _ & Hok).
  { apply getitem_Ok in Hproj as (-> & _). done. }
  congruence.
Qed.

Lemma getitem_is_Ok df key :
  (∀ c, c ∈ key → c ∈ columns df) → ∃ proj, getitem df key = Ok proj.
Proof.
  intros Hsub. pose proof (locate_all _ _ Hsub) as Hok.
  unfold getitem. destruct (mapM _ key) as [locs|]; [|done]. eauto.
Qed.
End SeriesFacts.

(** ** The left and the inner join, column by column *)

Section JoinSeries.
Context {geometry : Type} `{EqDecision geometry}.
Variable lib : libraries geometry.
Variable f : geometry → geometry → bool.
Variable op : string.
Variables df1 df2 : GeoDataFrame geometry.
Hypothesis Hready : join_ready lib f op df1 df2.

Local Abbreviation rcols := (drop_label (geometry_name df2) (columns df2)).

(** The pair rows of the join, left row by left row. *)
Local Abbreviation pairs how :=
  (flat_map (λ l : Z * list (cell geometry),
     match partners_by lib f df1 df2 l.2 with
     | [] => match how with
             | how_inner => []
             | _ => [(l.1, l.2 ++ NA :: replicate (length rcols) NA)]
             end
     | ms => (λ r : Z * list (cell geometry),
                (l.1, l.2 ++ Num r.1
                        :: drop_cells (geometry_name df2) (columns df2) r.2)) <$> ms
     end) (rows df1)).

(** A left join is the list of the pair rows; an inner join holds the same
    rows in the order of the library. *)
Lemma sjoin_ready how :
  how ≠ how_right →
  ∃ rws,
    sjoin lib df1 df2 how op =
    Ok {| columns := columns df1 ++ "index_right" :: rcols;
          geometry_name := geometry_name df1;
          rows := rws |}
    ∧ rws ≡ₚ pairs how
    ∧ (how = how_left → rws = pairs how).
Proof.
  intros Hhow. destruct Hready as [Hf _ _ _ _ Hres Hdis Hg1 Hg2].
  unfold sjoin. rewrite decide_False; last first.
  { rewrite Exists_exists. intros (c & Hc & Hbad).
    rewrite Forall_forall in Hres. specialize (Hres c Hc). tauto. }
  rewrite Hf.
  destruct (get_loc_elem _ _ Hg1) as [lk Hlk].
  destruct (get_loc_elem _ _ Hg2) as [rk Hrk].
  rewrite Hlk, Hrk. cbv zeta.
  rewrite (filter_none (λ c, c ∈ drop_label (geometry_name df2) (columns df2)))
    by done.
  rewrite !suffixed_nil.
  assert (∀ l : Z * list (cell geometry),
             take_rows (rows df2)
               (query lib (geom_match f) ((λ r, at_loc rk r.2) <$> rows df2)
                  (at_loc lk l.2))
               = partners_by lib f df1 df2 l.2) as Hp.
  { intros l. unfold partners_by, geometry_column, cell_of. by rewrite Hlk, Hrk. }
  destruct how; [|done|].
  - eexists. split; [reflexivity|].
    assert (∀ x y : list (Z * list (cell geometry)), x = y → x ≡ₚ y ∧ (how_left = how_left → x = y))
      as Hboth by (by intros x y ->).
    apply Hboth. apply flat_map_ext. intros l. by rewrite Hp.
  - eexists. split; [reflexivity|]. split; [|done].
    rewrite listed_perm.
    assert (∀ x y : list (Z * list (cell geometry)), x = y → x ≡ₚ y)
      as Heq by (by intros x y ->).
    apply Heq. apply flat_map_ext. intros l. by rewrite Hp.
Qed.

Lemma sjoin_labels how j :
  how ≠ how_right → sjoin lib df1 df2 how op = Ok j →
  columns j = columns df1 ++ "index_right" :: rcols
  ∧ geometry_name j = geometry_name df1.
Proof.
  intros Hhow. destruct (sjoin_ready how Hhow) as (rws & -> & _).
  by intros <-%Ok_inj.
Qed.

(** What a function of the pair rows takes over the join: up to the order
    of the rows what it takes over the pair rows, and in a left join just
    that. *)
Lemma sjoin_rows {X} (h : Z * list (cell geometry) → X) how j :
  how ≠ how_right → sjoin lib df1 df2 how op = Ok j →
  h <$> rows j ≡ₚ h <$> pairs how
  ∧ (how = how_left → h <$> rows j = h <$> pairs how).
Proof.
  intros Hhow. destruct (sjoin_ready how Hhow) as (rws & -> & Hperm & Heq).
  intros <-%Ok_inj. cbn [rows]. split; [by rewrite Hperm|].
  intros Hleft. by rewrite Heq.
Qed.

Lemma pairs_index how :
  (pairs how).*1
  = flat_map (λ l, replicate (pair_count lib how f df1 df2 l.2) l.1) (rows df1).
Proof.
  rewrite fmap_flat_map.
  apply flat_map_ext. intros l. unfold pair_count.
  destruct (partners_by lib f df1 df2 l.2) as [|r ms].
  - by destruct how.
  - rewrite <-list_fmap_compose. by apply const_fmap.
Qed.

Lemma sjoin_index_perm how j :
  how ≠ how_right → sjoin lib df1 df2 how op = Ok j →
  index j ≡ₚ
  flat_map (λ l, replicate (pair_count lib how f df1 df2 l.2) l.1) (rows df1).
Proof.
  intros Hhow Hj. rewrite <-pairs_index. by apply (sjoin_rows fst how j).
Qed.

Lemma sjoin_index j :
  sjoin lib df1 df2 how_left op = Ok j →
  index j =
  flat_map (λ l, replicate (pair_count lib how_left f df1 df2 l.2) l.1) (rows df1).
Proof.
  intros Hj. rewrite <-pairs_index. by apply (sjoin_rows fst how_left j).
Qed.

Lemma pairs_left_cells how c k :
  get_loc c (columns df1) = Some k →
  (λ r, at_loc k r.2) <$> pairs how
  = flat_map (λ l, replicate (pair_count lib how f df1 df2 l.2) (cell_of df1 c l.2))
      (rows df1).
Proof.
  intros Hk. rewrite fmap_flat_map.
  apply flat_map_ext_elem. intros l Hl.
  assert (length l.2 = length (columns df1)) as Hlen.
  { pose proof (jr_left_shape _ _ _ _ _ Hready) as Hs.
    unfold well_shaped in Hs. rewrite Forall_forall in Hs. by apply Hs. }
  assert (∀ tl, at_loc k (l.2 ++ tl) = cell_of df1 c l.2) as Hat.
  { intros tl. unfold cell_of. rewrite Hk. apply at_loc_app_l.
    rewrite Hlen. by eapply get_loc_lt. }
  unfold pair_count. destruct (partners_by lib f df1 df2 l.2) as [|r ms].
  - destruct how; [| |done]; cbn [fmap list_fmap snd replicate]; by rewrite Hat.
  - rewrite <-list_fmap_compose. apply const_fmap. intros i x _. apply Hat.
Qed.


Lemma sjoin_series_left j c :
  sjoin lib df1 df2 how_left op = Ok j →
  c ∈ columns df1 →
  series j c =
  Ok (flat_map (λ l, replicate (pair_count lib how_left f df1 df2 l.2) (cell_of df1 c l.2))
        (rows df1)).
Proof.
  intros Hj Hc. destruct (get_loc_elem _ _ Hc) as [k Hk].
  unfold series. destruct (sjoin_labels how_left j) as [-> _]; [done|done|].
  rewrite (get_loc_app_l _ _ _ _ Hk). f_equal.
  rewrite <-(pairs_left_cells how_left c k Hk).
  by apply (sjoin_rows (λ r, at_loc k r.2) how_left j).
Qed.

Lemma right_label_loc c k :
  get_loc c rcols = Some k →
  get_loc c (columns df1 ++ "index_right" :: rcols)
  = Some (length (columns df1) + S k)%nat.
Proof.
  intros Hk. pose proof (get_loc_Some _ _ _ Hk) as Hc%list_elem_of_lookup_2.
  destruct Hready as [_ _ _ _ _ Hres Hdis _ _].
  rewrite Forall_forall in Hres, Hdis.
  apply get_loc_app_r.
  - intros Hc1. by apply (Hdis c Hc1).
  - cbn [get_loc]. rewrite decide_False; [by rewrite Hk|].
    intros <-. unfold drop_label in Hc. apply list_elem_of_filter in Hc as [_ Hc].
    destruct (Hres "index_right") as [_ Hbad]; [|done].
    apply elem_of_app. by right.
Qed.

Lemma pairs_right_cells how c k :
  c ∈ rcols → get_loc c rcols = Some k →
  (λ r, at_loc (length (columns df1) + S k) r.2) <$> pairs how
  = flat_map (λ l, right_cells lib how f df1 df2 c l.2) (rows df1).
Proof.
  intros Hc Hk.
  pose proof Hc as Hc'. unfold drop_label in Hc'.
  apply list_elem_of_filter in Hc' as [Hne Hc2].
  destruct (get_loc_elem _ _ Hc2) as [k2 Hk2].
  rewrite fmap_flat_map.
  apply flat_map_ext_elem. intros l Hl.
  assert (length l.2 = length (columns df1)) as Hlen.
  { pose proof (jr_left_shape _ _ _ _ _ Hready) as Hs.
    unfold well_shaped in Hs. rewrite Forall_forall in Hs. by apply Hs. }
  unfold right_cells.
  destruct (partners_by lib f df1 df2 l.2) as [|r0 ms] eqn:Hms.
  - destruct how; [| |done]; cbn [fmap list_fmap snd];
      rewrite <-Hlen, at_loc_app_r;
      change (at_loc (S k) (NA :: ?tl)) with (at_loc k tl);
      by rewrite at_loc_replicate.
  - assert (Forall (λ r, r ∈ rows df2) (r0 :: ms)) as Hin.
    { rewrite <-Hms. apply Forall_forall. intros r Hr.
      by apply take_rows_elem in Hr. }
    clear Hms. rewrite <-list_fmap_compose.
    apply Forall_fmap_ext_1. eapply Forall_impl; [exact Hin|].
    intros r Hr. cbn [compose fst snd].
    rewrite <-Hlen, at_loc_app_r.
    change (at_loc (S k) (?x :: ?tl)) with (at_loc k tl).
    assert (length r.2 = length (columns df2)) as Hrlen.
    { pose proof (jr_right_shape _ _ _ _ _ Hready) as Hs.
      unfold well_shaped in Hs. rewrite Forall_forall in Hs. by apply Hs. }
    destruct (at_loc_drop (geometry_name df2) c (columns df2) r.2 k2
                Hrlen Hne Hk2) as (k' & Hk' & Hat).
    rewrite Hk in Hk'. injection Hk' as <-.
    rewrite Hat. unfold cell_of. by rewrite Hk2.
Qed.

Lemma sjoin_series_right j c :
  sjoin lib df1 df2 how_left op = Ok j →
  c ∈ rcols →
  series j c = Ok (flat_map (λ l, right_cells lib how_left f df1 df2 c l.2) (rows df1)).
Proof.
  intros Hj Hc. destruct (get_loc_elem _ _ Hc) as [k Hk].
  unfold series. destruct (sjoin_labels how_left j) as [-> _]; [done|done|].
  rewrite (right_label_loc _ _ Hk). f_equal.
  rewrite <-(pairs_right_cells how_left c k Hc Hk).
  by apply (sjoin_rows (λ r, at_loc (length (columns df1) + S k) r.2) how_left j).
Qed.

Lemma length_right_cells how c l :
  length (right_cells lib how f df1 df2 c l) = pair_count lib how f df1 df2 l.
Proof.
  unfold right_cells, pair_count.
  destruct (partners_by lib f df1 df2 l); [by destruct how|].
  by rewrite length_fmap.
Qed.
End JoinSeries.

(** * More of [do_sjoin] *)

Section DoSjoin.
Context {geometry : Type} `{EqDecision geometry}.
Variable lib : libraries geometry.
Implicit Types (kc : list string).

(** X1.  [do_sjoin] raises whenever the polygon-id label is not among the
    labels it projects to (the caller's list, with the name of the left
    geometry column appended when it was missing): the column it is to fill
    is then not in the projected table. *)
Theorem do_sjoin_raises_unless_pgid_is_kept
    (df1 df2 : GeoDataFrame geometry) op ptid pgid how fillna kc :
  pgid ∉ with_geometry (geometry_name df1) kc →
  raises (do_sjoin lib df1 df2 op ptid pgid how fillna kc).2.
Proof.
  intros Hpgid. rewrite do_sjoin_run_cases. case_decide; [|done]. cbn [snd].
  destruct (sjoin _ _ _ _ _) as [joined|]; [|done]. cbn [mbind result_bind].
  destruct (getitem joined _) as [proj|] eqn:Hproj; [|done]. cbn [mbind result_bind].
  apply fill_isna_raises. by apply getitem_Ok in Hproj as [-> _].
Qed.

(** X2.  [do_sjoin] changes nothing but null cells of the polygon-id column:
    with distinct kept labels, every other column of the returned table is
    the column of the projected join, the geometry column keeps its name,
    and with a [fillna] that is not itself null no null is left in the
    polygon-id column. *)
Theorem do_sjoin_fills_only_the_polygon_id_column
    (df1 df2 : GeoDataFrame geometry) op ptid pgid how fillna kc df3 :
  NoDup (with_geometry (geometry_name df1) kc) →
  (do_sjoin lib df1 df2 op ptid pgid how fillna kc).2 = Ok df3 →
  ∃ proj,
    (joined ← sjoin lib df1 df2 how op;
     getitem joined (with_geometry (geometry_name df1) kc)) = Ok proj
    ∧ (∀ c, c ≠ pgid → series df3 c = series proj c)
    ∧ geometry_name df3 = geometry_name proj
    ∧ (fillna ≠ NA →
       ∃ cells, series df3 pgid = Ok cells ∧ Forall (λ c, c ≠ NA) cells).
Proof.
  intros _. rewrite do_sjoin_run_cases. case_decide; [|done]. cbn [snd].
  destruct (sjoin _ _ _ _ _) as [joined|]; [|done]. cbn [mbind result_bind].
  destruct (getitem joined _) as [proj|] eqn:Hproj; [|done]. cbn [mbind result_bind].
  intros Hfill. exists proj. split; [done|]. split; [|split].
  - intros c Hc. by eapply fill_isna_series_other.
  - by apply fill_isna_Ok in Hfill as (_ & -> & _).
  - intros Hna.
    apply getitem_Ok in Hproj as (Hcols & _ & Hshape). rewrite <-Hcols in Hshape.
    destruct (series proj pgid) as [cells|] eqn:Hcells.
    + exists (fill fillna <$> cells). split.
      * by apply (fill_isna_series proj pgid fillna df3 cells).
      * apply Forall_fmap, Forall_forall. intros c _. cbn.
        unfold fill. by destruct c.
    + unfold fill_isna in Hfill. unfold series in Hcells.
      by destruct (get_loc pgid (columns proj)).
Qed.

(** X3.  The list a call leaves behind is a fixed point: a second call with
    the same left frame, whatever its other arguments, leaves the list as
    the first call left it and returns what it would have returned on the
    caller's original list.  This is why the three calls of [demo], which
    share one list, behave like calls on separate lists. *)
Theorem calls_after_the_first_leave_the_list_alone
    (df1 df2 df2' : GeoDataFrame geometry) op op' ptid ptid' pgid pgid'
    how how' fillna fillna' kc :
  let first := do_sjoin lib df1 df2 op ptid pgid how fillna kc in
  do_sjoin lib df1 df2' op' ptid' pgid' how' fillna' first.1
    = (first.1,
       (do_sjoin lib df1 df2' op' ptid' pgid' how' fillna' kc).2)
  ∧ nd_intersects lib df1 df2' ptid' pgid' first.1
    = (first.1, (nd_intersects lib df1 df2' ptid' pgid' kc).2)
  ∧ nd_intersects lib df1 df2' ptid' pgid'
      (nd_intersects lib df1 df2 ptid pgid kc).1
    = ((nd_intersects lib df1 df2 ptid pgid kc).1,
       (nd_intersects lib df1 df2' ptid' pgid' kc).2).
Proof.
  cbv zeta. destruct (decide (geometry_name df1 ∈ columns df1)) as [Hg|Hg].
  - rewrite !do_sjoin_run, !nd_intersects_run by done. cbn [fst snd].
    rewrite !do_sjoin_run by done. cbn [fst snd].
    by rewrite !with_geometry_idemp.
  - by rewrite !do_sjoin_no_geometry, !nd_intersects_no_geometry.
Qed.
End DoSjoin.

Section DoSjoinFacts.
Context {geometry : Type} `{EqDecision geometry}.
Variable lib : libraries geometry.
Implicit Types (kc : list string).

Lemma do_sjoin_Ok_inv (df1 df2 : GeoDataFrame geometry) op ptid pgid how fillna kc df3 :
  (do_sjoin lib df1 df2 op ptid pgid how fillna kc).2 = Ok df3 →
  ∃ joined proj,
    sjoin lib df1 df2 how op = Ok joined
    ∧ getitem joined (with_geometry (geometry_name df1) kc) = Ok proj
    ∧ fill_isna proj pgid fillna = Ok df3.
Proof.
  rewrite do_sjoin_run_cases. case_decide; [|done]. cbn [snd].
  destruct (sjoin _ _ _ _ _) as [joined|]; [|done]. cbn [mbind result_bind].
  destruct (getitem joined _) as [proj|] eqn:Hproj; [|done]. cbn [mbind result_bind].
  intros Hfill. by exists joined, proj.
Qed.

Lemma do_sjoin_index (df1 df2 : GeoDataFrame geometry) op ptid pgid how fillna kc df3 joined :
  (do_sjoin lib df1 df2 op ptid pgid how fillna kc).2 = Ok df3 →
  sjoin lib df1 df2 how op = Ok joined →
  index df3 = index joined.
Proof.
  intros (joined' & proj & Hj & Hproj & Hfill)%do_sjoin_Ok_inv Hjoined.
  rewrite Hjoined in Hj. apply Ok_inj in Hj as <-.
  apply fill_isna_Ok in Hfill as (_ & _ & ->).
  by apply getitem_Ok in Hproj as (_ & -> & _).
Qed.

Lemma do_sjoin_series_kept (df1 df2 : GeoDataFrame geometry) op ptid pgid how fillna kc df3 joined c :
  (do_sjoin lib df1 df2 op ptid pgid how fillna kc).2 = Ok df3 →
  sjoin lib df1 df2 how op = Ok joined →
  c ∈ with_geometry (geometry_name df1) kc → c ≠ pgid →
  series df3 c = series joined c.
Proof.
  intros (joined' & proj & Hj & Hproj & Hfill)%do_sjoin_Ok_inv Hjoined Hc Hne.
  rewrite Hjoined in Hj. apply Ok_inj in Hj as <-.
  rewrite (fill_isna_series_other _ _ _ _ _ Hfill Hne).
  by apply (getitem_series joined _ proj c Hproj).
Qed.

Lemma do_sjoin_series_pgid (df1 df2 : GeoDataFrame geometry) op ptid pgid how fillna kc df3 joined :
  (do_sjoin lib df1 df2 op ptid pgid how fillna kc).2 = Ok df3 →
  sjoin lib df1 df2 how op = Ok joined →
  pgid ∈ with_geometry (geometry_name df1) kc
  ∧ ∀ cells, series joined pgid = Ok cells →
             series df3 pgid = Ok (fill fillna <$> cells).
Proof.
  intros (joined' & proj & Hj & Hproj & Hfill)%do_sjoin_Ok_inv Hjoined.
  rewrite Hjoined in Hj. apply Ok_inj in Hj as <-.
  assert (pgid ∈ with_geometry (geometry_name df1) kc) as Hpgid.
  { destruct (decide (pgid ∈ with_geometry (geometry_name df1) kc)) as [|Hno]; [done|].
    pose proof (getitem_Ok _ _ _ Hproj) as [Hcols _]. rewrite <-Hcols in Hno.
    apply (fill_isna_raises proj pgid fillna) in Hno. by rewrite Hfill in Hno. }
  split; [done|]. intros cells Hcells.
  rewrite <-(getitem_series joined _ proj pgid Hproj Hpgid) in Hcells.
  apply (fill_isna_series proj pgid fillna df3 cells); [|done|done].
  apply getitem_Ok in Hproj as (Hcols & _ & Hshape). by rewrite Hcols.
Qed.

Lemma length_flat_map {A B} (g : A → list B) (l : list A) :
  length (flat_map g l) = sum_list_with (λ x, length (g x)) l.
Proof.
  induction l as [|x l IH]; [done|]. cbn [flat_map sum_list_with].
  by rewrite length_app, IH.
Qed.

Lemma elem_of_flat_map {A B} (g : A → list B) (l : list A) y :
  y ∈ flat_map g l ↔ ∃ x, x ∈ l ∧ y ∈ g x.
Proof.
  induction l as [|x l IH]; cbn [flat_map].
  - split; [by intros ?%elem_of_nil|]. by intros (x & ?%elem_of_nil & _).
  - rewrite elem_of_app, IH. split.
    + intros [Hy|(x' & Hx' & Hy)]; [exists x|exists x']; split; try done.
      * apply list_elem_of_here.
      * by apply list_elem_of_further.
    + intros (x' & [->|Hx']%elem_of_cons & Hy); [by left|]. right. by exists x'.
Qed.
End DoSjoinFacts.

(** ** The geometry column of the table [do_sjoin] returns *)

Section JoinGeometry.
Context {geometry : Type} `{EqDecision geometry}.
Variable lib : libraries geometry.
Implicit Types (kc : list string).


End JoinGeometry.

(** ** What [do_sjoin] returns for a left join, for any predicate and any
    list of kept columns *)

Section LeftJoin.
Context {geometry : Type} `{EqDecision geometry}.
Variable lib : libraries geometry.
Implicit Types (kc : list string).

(** X4.  A left join never drops or reorders a row of the left frame: the
    index of the returned table is the index of the left frame with every
    label repeated once per partner of its row (once for a row without a
    partner), so the table has at least as many rows as the left frame. *)
Theorem do_sjoin_left_join_keeps_every_left_row
    f (df1 df2 : GeoDataFrame geometry) op ptid pgid fillna kc df3 :
  join_ready lib f op df1 df2 →
  NoDup (with_geometry (geometry_name df1) kc) →
  (do_sjoin lib df1 df2 op ptid pgid how_left fillna kc).2 = Ok df3 →
  index df3
  = flat_map (λ l, replicate (pair_count lib how_left f df1 df2 l.2) l.1) (rows df1)
  ∧ (length (rows df1) ≤ length (rows df3))%nat
  ∧ ∀ i, i ∈ index df1 → i ∈ index df3.
Proof.
  intros Hready _ Hrun.
  destruct (do_sjoin_Ok_inv _ _ _ _ _ _ _ _ _ _ Hrun) as (joined & _ & Hj & _).
  pose proof (do_sjoin_index _ _ _ _ _ _ _ _ _ _ _ Hrun Hj) as Hidx.
  rewrite (sjoin_index _ _ _ _ _ Hready joined) in Hidx by done.
  assert (∀ l, (1 ≤ pair_count lib how_left f df1 df2 l)%nat) as Hcount.
  { intros l. unfold pair_count. destruct (partners_by lib f df1 df2 l); simpl; lia. }
  split; [done|]. split.
  - rewrite <-(length_fmap fst (rows df3)). fold (index df3). rewrite Hidx.
    rewrite length_flat_map. clear Hidx.
    induction (rows df1) as [|l ls IH]; [done|]. cbn [length sum_list_with].
    rewrite length_replicate. specialize (Hcount l.2). lia.
  - intros i Hi. rewrite Hidx. apply elem_of_flat_map.
    unfold index in Hi. apply list_elem_of_fmap in Hi as (l & -> & Hl).
    exists l. split; [done|]. apply elem_of_replicate. split; [done|].
    specialize (Hcount l.2). lia.
Qed.

(** X5.  In the table of a left join, a kept column that comes from the left
    frame (the geometry column among them) holds, for every left row in
    turn, the cell of that row repeated once per pair row. *)
Theorem do_sjoin_left_join_repeats_the_left_cells
    f (df1 df2 : GeoDataFrame geometry) op ptid pgid fillna kc df3 c :
  join_ready lib f op df1 df2 →
  NoDup (with_geometry (geometry_name df1) kc) →
  (do_sjoin lib df1 df2 op ptid pgid how_left fillna kc).2 = Ok df3 →
  c ∈ with_geometry (geometry_name df1) kc →
  c ∈ columns df1 →
  c ≠ pgid →
  series df3 c
  = Ok (flat_map (λ l, replicate (pair_count lib how_left f df1 df2 l.2)
                         (cell_of df1 c l.2)) (rows df1)).
Proof.
  intros Hready _ Hrun Hc Hc1 Hne.
  destruct (do_sjoin_Ok_inv _ _ _ _ _ _ _ _ _ _ Hrun) as (joined & _ & Hj & _).
  rewrite (do_sjoin_series_kept _ _ _ _ _ _ _ _ _ _ _ _ Hrun Hj Hc Hne).
  by apply (sjoin_series_left _ _ _ _ _ Hready).
Qed.

(** X6.  In the table of a left join, a kept column that comes from the
    right frame holds, for every left row in turn, the cells of its partners
    in the order in which the spatial index of the right frame yields them,
    and one null for a row without a partner; in the polygon-id column the
    nulls are replaced by [fillna]. *)
Theorem do_sjoin_left_join_lists_the_partner_cells
    f (df1 df2 : GeoDataFrame geometry) op ptid pgid fillna kc df3 c :
  join_ready lib f op df1 df2 →
  NoDup (with_geometry (geometry_name df1) kc) →
  (do_sjoin lib df1 df2 op ptid pgid how_left fillna kc).2 = Ok df3 →
  c ∈ with_geometry (geometry_name df1) kc →
  c ∈ drop_label (geometry_name df2) (columns df2) →
  let cells := flat_map (λ l, right_cells lib how_left f df1 df2 c l.2) (rows df1) in
  series df3 c = Ok (if decide (c = pgid) then fill fillna <$> cells else cells).
Proof.
  intros Hready _ Hrun Hc Hc2 cells.
  destruct (do_sjoin_Ok_inv _ _ _ _ _ _ _ _ _ _ Hrun) as (joined & _ & Hj & _).
  pose proof (sjoin_series_right _ _ _ _ _ Hready joined c) as Hser.
  case_decide as Hpgid.
  - subst c. destruct (do_sjoin_series_pgid _ _ _ _ _ _ _ _ _ _ _ Hrun Hj) as [_ Hfill].
    apply Hfill. by apply Hser.
  - rewrite (do_sjoin_series_kept _ _ _ _ _ _ _ _ _ _ _ _ Hrun Hj Hc Hpgid).
    by apply Hser.
Qed.
(** X7.  For frames the join accepts, a left or inner [do_sjoin] returns
    exactly when the polygon-id label is kept and every kept label is a
    label of the join: a label of the left frame, [index_right], or a label
    of the right frame other than its geometry.  The geometry of the right
    frame cannot be kept. *)
Theorem do_sjoin_returns_iff_the_kept_labels_are_joined
    f (df1 df2 : GeoDataFrame geometry) op ptid pgid how fillna kc :
  join_ready lib f op df1 df2 →
  how ≠ how_right →
  NoDup (with_geometry (geometry_name df1) kc) →
  pgid ≠ geometry_name df1 →
  is_Ok (do_sjoin lib df1 df2 op ptid pgid how fillna kc).2
  ↔ pgid ∈ with_geometry (geometry_name df1) kc
    ∧ ∀ c, c ∈ with_geometry (geometry_name df1) kc →
           c ∈ columns df1 ∨ c = "index_right"
           ∨ c ∈ drop_label (geometry_name df2) (columns df2).
Proof.
  intros Hready Hhow Hnd _. split.
  - destruct (do_sjoin _ _ _ _ _ _ _ _ _).2 as [df3|] eqn:Hrun; [|done]. intros _.
    destruct (do_sjoin_Ok_inv _ _ _ _ _ _ _ _ _ _ Hrun) as (joined & proj & Hj & Hproj & _).
    split; [by eapply do_sjoin_series_pgid|].
    intros c Hc.
    destruct (decide (c ∈ columns joined)) as [Hin|Hout].
    + destruct (sjoin_labels _ _ _ _ _ Hready how joined Hhow Hj) as [Hcols _].
      rewrite Hcols in Hin. apply elem_of_app in Hin as [?|Hin]; [by left|].
      apply elem_of_cons in Hin as [?|?]; auto.
    + pose proof (getitem_raises joined _ c Hc Hout) as Hraise.
      by rewrite Hproj in Hraise.
  - intros [Hpgid Hsub].
    rewrite do_sjoin_run by apply Hready. cbn [snd].
    destruct (sjoin_ready _ _ _ _ _ Hready how Hhow) as (rws & -> & _).
    cbn [mbind result_bind].
    match goal with |- context [getitem ?j ?key] =>
      destruct (getitem_is_Ok j key) as [proj Hproj] end.
    { intros c Hc. cbn [columns]. rewrite elem_of_app, elem_of_cons.
      destruct (Hsub c Hc) as [?|[?|?]]; auto. }
    rewrite Hproj. cbn [mbind result_bind].
    apply getitem_Ok in Hproj as [Hcols _].
    unfold fill_isna. rewrite Hcols.
    destruct (get_loc_elem _ _ Hpgid) as [k ->].
    by rewrite decide_True by (by apply count_NoDup).
Qed.

(** X8.  An inner join drops the left rows without a partner and nothing
    else: the index labels of the returned table are the labels of the left
    rows that have a partner, and the table has one row per pair. *)
Theorem do_sjoin_inner_join_drops_the_unmatched_rows
    f (df1 df2 : GeoDataFrame geometry) op ptid pgid fillna kc df3 :
  join_ready lib f op df1 df2 →
  NoDup (with_geometry (geometry_name df1) kc) →
  (do_sjoin lib df1 df2 op ptid pgid how_inner fillna kc).2 = Ok df3 →
  (∀ i, i ∈ index df3
        ↔ ∃ l, l ∈ rows df1 ∧ l.1 = i ∧ partners_by lib f df1 df2 l.2 ≠ [])
  ∧ length (rows df3)
    = sum_list_with (λ l, length (partners_by lib f df1 df2 l.2)) (rows df1).
Proof.
  intros Hready _ Hrun.
  destruct (do_sjoin_Ok_inv _ _ _ _ _ _ _ _ _ _ Hrun) as (joined & _ & Hj & _).
  pose proof (do_sjoin_index _ _ _ _ _ _ _ _ _ _ _ Hrun Hj) as Hidx.
  pose proof (sjoin_index_perm _ _ _ _ _ Hready how_inner joined) as Hperm.
  rewrite <-Hidx in Hperm. specialize (Hperm ltac:(done) Hj).
  clear Hidx. rename Hperm into Hidx.
  assert (∀ l, pair_count lib how_inner f df1 df2 l = length (partners_by lib f df1 df2 l))
    as Hcount.
  { intros l. unfold pair_count. by destruct (partners_by lib f df1 df2 l). }
  split.
  - intros i. rewrite Hidx, elem_of_flat_map. split.
    + intros (l & Hl & [-> Hn]%elem_of_replicate). exists l.
      split; [done|]. split; [done|]. rewrite Hcount in Hn.
      by destruct (partners_by lib f df1 df2 l.2).
    + intros (l & Hl & <- & Hp). exists l. split; [done|].
      apply elem_of_replicate. split; [done|]. rewrite Hcount.
      by destruct (partners_by lib f df1 df2 l.2).
  - rewrite <-(length_fmap fst (rows df3)). fold (index df3). rewrite Hidx.
    rewrite length_flat_map. clear Hidx.
    induction (rows df1) as [|l ls IH]; [done|]. cbn [sum_list_with].
    by rewrite length_replicate, Hcount, IH.
Qed.

(** X9.  A right join drops the geometry column of the left frame, while
    [do_sjoin] always projects to its name: when no label of the right frame
    is that name (and no other label occurs on both sides), a right
    [do_sjoin] raises. *)
Theorem do_sjoin_right_join_loses_the_left_geometry
    (df1 df2 : GeoDataFrame geometry) op ptid pgid fillna kc :
  Forall (λ c, c ∉ columns df2) (drop_label (geometry_name df1) (columns df1)) →
  geometry_name df1 ∉ columns df2 →
  raises (do_sjoin lib df1 df2 op ptid pgid how_right fillna kc).2.
Proof.
  intros Hdis Hg. rewrite do_sjoin_run_cases. case_decide; [|done]. cbn [snd].
  destruct (sjoin _ _ _ _ _) as [joined|] eqn:Hj; [|done]. cbn [mbind result_bind].
  destruct (getitem joined _) as [proj|] eqn:Hproj; [|done]. exfalso.
  assert (geometry_name df1 ∉ columns joined) as Hout.
  { unfold sjoin in Hj. case_decide as Hres; [done|].
    destruct (binary_predicate lib op) as [f|]; [|done].
    destruct (get_loc (geometry_name df1) (columns df1)) as [lk|] eqn:Hlk; [|done].
    destruct (get_loc (geometry_name df2) (columns df2)) as [rk|]; [|done].
    apply Ok_inj in Hj as <-. cbn [columns].
    rewrite (filter_none (λ c, c ∈ columns df2)) by done.
    rewrite !suffixed_nil, elem_of_app, elem_of_cons.
    intros [Hin|[Heq|Hin]]; [| |done].
    - unfold drop_label in Hin. apply list_elem_of_filter in Hin. tauto.
    - apply Hres, Exists_exists. exists (geometry_name df1). split; [|by left].
      apply elem_of_app. left. eapply list_elem_of_lookup_2, get_loc_Some, Hlk. }
  pose proof (getitem_raises joined _ _
                (with_geometry_elem (geometry_name df1) kc) Hout) as Hraise.
  by rewrite Hproj in Hraise.
Qed.

(** X10.  The subtitle [set_card] computes for the table of a left join and
    the size of the left frame never shows [>]: it shows [=] when no left
    row has two or more partners, and [<] otherwise. *)
Theorem set_card_of_a_left_join_never_shows_greater
    f (df1 df2 : GeoDataFrame geometry) op ptid pgid fillna kc df3 :
  join_ready lib f op df1 df2 →
  NoDup (with_geometry (geometry_name df1) kc) →
  (do_sjoin lib df1 df2 op ptid pgid how_left fillna kc).2 = Ok df3 →
  set_card (Z.of_nat (length (rows df1))) df3
  = Ok (if decide (Forall (λ l, (length (partners_by lib f df1 df2 l.2) ≤ 1)%nat)
                     (rows df1))
        then "$\vert P \vert = \vert P^\prime \vert$"
        else "$\vert P \vert < \vert P^\prime \vert$").
Proof.
  intros Hready _ Hrun.
  destruct (do_sjoin_Ok_inv _ _ _ _ _ _ _ _ _ _ Hrun) as (joined & _ & Hj & _).
  pose proof (do_sjoin_index _ _ _ _ _ _ _ _ _ _ _ Hrun Hj) as Hidx.
  rewrite (sjoin_index _ _ _ _ _ Hready joined) in Hidx by done.
  apply (f_equal length) in Hidx. unfold index in Hidx.
  rewrite length_fmap, length_flat_map in Hidx.
  unfold set_card. cbv zeta. rewrite Hidx. clear Hidx Hrun Hj.
  assert (∀ ls : list (Z * list (cell geometry)),
    (length ls ≤ sum_list_with
       (λ l, length (replicate (pair_count lib how_left f df1 df2 l.2) l.1)) ls)%nat
    ∧ (length ls = sum_list_with
         (λ l, length (replicate (pair_count lib how_left f df1 df2 l.2) l.1)) ls
       ↔ Forall (λ l, (length (partners_by lib f df1 df2 l.2) ≤ 1)%nat) ls)) as Hsum.
  { induction ls as [|l ls [IH1 IH2]]; [by split|].
    cbn [length sum_list_with]. rewrite length_replicate, Forall_cons.
    unfold pair_count at 1 3.
    destruct (partners_by lib f df1 df2 l.2) as [|r [|r' ms]]; cbn [length].
    - split; [lia|]. split; [intros; split; [lia|apply IH2; lia]|].
      intros [_ Hall%IH2]. lia.
    - split; [lia|]. split; [intros; split; [lia|apply IH2; lia]|].
      intros [_ Hall%IH2]. lia.
    - split; [lia|]. split; [lia|]. intros [? _]. lia. }
  destruct (Hsum (rows df1)) as [Hle Hiff].
  destruct (decide (Forall _ (rows df1))) as [Hall|Hnot].
  - apply Hiff in Hall. rewrite decide_True by lia. done.
  - rewrite decide_False by (intros Heq; apply Hnot, Hiff; lia).
    rewrite decide_True by (assert (length (rows df1) ≠ sum_list_with
      (λ l, length (replicate (pair_count lib how_left f df1 df2 l.2) l.1)) (rows df1))
      by (intros Heq; by apply Hnot, Hiff); lia).
    done.
Qed.
End LeftJoin.

(** * More of [nd_intersects] *)

Section NdStagesFacts.
Context {geometry : Type} `{EqDecision geometry}.
Variable lib : libraries geometry.
Implicit Types (pnts pgons igdf out : GeoDataFrame geometry) (kc : list string).

(** A call that returns has stored the folded rows whole, one under each
    index label of the points frame. *)
Lemma nd_intersects_Ok_rows pnts pgons ptid pgid kc out :
  NoDup (with_geometry (geometry_name pnts) kc) →
  (nd_intersects lib pnts pgons ptid pgid kc).2 = Ok out →
  ∃ igdf groups value,
    (do_sjoin lib pnts pgons "intersects" ptid pgid
       how_left (Str "NaN") kc).2 = Ok igdf
    ∧ groupby igdf ptid = Ok groups
    ∧ mapM (λ pg, _row pgid pg.1 pg.2) groups = Ok value
    ∧ length (broadcast (length (rows pnts)) value) = length (rows pnts)
    ∧ Forall (λ t, length t = length (with_geometry (geometry_name pnts) kc)) value
    ∧ (broadcasts lib = false ∨ length value ≠ 1%nat →
       length value = length (rows pnts))
    ∧ out = {| columns := with_geometry (geometry_name pnts) kc;
               geometry_name := "geometry";
               rows := zip (index pnts) (broadcast (length (rows pnts)) value) |}.
Proof.
  intros Hnd (igdf & groups & value & Hrun & Hgroups & Hvalue & Hset)%nd_intersects_Ok_inv.
  exists igdf, groups, value. do 3 (split; [done|]).
  rewrite (do_sjoin_columns _ _ _ _ _ _ _ _ _ _ Hrun) in Hset.
  pose proof (loc_setitem_Ok _ _ _ _ _ Hset) as (Hvall & _).
  pose proof (loc_setitem_Ok_broadcast _ _ _ _ _ Hset) as (Hout & Hlen & Hall & Hsame).
  assert (length (rows (shell (geometry := geometry)
                          (with_geometry (geometry_name pnts) kc) (index pnts)))
          = length (rows pnts)) as Hn.
  { cbn [shell rows]. unfold index. by rewrite !length_fmap. }
  rewrite Hn in Hout, Hlen, Hall, Hsame.
  split; [done|]. split; [done|]. split.
  { intros Hor. by rewrite (loc_setitem_Ok_rows _ _ _ _ _ Hset Hor). }
  assert (loc_setitem lib
            (shell (with_geometry (geometry_name pnts) kc) (index pnts))
            (with_geometry (geometry_name pnts) kc)
            (broadcast (length (rows pnts)) value) = Ok out) as Hset'.
  { rewrite Hout. unfold loc_setitem.
    destruct (mapM _ (with_geometry (geometry_name pnts) kc)) eqn:Hlocs;
      [|by unfold loc_setitem in Hset; rewrite Hlocs in Hset].
    cbn [mbind result_bind]. rewrite decide_True by done.
    by rewrite decide_True by (by rewrite Hn). }
  rewrite loc_setitem_all in Hset'; [by apply Ok_inj in Hset'|done| |done].
  rewrite Hlen. unfold index. by rewrite length_fmap.
Qed.

Lemma groupby_Ok igdf label groups :
  groupby igdf label = Ok groups →
  ∃ keys,
    series igdf label = Ok keys
    ∧ Forall (λ c, is_geom c = false) keys
    ∧ groups = (λ key, (key, {| columns := columns igdf;
                                geometry_name := geometry_name igdf;
                                rows := (filter (λ kr, kr.1 = key)
                                           (zip keys (rows igdf))).*2 |}))
                 <$> group_keys keys.
Proof.
  unfold groupby. destruct (series igdf label) as [keys|]; [|done].
  cbn [mbind result_bind]. case_decide as Hgeom; [done|].
  intros <-%Ok_inj. exists keys. split; [done|]. split; [|done].
  apply Forall_forall. intros c Hc. destruct (is_geom c) eqn:Hg; [|done].
  exfalso. apply Hgeom, Exists_exists. exists c. by rewrite Hg.
Qed.

Lemma str_join_Ok sep (xs : list (cell geometry)) s :
  str_join sep xs = Ok s →
  ∃ ss, xs = Str <$> ss ∧ s = String.concat sep ss.
Proof.
  unfold str_join.
  destruct (mapM _ xs) as [ss|] eqn:Hss; [|done]. cbn [mbind result_bind].
  intros <-%Ok_inj. exists ss. split; [|done].
  revert ss Hss. induction xs as [|x xs IH]; intros ss; simpl.
  - by intros <-%Ok_inj.
  - destruct x as [|s'|z|g]; try done. cbn [mbind result_bind].
    destruct (mapM _ xs) as [ss'|]; [|done]. cbn [mbind result_bind mret result_ret].
    intros <-%Ok_inj. cbn [fmap list_fmap]. f_equal. by apply IH.
Qed.

Lemma row_Ok_inv pgid (p : cell geometry) g t :
  _row pgid p g = Ok t →
  ∃ ids geoms,
    series g pgid = Ok (Str <$> ids)
    ∧ geometry_series g = Ok geoms
    ∧ t = p :: Str (String.concat "-" ids) :: unique geoms.
Proof.
  unfold _row. destruct (series g pgid) as [cells|]; [|done]. cbn [mbind result_bind].
  destruct (str_join "-" cells) as [merged|] eqn:Hjoin; [|done]. cbn [mbind result_bind].
  destruct (geometry_series g) as [geoms|]; [|done]. cbn [mbind result_bind].
  intros <-%Ok_inj. apply str_join_Ok in Hjoin as (ids & -> & ->).
  by exists ids, geoms.
Qed.

Lemma mapM_Ok_Forall2 {A B} (h : A → result B) l k :
  mapM h l = Ok k → Forall2 (λ a b, h a = Ok b) l k.
Proof.
  revert k. induction l as [|a l IH]; intros k; simpl.
  - intros <-%Ok_inj. constructor.
  - destruct (h a) as [b|] eqn:Hb; [|done]. cbn [mbind result_bind].
    destruct (mapM h l) as [k'|]; [|done]. cbn [mbind result_bind mret result_ret].
    intros <-%Ok_inj. constructor; auto.
Qed.
End NdStagesFacts.

Section NdStages.
Context {geometry : Type} `{EqDecision geometry}.
Variable lib : libraries geometry.
Implicit Types (pnts pgons igdf out g : GeoDataFrame geometry) (kc : list string).


Lemma str_join_TypeError sep (xs : list (cell geometry)) c :
  c ∈ xs → (∀ s, c ≠ Str s) → str_join sep xs = Raise TypeError.
Proof.
  intros Hc Hns. unfold str_join.
  assert (mapM (λ c, match c with Str s => Ok s | _ => Raise TypeError end) xs
          = Raise TypeError) as ->; [|done].
  induction xs as [|x xs IH]; [by apply elem_of_nil in Hc|].
  apply elem_of_cons in Hc as [<-|Hc]; simpl.
  - destruct c as [|s|z|g0]; try done. by destruct (Hns s).
  - destruct x as [|s|z|g0]; try done. cbn [mbind result_bind].
    by rewrite (IH Hc).
Qed.

(** X11.  [nd_intersects] raises unless both identifier labels are among
    the labels it keeps: the polygon-id column has to be there to be filled
    and joined, the point-id column to be grouped by. *)
Theorem nd_intersects_raises_unless_both_ids_are_kept pnts pgons ptid pgid kc :
  ptid ∉ with_geometry (geometry_name pnts) kc
  ∨ pgid ∉ with_geometry (geometry_name pnts) kc →
  raises (nd_intersects lib pnts pgons ptid pgid kc).2.
Proof.
  intros Hmissing.
  destruct (nd_intersects _ _ _ _ _ _).2 as [out|] eqn:Hout; [|done]. exfalso.
  apply nd_intersects_Ok_inv in Hout as (igdf & groups & _ & Hrun & Hgroups & _).
  destruct (do_sjoin_Ok_inv _ _ _ _ _ _ _ _ _ _ Hrun) as (joined & _ & Hj & _).
  destruct (do_sjoin_series_pgid _ _ _ _ _ _ _ _ _ _ _ Hrun Hj) as [Hpgid _].
  apply groupby_Ok in Hgroups as (keys & Hkeys%series_Ok_elem & _).
  rewrite (do_sjoin_columns _ _ _ _ _ _ _ _ _ _ Hrun) in Hkeys.
  tauto.
Qed.


(** X13.  For the table of any call that returns and the size of the points
    frame, [set_card] computes the subtitle with [=]: the table has exactly
    as many rows as the points frame. *)
Theorem set_card_of_nd_intersects_shows_equal pnts pgons ptid pgid kc out :
  (nd_intersects lib pnts pgons ptid pgid kc).2 = Ok out →
  set_card (Z.of_nat (length (rows pnts))) out
  = Ok "$\vert P \vert = \vert P^\prime \vert$".
Proof.
  intros (igdf & groups & value & _ & _ & _ & Hset)%nd_intersects_Ok_inv.
  apply loc_setitem_Ok in Hset as (_ & _ & Hidx & _).
  apply (f_equal length) in Hidx. unfold index in Hidx. cbn [shell rows] in Hidx.
  rewrite !length_fmap in Hidx.
  unfold set_card. cbv zeta. rewrite Hidx. by rewrite decide_True.
Qed.

(** X14.  Folding a group raises [TypeError] as soon as one of its polygon
    ids is not a string: the ids are joined as they are, without
    conversion. *)
Theorem row_raises_TypeError_on_a_non_string_id pgid (p : cell geometry) g cells c :
  series g pgid = Ok cells →
  c ∈ cells →
  (∀ s, c ≠ Str s) →
  _row pgid p g = Raise TypeError.
Proof.
  intros Hcells Hc Hns. unfold _row. rewrite Hcells. cbn [mbind result_bind].
  by rewrite (str_join_TypeError "-" cells c).
Qed.
End NdStages.

(** ** The groups of a pair table *)

Section SelectFacts.
Context {geometry : Type} `{EqDecision geometry}.
Implicit Types (k : cell geometry) (keys : list (cell geometry)).

Lemma select_fmap {X Y} (h : X → Y) k keys (xs : list X) :
  select k keys (h <$> xs) = h <$> select k keys xs.
Proof.
  unfold select. revert xs. induction keys as [|k' keys IH]; intros [|x xs]; try done.
  cbn [fmap list_fmap zip zip_with]. rewrite !filter_cons. cbn [fst].
  case_decide; cbn [fmap list_fmap snd]; [f_equal|]; apply IH.
Qed.

Lemma select_app {X} k keys1 keys2 (xs1 xs2 : list X) :
  length keys1 = length xs1 →
  select k (keys1 ++ keys2) (xs1 ++ xs2) = select k keys1 xs1 ++ select k keys2 xs2.
Proof.
  intros Hlen. unfold select.
  rewrite zip_with_app by done. by rewrite filter_app, fmap_app.
Qed.

Lemma select_replicate {X} k k' n (xs : list X) :
  length xs = n →
  select k (replicate n k') xs = if decide (k' = k) then xs else [].
Proof.
  intros <-. unfold select. induction xs as [|x xs IH]; [by case_decide|].
  cbn [length replicate zip zip_with]. rewrite filter_cons. cbn [fst].
  case_decide; cbn [fmap list_fmap snd]; [f_equal|]; exact IH.
Qed.

Lemma select_flat_map {A X} (n : A → nat) (key : A → cell geometry)
    (g : A → list X) (ls : list A) k :
  (∀ l, length (g l) = n l) →
  select k (flat_map (λ l, replicate (n l) (key l)) ls) (flat_map g ls)
  = flat_map (λ l, if decide (key l = k) then g l else []) ls.
Proof.
  intros Hlen. induction ls as [|l ls IH]; [done|]. cbn [flat_map].
  rewrite select_app by (by rewrite length_replicate).
  by rewrite select_replicate, IH.
Qed.

Lemma series_group (igdf : GeoDataFrame geometry) name keys k c cells :
  series igdf c = Ok cells →
  series {| columns := columns igdf; geometry_name := name;
            rows := (filter (λ kr, kr.1 = k) (zip keys (rows igdf))).*2 |} c
  = Ok (select k keys cells).
Proof.
  unfold series. cbn [columns rows].
  destruct (get_loc c (columns igdf)) as [j|]; [|done].
  intros <-%Ok_inj. f_equal. symmetry. apply select_fmap.
Qed.

Lemma geometry_series_group (igdf : GeoDataFrame geometry) keys k cells :
  series igdf (geometry_name igdf) = Ok cells →
  geometry_series {| columns := columns igdf; geometry_name := geometry_name igdf;
                     rows := (filter (λ kr, kr.1 = k) (zip keys (rows igdf))).*2 |}
  = Ok (select k keys cells).
Proof.
  unfold series, geometry_series. cbn [columns rows geometry_name].
  destruct (get_loc _ (columns igdf)) as [j|]; [|done].
  intros <-%Ok_inj. f_equal. symmetry. apply select_fmap.
Qed.

Lemma elem_of_group_keys keys k :
  k ∈ group_keys keys ↔ k ∈ keys ∧ k ≠ NA.
Proof.
  unfold group_keys. rewrite merge_sort_Permutation, elem_of_unique.
  rewrite list_elem_of_filter. tauto.
Qed.

Lemma elem_of_replicate_block {A} (key : A → cell geometry) (n : A → nat)
    (ls : list A) l :
  l ∈ ls → (1 ≤ n l)%nat →
  key l ∈ flat_map (λ l, replicate (n l) (key l)) ls.
Proof.
  intros Hl Hn. apply elem_of_flat_map. exists l. split; [done|].
  apply elem_of_replicate. split; [done|lia].
Qed.
End SelectFacts.

Section NdGroupsFacts.
Context {geometry : Type} `{EqDecision geometry}.
Variable lib : libraries geometry.
Variable f : geometry → geometry → bool.
Variables (pnts pgons : GeoDataFrame geometry) (ptid pgid : string).
Variable kc : list string.
Hypothesis Hready : join_ready lib f "intersects" pnts pgons.
Hypothesis Hptid : ptid ∈ columns pnts.
Hypothesis Hpgid : pgid ∈ drop_label (geometry_name pgons) (columns pgons).

Local Abbreviation count := (pair_count lib how_left f pnts pgons).

Lemma right_label_not_left : pgid ∉ columns pnts.
Proof.
  pose proof (jr_disjoint _ _ _ _ _ Hready) as Hdis.
  rewrite Forall_forall in Hdis. intros Hin. by apply (Hdis pgid).
Qed.

Lemma count_ge_1 l : (1 ≤ count l)%nat.
Proof. unfold pair_count. destruct (partners_by lib f pnts pgons l); simpl; lia. Qed.

(** The three columns [nd_intersects] reads from the pair table. *)
Lemma pair_table_series igdf :
  (do_sjoin lib pnts pgons "intersects" ptid pgid how_left
     (Str "NaN") kc).2 = Ok igdf →
  geometry_name igdf = geometry_name pnts
  ∧ series igdf (geometry_name pnts)
    = Ok (flat_map (λ l, replicate (count l.2)
                           (cell_of pnts (geometry_name pnts) l.2)) (rows pnts))
  ∧ series igdf pgid
    = Ok (flat_map (λ l, fill (Str "NaN")
                           <$> right_cells lib how_left f pnts pgons pgid l.2) (rows pnts))
  ∧ (ptid ∈ with_geometry (geometry_name pnts) kc →
     series igdf ptid
     = Ok (flat_map (λ l, replicate (count l.2) (cell_of pnts ptid l.2)) (rows pnts))).
Proof.
  intros Hrun. pose proof right_label_not_left as Hnl.
  pose proof (jr_left_geometry _ _ _ _ _ Hready) as Hg.
  destruct (do_sjoin_Ok_inv _ _ _ _ _ _ _ _ _ _ Hrun)
    as (joined & proj & Hj & Hproj & Hfill).
  destruct (sjoin_labels _ _ _ _ _ Hready how_left joined) as [_ Hname]; [done..|].
  split; [|split; [|split]].
  - apply fill_isna_Ok in Hfill as (_ & -> & _).
    unfold getitem in Hproj. destruct (mapM _ _); [|done].
    by apply Ok_inj in Hproj as <-.
  - rewrite (do_sjoin_series_kept _ _ _ _ _ _ _ _ _ _ _ _ Hrun Hj).
    + by apply (sjoin_series_left _ _ _ _ _ Hready).
    + apply with_geometry_elem.
    + by intros <-.
  - destruct (do_sjoin_series_pgid _ _ _ _ _ _ _ _ _ _ _ Hrun Hj) as [_ Hser].
    rewrite (Hser _ (sjoin_series_right _ _ _ _ _ Hready joined pgid Hj Hpgid)).
    by rewrite fmap_flat_map.
  - intros Hkept. rewrite (do_sjoin_series_kept _ _ _ _ _ _ _ _ _ _ _ _ Hrun Hj).
    + by apply (sjoin_series_left _ _ _ _ _ Hready).
    + done.
    + by intros ->.
Qed.

(** Counting the groups: as many groups as rows only if the identifiers are
    distinct and none is null. *)
Lemma group_count (ids keys : list (cell geometry)) :
  (∀ x, x ∈ keys → x ∈ ids) →
  length (group_keys keys) = length ids →
  NoDup ids ∧ Forall (λ c, c ≠ NA) ids.
Proof.
  intros Hsub. unfold group_keys. rewrite merge_sort_Permutation.
  set (U := unique (filter (λ c, c ≠ NA) keys)). intros Hlen.
  assert (U ⊆+ filter (λ c, c ≠ NA) ids) as Hms.
  { apply NoDup_submseteq; [apply NoDup_unique|]. intros x Hx.
    apply (proj1 (elem_of_unique _ _)) in Hx.
    apply list_elem_of_filter in Hx as [Hna Hx].
    apply list_elem_of_filter. auto. }
  pose proof (submseteq_length _ _ Hms) as Hle.
  pose proof (length_filter (λ c, c ≠ NA) ids) as Hle'.
  assert (Forall (λ c, c ≠ NA) ids) as Hall.
  { apply Forall_forall. intros c Hc Hna.
    pose proof (length_filter_lt (λ c, c ≠ NA) ids c Hc) as Hlt.
    cbn beta in Hlt. specialize (Hlt ltac:(tauto)). lia. }
  split; [|done]. rewrite (filter_all _ _ Hall) in Hms.
  apply submseteq_length_Permutation in Hms; [|lia].
  rewrite <-Hms. apply NoDup_unique.
Qed.
End NdGroupsFacts.

Section NdGroups.
Context {geometry : Type} `{EqDecision geometry}.
Variable lib : libraries geometry.
Implicit Types (pnts pgons igdf out : GeoDataFrame geometry) (kc : list string).

(** X15.  The polygon identifiers have to be strings: when a point with a
    non-null identifier intersects a polygon whose identifier is a number,
    [nd_intersects] raises, on any frames the join accepts and for any list
    of kept columns. *)
Theorem nd_intersects_raises_on_a_numeric_polygon_id
    f pnts pgons ptid pgid kc l r z :
  join_ready lib f "intersects" pnts pgons →
  ptid ∈ columns pnts →
  pgid ∈ drop_label (geometry_name pgons) (columns pgons) →
  l ∈ rows pnts →
  cell_of pnts ptid l.2 ≠ NA →
  r ∈ partners_by lib f pnts pgons l.2 →
  cell_of pgons pgid r.2 = Num z →
  raises (nd_intersects lib pnts pgons ptid pgid kc).2.
Proof.
  intros Hready Hptid Hpgid Hl Hkey Hr Hz.
  destruct (nd_intersects _ _ _ _ _ _).2 as [out|] eqn:Hout; [|done]. exfalso.
  apply nd_intersects_Ok_inv in Hout as (igdf & groups & value & Hrun & Hgroups & Hvalue & _).
  apply groupby_Ok in Hgroups as (keys & Hkeys & _ & ->).
  destruct (pair_table_series _ _ _ _ _ _ _ Hready Hptid Hpgid igdf Hrun)
    as (_ & _ & Hids & Hpt).
  rewrite Hpt in Hkeys; last first.
  { apply series_Ok_elem in Hkeys.
    by rewrite (do_sjoin_columns _ _ _ _ _ _ _ _ _ _ Hrun) in Hkeys. }
  apply Ok_inj in Hkeys as <-.
  set (k0 := cell_of pnts ptid l.2) in *.
  set (keys := flat_map _ (rows pnts)) in *.
  assert (k0 ∈ group_keys keys) as Hk0.
  { apply elem_of_group_keys. split; [|done].
    apply (elem_of_replicate_block (λ l, cell_of pnts ptid l.2)
             (λ l, pair_count lib how_left f pnts pgons l.2)); [done|].
    apply count_ge_1. }
  apply mapM_Ok_Forall2 in Hvalue.
  apply list_elem_of_lookup in Hk0 as [j Hj].
  destruct (Forall2_lookup_l _ _ _ j _ Hvalue
              ltac:(by rewrite list_lookup_fmap, Hj)) as (t & _ & Hrow).
  cbn [fst snd] in Hrow.
  unfold _row in Hrow. rewrite (series_group _ _ _ _ _ _ Hids) in Hrow.
  cbn [mbind result_bind] in Hrow.
  rewrite (str_join_TypeError "-" _ (Num z)) in Hrow; [done| |done].
  unfold keys. rewrite select_flat_map; last first.
  { intros l'. by rewrite length_fmap, length_right_cells. }
  apply elem_of_flat_map. exists l. split; [done|].
  rewrite decide_True by done.
  apply list_elem_of_fmap. exists (Num z). split; [done|].
  unfold right_cells. destruct (partners_by lib f pnts pgons l.2) as [|r0 ms] eqn:Hms.
  - by apply elem_of_nil in Hr.
  - apply list_elem_of_fmap. by exists r.
Qed.
(** X16.  [keep_columns] cannot keep anything else: on frames the join
    accepts, with a non-empty points frame, a call that stores one folded
    row per point returns only if the kept labels are exactly the point-id
    label, the polygon-id label and the name of the points' geometry
    column, in some order, and only if the point identifiers are distinct
    and none of them is null.  Every fourth label makes such a call raise.
    Every call is such a call when the library does not broadcast, and so
    is with any library a call on points that carry two or more
    identifiers. *)
Theorem nd_intersects_returns_only_for_the_three_columns
    f pnts pgons ptid pgid kc out :
  join_ready lib f "intersects" pnts pgons →
  ptid ∈ columns pnts →
  ptid ≠ geometry_name pnts →
  pgid ∈ drop_label (geometry_name pgons) (columns pgons) →
  NoDup (with_geometry (geometry_name pnts) kc) →
  rows pnts ≠ [] →
  broadcasts lib = false
  ∨ length (group_keys (point_ids pnts ptid)) ≠ 1%nat →
  (nd_intersects lib pnts pgons ptid pgid kc).2 = Ok out →
  with_geometry (geometry_name pnts) kc ≡ₚ [ptid; pgid; geometry_name pnts]
  ∧ NoDup (point_ids pnts ptid)
  ∧ Forall (λ c, is_key c) (point_ids pnts ptid).
Proof.
  intros Hready Hptid Hpg Hpgid Hnd Hrows Hone Hout.
  destruct (nd_intersects_Ok_rows _ _ _ _ _ _ _ Hnd Hout)
    as (igdf & groups & value & Hrun & Hgroups & Hvalue & _ & Hall & Hlen & _).
  apply groupby_Ok in Hgroups as (keys & Hkeys & Hnogeom & ->).
  destruct (pair_table_series _ _ _ _ _ _ _ Hready Hptid Hpgid igdf Hrun)
    as (Hname & Hgeoms & _ & Hpt).
  assert (ptid ∈ with_geometry (geometry_name pnts) kc) as Hkept1.
  { apply series_Ok_elem in Hkeys.
    by rewrite (do_sjoin_columns _ _ _ _ _ _ _ _ _ _ Hrun) in Hkeys. }
  assert (pgid ∈ with_geometry (geometry_name pnts) kc) as Hkept2.
  { destruct (do_sjoin_Ok_inv _ _ _ _ _ _ _ _ _ _ Hrun) as (joined & _ & Hj & _).
    by destruct (do_sjoin_series_pgid _ _ _ _ _ _ _ _ _ _ _ Hrun Hj). }
  rewrite (Hpt Hkept1) in Hkeys. apply Ok_inj in Hkeys as <-.
  set (keys := flat_map _ (rows pnts)) in *.
  pose (key := λ l : Z * list (cell geometry), cell_of pnts ptid l.2).
  pose (n := λ l : Z * list (cell geometry), pair_count lib how_left f pnts pgons l.2).
  assert (∀ l, (1 ≤ n l)%nat) as Hn by (intros l; apply count_ge_1).
  assert (∀ x, x ∈ keys ↔ x ∈ point_ids pnts ptid) as Hmem.
  { intros x. unfold keys, point_ids. rewrite elem_of_flat_map, list_elem_of_fmap.
    split.
    - intros (l & Hl & [-> _]%elem_of_replicate). by exists l.
    - intros (l & -> & Hl). exists l. split; [done|].
      apply elem_of_replicate. split; [done|]. specialize (Hn l). unfold n in Hn. lia. }
  assert (length (group_keys keys) = length (group_keys (point_ids pnts ptid)))
    as Hsame.
  { unfold group_keys. rewrite !merge_sort_Permutation.
    apply Permutation_length, NoDup_Permutation; try apply NoDup_unique.
    intros x. rewrite !elem_of_unique, !list_elem_of_filter, Hmem. done. }
  destruct (group_count (point_ids pnts ptid) keys) as [Hids Hnonnull].
  { intros x. apply Hmem. }
  { apply mapM_Ok_length in Hvalue. rewrite length_fmap in Hvalue.
    unfold point_ids. rewrite length_fmap. rewrite <-Hvalue, Hlen; [done|].
    destruct Hone as [Hb|Hone]; [by left|right]. by rewrite Hvalue, Hsame. }
  assert (Forall (λ c, is_key c) (point_ids pnts ptid)) as Hiskey.
  { rewrite Forall_forall in Hnonnull, Hnogeom. apply Forall_forall. intros c Hc.
    specialize (Hnonnull c Hc). specialize (Hnogeom c (proj2 (Hmem c) Hc)).
    by destruct c. }
  split; [|done].
  assert (∃ l0, l0 ∈ rows pnts) as [l0 Hl0].
  { clear -Hrows. destruct (rows pnts) as [|l0 ls]; [done|].
    exists l0. apply list_elem_of_here. }
  assert (key l0 ∈ group_keys keys) as Hk0.
  { apply elem_of_group_keys. split.
    - apply Hmem. unfold point_ids. by apply (list_elem_of_fmap_2 key).
    - rewrite Forall_forall in Hnonnull. apply Hnonnull.
      unfold point_ids. by apply (list_elem_of_fmap_2 key). }
  apply mapM_Ok_Forall2 in Hvalue.
  apply list_elem_of_lookup in Hk0 as [j Hj].
  destruct (Forall2_lookup_l _ _ _ j _ Hvalue
              ltac:(by rewrite list_lookup_fmap, Hj)) as (t & Ht & Hrow).
  cbn [fst snd] in Hrow.
  apply row_Ok_inv in Hrow as (ids & geoms & _ & Hgs & ->).
  rewrite <-Hname in Hgeoms.
  rewrite (geometry_series_group _ _ _ _ Hgeoms) in Hgs. apply Ok_inj in Hgs as <-.
  unfold keys in Hall, Ht.
  rewrite select_flat_map in Ht by (intros l; by rewrite length_replicate).
  rewrite (flat_map_select key _ (rows pnts) l0) in Ht by done.
  rewrite (unique_const _ (cell_of pnts (geometry_name igdf) l0.2)) in Ht; last first.
  { apply Forall_forall. by intros c [-> _]%elem_of_replicate. }
  { specialize (Hn l0). unfold n in Hn.
    destruct (pair_count lib how_left f pnts pgons l0.2); [lia|done]. }
  rewrite Forall_forall in Hall.
  specialize (Hall _ (list_elem_of_lookup_2 _ _ _ Ht)). cbn [length] in Hall.
  symmetry. apply submseteq_length_Permutation; [|cbn [length]; lia].
  apply NoDup_submseteq.
  - pose proof (right_label_not_left _ _ _ _ _ Hready Hpgid) as Hnl.
    pose proof (jr_left_geometry _ _ _ _ _ Hready) as Hg.
    rewrite !NoDup_cons, !not_elem_of_cons.
    repeat split; try apply not_elem_of_nil; try apply NoDup_nil_2; try done.
    + by intros ->.
    + by intros ->.
  - intros c [->|[->|[->|[]%elem_of_nil]%elem_of_cons]%elem_of_cons]%elem_of_cons;
      [done|done|apply with_geometry_elem].
Qed.
End NdGroups.

(** ** The order of the group keys *)

Section OrderFacts.
Context {geometry : Type} `{EqDecision geometry}.

Lemma string_leb_trans s1 s2 s3 :
  String.leb s1 s2 = true → String.leb s2 s3 = true → String.leb s1 s3 = true.
Proof.
  unfold String.leb. revert s2 s3.
  induction s1 as [|a1 s1 IH]; intros [|a2 s2] [|a3 s3]; simpl; try done.
  unfold Ascii.compare.
  destruct (N.compare_spec (Ascii.N_of_ascii a1) (Ascii.N_of_ascii a2)) as [H12|H12|H12];
    destruct (N.compare_spec (Ascii.N_of_ascii a2) (Ascii.N_of_ascii a3)) as [H23|H23|H23];
    destruct (N.compare_spec (Ascii.N_of_ascii a1) (Ascii.N_of_ascii a3)) as [H13|H13|H13];
    try done; try lia.
  apply IH.
Qed.

Lemma cell_le_trans : Transitive (cell_le (geometry := geometry)).
Proof.
  intros a b c. unfold cell_le.
  destruct a as [|x|x|x], b as [|y|y|y], c as [|z|z|z]; simpl; try done.
  - intros Hxy Hyz. apply Is_true_true in Hxy, Hyz. apply Is_true_true.
    by eapply string_leb_trans.
  - rewrite !bool_decide_spec. lia.
Qed.

Lemma cell_le_antisym_keys (a b : cell geometry) :
  is_key a → cell_le a b → cell_le b a → a = b.
Proof.
  unfold cell_le. destruct a as [|x|x|x], b as [|y|y|y]; simpl; try done.
  - intros _ Hxy Hyx. apply Is_true_true in Hxy, Hyx. f_equal.
    by apply String.leb_antisym.
  - rewrite !bool_decide_spec. intros _ ? ?. f_equal. lia.
Qed.
End OrderFacts.

(** ** The table of a well-formed call, row by row *)

Section NdValidFacts.
Context {geometry : Type} `{EqDecision geometry}.
Variable lib : libraries geometry.
Variables (pnts pgons : GeoDataFrame geometry) (ptid pgid : string).
Variable kc : list string.
Hypothesis Hvalid : valid_call lib pnts pgons ptid pgid kc.
Hypothesis Hids : NoDup (point_ids pnts ptid).

Local Abbreviation key := (λ l : Z * list (cell geometry), cell_of pnts ptid l.2).
Local Abbreviation fold :=
  (λ l : Z * list (cell geometry), fold_point lib pnts pgons ptid pgid l.2).
Local Abbreviation by_key :=
  (λ a b : Z * list (cell geometry),
     cell_le (cell_of pnts ptid a.2) (cell_of pnts ptid b.2)).

(** With distinct identifiers the folded row of a key is the fold of the
    one point that carries it. *)
Lemma folded_rows_determined (ls : list (Z * list (cell geometry))) value :
  (∀ l, l ∈ ls → l ∈ rows pnts) →
  Forall2 (folded lib pnts pgons ptid pgid) (key <$> ls) value →
  value = fold <$> ls.
Proof.
  revert value. induction ls as [|l ls IH]; intros value Hsub Hfold.
  - by apply Forall2_nil_inv_l in Hfold as ->.
  - cbn [fmap list_fmap] in Hfold.
    apply Forall2_cons_inv_l in Hfold as (t & value' & (l' & Hl' & Hk & ->) & Hfold & ->).
    cbn [fmap list_fmap]. f_equal.
    + f_equal. f_equal.
      apply (NoDup_fmap_elem_inj key (rows pnts)); [done|done| |done].
      apply Hsub, list_elem_of_here.
    + apply IH; [|done]. intros l0 Hl0. by apply Hsub, list_elem_of_further.
Qed.

Lemma by_key_total : Total by_key.
Proof. intros a b. apply cell_le_total. Qed.

Lemma sorted_keys :
  key <$> merge_sort by_key (rows pnts) = merge_sort cell_le (point_ids pnts ptid).
Proof.
  pose proof (cell_le_total (geometry := geometry)) as Htotal.
  pose proof by_key_total as Htotal'.
  pose proof (cell_le_trans (geometry := geometry)) as Htrans.
  apply (Sorted_unique_strong cell_le).
  - intros x1 x2 Hx1 _. apply cell_le_antisym_keys.
    apply list_elem_of_fmap in Hx1 as (l & -> & Hl).
    rewrite merge_sort_Permutation in Hl.
    pose proof (vc_point_ids _ _ _ _ _ _ Hvalid) as Hkeys.
    rewrite Forall_forall in Hkeys. apply Hkeys.
    unfold point_ids. by apply (list_elem_of_fmap_2 key).
  - apply (Sorted_fmap key by_key cell_le); [done|]. by apply Sorted_merge_sort.
  - by apply Sorted_merge_sort.
  - rewrite !merge_sort_Permutation. done.
Qed.

Lemma zip_index_rows {X} (h : Z * list (cell geometry) → X)
    (ls : list (Z * list (cell geometry))) :
  zip ls.*1 (h <$> ls) = (λ l, (l.1, h l)) <$> ls.
Proof. induction ls as [|l ls IH]; [done|]. cbn. by rewrite <-IH. Qed.

Lemma sorted_ids_fixed :
  Sorted cell_le (point_ids pnts ptid) →
  merge_sort cell_le (point_ids pnts ptid) = point_ids pnts ptid.
Proof.
  intros Hsorted.
  pose proof (cell_le_total (geometry := geometry)) as Htotal.
  pose proof (cell_le_trans (geometry := geometry)) as Htrans.
  apply (Sorted_unique_strong cell_le).
  - intros x1 x2 Hx1 _. apply cell_le_antisym_keys.
    pose proof (vc_point_ids _ _ _ _ _ _ Hvalid) as Hkeys.
    rewrite Forall_forall in Hkeys. apply Hkeys.
    by rewrite merge_sort_Permutation in Hx1.
  - by apply Sorted_merge_sort.
  - done.
  - apply merge_sort_Permutation.
Qed.
End NdValidFacts.

Section NdValid.
Context {geometry : Type} `{EqDecision geometry}.
Variable lib : libraries geometry.
Implicit Types (pnts pgons out : GeoDataFrame geometry) (kc : list string).

(** X17.  The table of a well-formed call on points with distinct
    identifiers, in closed form: its columns are the point id, the polygon
    id and the points' geometry, and its [j]-th row carries the [j]-th index
    label of the points frame together with the folded row of the point
    with the [j]-th smallest identifier. *)
Theorem nd_intersects_returns_the_folded_points_in_id_order
    pnts pgons ptid pgid kc :
  valid_call lib pnts pgons ptid pgid kc →
  NoDup (point_ids pnts ptid) →
  ∃ out,
    (nd_intersects lib pnts pgons ptid pgid kc).2 = Ok out
    ∧ columns out = [ptid; pgid; geometry_name pnts]
    ∧ rows out
      = zip (index pnts)
          ((λ l, fold_point lib pnts pgons ptid pgid l.2)
             <$> merge_sort
                   (λ a b, cell_le (cell_of pnts ptid a.2) (cell_of pnts ptid b.2))
                   (rows pnts)).
Proof.
  intros Hvalid Hids.
  destruct (nd_intersects_valid _ _ _ _ _ _ Hvalid Hids) as (value & Hrun & Hfold).
  eexists. split; [by rewrite Hrun|]. split; [done|]. cbn [rows]. f_equal.
  rewrite <-(sorted_keys _ _ _ _ _ _ Hvalid) in Hfold.
  apply (folded_rows_determined _ _ _ _ _ Hids); [|done].
  intros l Hl. by rewrite merge_sort_Permutation in Hl.
Qed.

(** X18.  The rows of the table line up with the rows of the points frame
    exactly when the points frame lists its points in ascending order of
    their identifiers: only then does every index label carry the folded row
    of the point that has this label in the points frame. *)
Theorem nd_intersects_rows_line_up_iff_ids_ascend pnts pgons ptid pgid kc :
  valid_call lib pnts pgons ptid pgid kc →
  NoDup (point_ids pnts ptid) →
  ∃ out,
    (nd_intersects lib pnts pgons ptid pgid kc).2 = Ok out
    ∧ (rows out
       = (λ l, (l.1, fold_point lib pnts pgons ptid pgid l.2))
           <$> rows pnts
       ↔ Sorted cell_le (point_ids pnts ptid)).
Proof.
  intros Hvalid Hids.
  destruct (nd_intersects_valid _ _ _ _ _ _ Hvalid Hids) as (value & Hrun & Hfold).
  eexists. split; [by rewrite Hrun|]. cbn [rows].
  assert (length (index pnts) = length value) as Hlen.
  { rewrite <-(Forall2_length _ _ _ Hfold), merge_sort_Permutation.
    unfold point_ids, index. by rewrite !length_fmap. }
  split.
  - intros Hrows.
    apply (f_equal (fmap (λ r : Z * list (cell geometry), at_loc 0 r.2))) in Hrows.
    rewrite <-list_fmap_compose in Hrows.
    assert ((λ r : Z * list (cell geometry), at_loc 0 r.2) <$> zip (index pnts) value
            = merge_sort cell_le (point_ids pnts ptid)) as Hsorted.
    { rewrite <-(folded_keys _ _ _ _ _ _ _ Hfold).
      transitivity (at_loc 0 <$> (zip (index pnts) value).*2);
        [by rewrite <-list_fmap_compose|by rewrite snd_zip by lia]. }
    rewrite Hsorted in Hrows.
    change (merge_sort cell_le (point_ids pnts ptid) = point_ids pnts ptid) in Hrows.
    pose proof (cell_le_total (geometry := geometry)) as Htotal.
    rewrite <-Hrows. by apply Sorted_merge_sort.
  - intros Hsorted.
    rewrite (sorted_ids_fixed _ _ _ _ _ _ Hvalid Hsorted) in Hfold.
    rewrite (folded_rows_determined lib pnts pgons ptid pgid Hids
               (rows pnts) value); [|done|done].
    apply zip_index_rows.
Qed.

(** X19.  No partner is lost: in the table of a well-formed call the row of
    a point that has partners carries the ["-"] join of the identifiers of
    all its partners, in the order in which the spatial index of the
    polygons yields them, with [NaN] standing for a partner whose
    identifier is missing. *)
Theorem matched_points_get_all_their_partners pnts pgons ptid pgid kc l :
  valid_call lib pnts pgons ptid pgid kc →
  NoDup (point_ids pnts ptid) →
  l ∈ rows pnts →
  partners lib pnts pgons l.2 ≠ [] →
  ∃ out i,
    (nd_intersects lib pnts pgons ptid pgid kc).2 = Ok out
    ∧ (i, [cell_of pnts ptid l.2;
           Str (String.concat "-"
                  ((λ r, id_text (cell_of pgons pgid r.2))
                     <$> partners lib pnts pgons l.2));
           cell_of pnts (geometry_name pnts) l.2]) ∈ rows out.
Proof.
  intros Hvalid Hids Hl Hpartners.
  destruct (nd_intersects_valid_out _ _ _ _ _ _ Hvalid Hids)
    as (out & Hrun & _ & _ & _ & Hrows).
  destruct (Hrows l Hl) as [i Hi]. exists out, i. split; [by rewrite Hrun|].
  unfold fold_point, pair_ids in Hi.
  destruct (partners lib pnts pgons l.2) as [|r ms] eqn:Hms; [done|].
  by rewrite <-list_fmap_compose in Hi.
Qed.
(** X26.  The rows of the table follow the iteration order of the groups,
    which is the ascending order of the point identifiers: in a well-formed
    call on points with distinct identifiers the identifier column of the
    table is the sorted list of the identifiers of the points, whatever
    their order in the points frame. *)
Theorem nd_intersects_rows_in_sorted_id_order pnts pgons ptid pgid kc :
  valid_call lib pnts pgons ptid pgid kc →
  NoDup (point_ids pnts ptid) →
  ∃ out ids,
    (nd_intersects lib pnts pgons ptid pgid kc).2 = Ok out
    ∧ series out ptid = Ok ids
    ∧ ids = merge_sort cell_le (point_ids pnts ptid)
    ∧ Sorted cell_le ids.
Proof.
  intros Hvalid Hnd.
  destruct (nd_intersects_valid_out _ _ _ _ _ _ Hvalid Hnd)
    as (out & Hrun & _ & _ & Hser & _).
  exists out, (merge_sort cell_le (point_ids pnts ptid)).
  rewrite Hrun. repeat split; try done.
  apply Sorted_merge_sort, cell_le_total.
Qed.
End NdValid.

(** ** What a well-formed call reads of the polygons frame *)

Section NdReads.
Context {geometry : Type} `{EqDecision geometry}.
Variable lib : libraries geometry.
Implicit Types (pnts pgons out : GeoDataFrame geometry) (kc : list string).

(** Two polygon rows that agree on the identifier and on the geometry. *)
Local Abbreviation alike pgons pgons' pgid :=
  (λ r r' : Z * list (cell geometry),
     cell_of pgons pgid r.2 = cell_of pgons' pgid r'.2
     ∧ cell_of pgons (geometry_name pgons) r.2
       = cell_of pgons' (geometry_name pgons') r'.2).

Lemma pair_ids_alike pnts pgons pgons' pgid l :
  Forall2 (alike pgons pgons' pgid) (rows pgons) (rows pgons') →
  pair_ids lib pnts pgons pgid l
  = pair_ids lib pnts pgons' pgid l.
Proof.
  intros Hrows. unfold pair_ids.
  assert (Forall2 (alike pgons pgons' pgid)
            (partners lib pnts pgons l)
            (partners lib pnts pgons' l)) as Hms.
  { unfold partners.
    assert (geometry_column pgons = geometry_column pgons') as ->.
    { unfold geometry_column. clear -Hrows.
      induction Hrows as [|r r' rs rs' [_ Hg] _ IH]; [done|].
      cbn [fmap list_fmap]. by rewrite Hg, IH. }
    by apply Forall2_take_rows. }
  destruct Hms as [|r r' ms ms' [Hid _] Hms]; [done|].
  cbn [fmap list_fmap]. f_equal; [done|].
  induction Hms as [|r0 r0' ms ms' [Hid0 _] _ IH]; [done|].
  cbn [fmap list_fmap]. by rewrite Hid0, IH.
Qed.

(** X25.  Of the polygons frame a well-formed call reads the identifier
    column and the geometry column, row by row, and nothing else: two
    polygons frames whose rows agree on these two cells give the same
    result, whatever their index labels, their other columns, the order of
    their columns and the name of their geometry column. *)
Theorem nd_intersects_reads_only_the_ids_and_geometries_of_the_polygons
    pnts pgons pgons' ptid pgid kc :
  valid_call lib pnts pgons ptid pgid kc →
  valid_call lib pnts pgons' ptid pgid kc →
  NoDup (point_ids pnts ptid) →
  Forall2 (λ r r', cell_of pgons pgid r.2 = cell_of pgons' pgid r'.2
                   ∧ cell_of pgons (geometry_name pgons) r.2
                     = cell_of pgons' (geometry_name pgons') r'.2)
    (rows pgons) (rows pgons') →
  nd_intersects lib pnts pgons ptid pgid kc
  = nd_intersects lib pnts pgons' ptid pgid kc.
Proof.
  intros Hvalid Hvalid' Hids Hrows.
  destruct (nd_intersects_valid _ _ _ _ _ _ Hvalid Hids) as (value & -> & Hfold).
  destruct (nd_intersects_valid _ _ _ _ _ _ Hvalid' Hids) as (value' & -> & Hfold').
  do 3 f_equal.
  rewrite <-(sorted_keys _ _ _ _ _ _ Hvalid) in Hfold.
  rewrite <-(sorted_keys _ _ _ _ _ _ Hvalid') in Hfold'.
  apply (folded_rows_determined lib pnts pgons ptid pgid Hids) in Hfold;
    [|by intros l Hl; rewrite merge_sort_Permutation in Hl].
  apply (folded_rows_determined lib pnts pgons' ptid pgid Hids) in Hfold';
    [|by intros l Hl; rewrite merge_sort_Permutation in Hl].
  rewrite Hfold, Hfold'. f_equal. apply list_fmap_ext. intros _ l _.
  unfold fold_point.
  by rewrite (pair_ids_alike pnts pgons pgons' pgid l.2 Hrows).
Qed.
End NdReads.

(** * The texts of [demo_plot_join] *)

Section PlotTexts.
Context {geometry : Type} `{EqDecision geometry}.
Variable lib : libraries geometry.
Implicit Types (pnts pgons out p : GeoDataFrame geometry) (kc : list string).

Lemma lab_of_folded_row (ptid pgid : string) p (c x : cell geometry) m name :
  columns p = [ptid; pgid; name] → ptid ≠ pgid →
  _lab ptid pgid p [c; Str m; x]
  = match c with
    | Str a => Ok (a +:+ "," +:+ m)
    | _ => Raise TypeError
    end.
Proof.
  intros Hcols Hne. unfold _lab, row_getitem, locate. rewrite Hcols. cbn [get_loc].
  rewrite (decide_True (P := ptid = ptid)) by done.
  rewrite (decide_False (P := ptid = pgid)) by done.
  rewrite (decide_True (P := pgid = pgid)) by done.
  cbn [fmap option_fmap option_map mbind result_bind at_loc nth].
  by destruct c.
Qed.

(** X20.  The labels [pt_labels] writes on the table of a well-formed call:
    they can be computed exactly when every point identifier is a string (a
    number is accepted by [nd_intersects] but not by the label), and each of
    them is then the point identifier, a comma, and the merged polygon
    identifiers of the row. *)
Theorem point_labels_of_nd_intersects pnts pgons ptid pgid kc :
  valid_call lib pnts pgons ptid pgid kc →
  NoDup (point_ids pnts ptid) →
  ∃ out,
    (nd_intersects lib pnts pgons ptid pgid kc).2 = Ok out
    ∧ (is_Ok (pt_label_texts ptid pgid out)
       ↔ Forall (λ c, ∃ s, c = Str s) (point_ids pnts ptid))
    ∧ ∀ texts,
        pt_label_texts ptid pgid out = Ok texts →
        texts = (λ r, id_text (at_loc 0 r.2) +:+ "," +:+ id_text (at_loc 1 r.2))
                  <$> rows out.
Proof.
  intros Hvalid Hids.
  pose proof (labels_distinct _ _ _ _ _ _ Hvalid) as (Hd & _ & _).
  destruct (nd_intersects_valid _ _ _ _ _ _ Hvalid Hids) as (value & Hrun & Hfold).
  eexists. split; [by rewrite Hrun|].
  set (out := {| columns := _; geometry_name := _; rows := zip (index pnts) value |}).
  assert (length (index pnts) = length value) as Hlen.
  { rewrite <-(Forall2_length _ _ _ Hfold), merge_sort_Permutation.
    unfold point_ids, index. by rewrite !length_fmap. }
  assert (Forall (λ r, _lab ptid pgid out r.2
                       = match at_loc 0 r.2 with
                         | Str a => Ok (a +:+ "," +:+ id_text (at_loc 1 r.2))
                         | _ => Raise TypeError
                         end) (rows out)) as Hlab.
  { apply Forall_forall. intros r Hr.
    assert (r.2 ∈ value) as Ht.
    { rewrite <-(snd_zip (index pnts) value) by lia. by apply list_elem_of_fmap_2. }
    apply list_elem_of_lookup in Ht as [j Hj].
    destruct (Forall2_lookup_r _ _ _ j _ Hfold Hj) as (k & _ & l & _ & _ & Ht).
    rewrite Ht. unfold fold_point.
    by rewrite (lab_of_folded_row ptid pgid out _ _ _ (geometry_name pnts)). }
  assert (at_loc 0 <$> (rows out).*2 ≡ₚ point_ids pnts ptid) as Hperm.
  { cbn [rows out]. rewrite snd_zip by lia.
    rewrite (folded_keys _ _ _ _ _ _ _ Hfold). apply merge_sort_Permutation. }
  split; [split|].
  - unfold pt_label_texts. destruct (mapM _ (rows out)) as [texts|] eqn:Htexts; [|done].
    intros _. rewrite <-Hperm. apply Forall_fmap, Forall_fmap.
    apply mapM_Ok_Forall2 in Htexts.
    rewrite Forall_forall in Hlab. apply Forall_forall. intros r Hr.
    pose proof Hr as [j Hj]%list_elem_of_lookup.
    destruct (Forall2_lookup_l _ _ _ j _ Htexts Hj) as (s & _ & Hs).
    rewrite (Hlab r Hr) in Hs. cbn [compose].
    destruct (at_loc 0 r.2); try done. by eexists.
  - intros Hstr. rewrite <-Hperm in Hstr.
    rewrite !Forall_fmap in Hstr. unfold pt_label_texts.
    rewrite (mapM_Ok_fmap _
      (λ r, id_text (at_loc 0 r.2) +:+ "," +:+ id_text (at_loc 1 r.2))); [done|].
    rewrite Forall_forall in Hlab, Hstr. apply Forall_forall. intros r Hr.
    rewrite (Hlab r Hr). destruct (Hstr r Hr) as [s Hs]. cbn in Hs.
    unfold at_loc in *. by rewrite Hs.
  - intros texts Htexts. unfold pt_label_texts in Htexts.
    apply mapM_Ok_Forall2 in Htexts.
    apply list_eq. intros j. rewrite list_lookup_fmap.
    destruct (rows out !! j) as [r|] eqn:Hr.
    + destruct (Forall2_lookup_l _ _ _ j _ Htexts Hr) as (s & -> & Hs). cbn [fmap option_fmap option_map].
      f_equal. rewrite Forall_forall in Hlab.
      rewrite (Hlab r (list_elem_of_lookup_2 _ _ _ Hr)) in Hs.
      destruct (at_loc 0 r.2); try done. by apply Ok_inj in Hs.
    + apply lookup_ge_None. rewrite <-(Forall2_length _ _ _ Htexts).
      by apply lookup_ge_None.
Qed.

(** X21.  With an integer [orig], as documented, [set_card] never raises:
    of the three comparisons one always holds, so its last branch is never
    taken, and the operator it shows is the one that relates the original
    size to the number of rows. *)
Theorem set_card_never_raises orig p :
  ∃ oper,
    set_card orig p
    = Ok ("$\vert P \vert " +:+ oper +:+ " \vert P^\prime \vert$")
    ∧ ((oper = "=" ∧ orig = Z.of_nat (length (rows p)))
       ∨ (oper = "<" ∧ orig < Z.of_nat (length (rows p)))
       ∨ (oper = ">" ∧ orig > Z.of_nat (length (rows p)))).
Proof.
  unfold set_card. cbv zeta.
  destruct (decide (orig = Z.of_nat (length (rows p)))) as [Heq|Hne].
  - exists "=". split; [done|]. by left.
  - destruct (decide (orig < Z.of_nat (length (rows p)))) as [Hlt|Hge].
    + exists "<". split; [done|]. right. by left.
    + rewrite decide_True by lia. exists ">". split; [done|]. right. right.
      split; [done|lia].
Qed.
End PlotTexts.

(** * The requirement files of [setup.py] *)

Section SetupFacts.
Variable read_lines : string → option (list string).

Local Abbreviation step :=
  (λ (acc : option (list (string * list string))) (kv : string * string),
     groups_reqlist ← acc;
     pkg_list ← read_lines kv.2;
     Some (Setup.setitem groups_reqlist kv.1 pkg_list)).

Lemma setitem_fresh {V} (d : list (string * V)) k v :
  k ∉ d.*1 → Setup.setitem d k v = d ++ [(k, v)].
Proof.
  induction d as [|kv d IH]; [done|]. cbn [fmap list_fmap Setup.setitem].
  rewrite not_elem_of_cons. intros [Hne Hk].
  rewrite decide_False by done. cbn [app]. f_equal. by apply IH.
Qed.

Lemma requirements_None gf : foldl step None gf = None.
Proof. by induction gf. Qed.

Lemma requirements_from acc gf d :
  NoDup (acc.*1 ++ gf.*1) →
  foldl step (Some acc) gf = Some d
  ↔ ∃ new, d = acc ++ new
           ∧ Forall2 (λ kv e, e.1 = kv.1 ∧ read_lines kv.2 = Some e.2) gf new.
Proof.
  revert acc. induction gf as [|kv gf IH]; intros acc Hnd.
  - cbn [foldl]. split.
    + intros [= <-]. exists []. by rewrite app_nil_r.
    + intros (new & -> & ->%Forall2_nil_inv_l). by rewrite app_nil_r.
  - cbn [foldl fmap list_fmap] in Hnd |- *.
    cbn [mbind option_bind].
    apply NoDup_app in Hnd as (Hacc & Hdisj & Hgf).
    apply NoDup_cons in Hgf as [Hk Hgf].
    assert (kv.1 ∉ acc.*1) as Hfresh.
    { intros Hin. apply (Hdisj _ Hin). apply list_elem_of_here. }
    destruct (read_lines kv.2) as [pkg_list|] eqn:Hread; cbn [mbind option_bind].
    + rewrite (setitem_fresh _ _ _ Hfresh). rewrite IH; last first.
      { rewrite fmap_app. cbn [fmap list_fmap fst]. rewrite <-(assoc_L (++)).
        apply NoDup_app. split; [done|]. split; [|by apply NoDup_cons].
        intros x Hx. apply Hdisj. done. }
      split.
      * intros (new & -> & Hall). exists ((kv.1, pkg_list) :: new).
        split; [by rewrite <-(assoc_L (++))|]. by constructor.
      * intros (new & -> & Hall).
        apply Forall2_cons_inv_l in Hall as ([k v] & new' & [Hk1 Hk2] & Hall & ->).
        cbn [fst snd] in Hk1, Hk2. subst k. rewrite Hread in Hk2.
        injection Hk2 as <-. exists new'. split; [by rewrite <-(assoc_L (++))|done].
    + rewrite requirements_None. split; [done|].
      intros (new & _ & Hall).
      apply Forall2_cons_inv_l in Hall as (e & _ & [_ Hbad] & _).
      by rewrite Hread in Hbad.
Qed.

(** X22.  [_get_requirements_from_files] returns a dict with the keys of
    the given dict, in the same order, each with the lines of the file its
    key names: nothing is added, dropped or merged. *)
Theorem requirements_are_read_group_by_group groups_files groups_reqlist :
  NoDup groups_files.*1 →
  Setup._get_requirements_from_files read_lines groups_files = Some groups_reqlist
  ↔ Forall2 (λ kv e, e.1 = kv.1 ∧ read_lines kv.2 = Some e.2)
      groups_files groups_reqlist.
Proof.
  intros Hnd. unfold Setup._get_requirements_from_files.
  rewrite (requirements_from [] groups_files groups_reqlist) by done.
  split; [by intros (new & -> & Hall)|]. intros Hall. by exists groups_reqlist.
Qed.

(** X23.  The call fails exactly when one of the named files cannot be
    read; the groups read before are then lost with it. *)
Theorem requirements_fail_iff_a_file_is_unreadable groups_files :
  Setup._get_requirements_from_files read_lines groups_files = None
  ↔ Exists (λ kv, read_lines kv.2 = None) groups_files.
Proof.
  unfold Setup._get_requirements_from_files.
  generalize (@nil (string * list string)).
  induction groups_files as [|kv gf IH]; intros acc.
  - cbn [foldl]. split; [done|]. by intros ?%Exists_nil.
  - cbn [foldl mbind option_bind]. rewrite Exists_cons.
    destruct (read_lines kv.2) as [pkg_list|] eqn:Hread; cbn [mbind option_bind].
    + rewrite IH. split; [by right|]. by intros [?|?].
    + rewrite requirements_None. split; [by left|done].
Qed.
End SetupFacts.

(** * The further properties on the demonstration data *)

Module MoreExamples.
Import Demo Cases.

Lemma demo_ready :
  join_ready pandas_2_2 intersects "intersects" (demo_points PTID) (demo_polygons PGID).
Proof.
  constructor; [reflexivity|unfold well_shaped; by_computation
               |unfold well_shaped; by_computation|by_computation ..].
Qed.

Lemma demo_inner_ready :
  join_ready pandas_2_2 within "within" (demo_points PTID) (demo_polygons PGID).
Proof.
  constructor; [reflexivity|unfold well_shaped; by_computation
               |unfold well_shaped; by_computation|by_computation ..].
Qed.

Lemma demo_kept_NoDup : NoDup (with_geometry "geometry" KEEP_COLUMNS).
Proof. by_computation. Qed.



(** X1: without the polygon id among the kept labels the join raises. *)
Lemma demo_join_without_pgid_raises :
  (PGID ∉ with_geometry (geometry_name (demo_points PTID)) [PTID])
  ∧ raises (do_sjoin pandas_2_2 (demo_points PTID) (demo_polygons PGID)
              "intersects" PTID PGID how_left (Str "NaN") [PTID]).2.
Proof.
  assert (PGID ∉ with_geometry (geometry_name (demo_points PTID)) [PTID]) as Hout
    by by_computation.
  split; [exact Hout|].
  exact (do_sjoin_raises_unless_pgid_is_kept pandas_2_2 (demo_points PTID)
           (demo_polygons PGID) "intersects" PTID PGID how_left (Str "NaN")
           [PTID] Hout).
Defined.
(** X2 on the demonstration join. *)
Lemma demo_join_fills_only_the_polygon_ids :
  ∃ df3,
    (do_sjoin pandas_2_2 (demo_points PTID) (demo_polygons PGID) "intersects"
       PTID PGID how_left (Str "NaN") KEEP_COLUMNS).2 = Ok df3
    ∧ ∃ proj,
        (joined ← sjoin pandas_2_2 (demo_points PTID) (demo_polygons PGID)
                    how_left "intersects";
         getitem joined (with_geometry (geometry_name (demo_points PTID)) KEEP_COLUMNS))
        = Ok proj
        ∧ (∀ c, c ≠ PGID → series df3 c = series proj c)
        ∧ geometry_name df3 = geometry_name proj
        ∧ ((Str "NaN" : cell shape) ≠ NA →
           ∃ cells, series df3 PGID = Ok cells ∧ Forall (λ c, c ≠ NA) cells).
Proof.
  eexists. split; [vm_compute; reflexivity|].
  apply (do_sjoin_fills_only_the_polygon_id_column pandas_2_2 (demo_points PTID)
           (demo_polygons PGID) "intersects" PTID PGID how_left (Str "NaN")
           KEEP_COLUMNS);
    [exact demo_kept_NoDup|vm_compute; reflexivity].
Defined.

(** X4 on the demonstration join: ten pair rows for seven points. *)
Lemma demo_join_keeps_every_point :
  ∃ df3,
    (do_sjoin pandas_2_2 (demo_points PTID) (demo_polygons PGID) "intersects"
       PTID PGID how_left (Str "NaN") KEEP_COLUMNS).2 = Ok df3
    ∧ index df3
      = flat_map (λ l, replicate (pair_count pandas_2_2 how_left intersects (demo_points PTID)
                                    (demo_polygons PGID) l.2) l.1)
          (rows (demo_points PTID))
    ∧ (length (rows (demo_points PTID)) ≤ length (rows df3))%nat
    ∧ ∀ i, i ∈ index (demo_points PTID) → i ∈ index df3.
Proof.
  eexists. split; [vm_compute; reflexivity|].
  apply (do_sjoin_left_join_keeps_every_left_row pandas_2_2 intersects
           (demo_points PTID) (demo_polygons PGID) "intersects" PTID PGID
           (Str "NaN") KEEP_COLUMNS);
    [exact demo_ready|exact demo_kept_NoDup|vm_compute; reflexivity].
Defined.

(** X5 for the geometry column of the demonstration join. *)
Lemma demo_join_repeats_the_point_geometries :
  ∃ df3,
    (do_sjoin pandas_2_2 (demo_points PTID) (demo_polygons PGID) "intersects"
       PTID PGID how_left (Str "NaN") KEEP_COLUMNS).2 = Ok df3
    ∧ series df3 "geometry"
      = Ok (flat_map (λ l, replicate (pair_count pandas_2_2 how_left intersects (demo_points PTID)
                                        (demo_polygons PGID) l.2)
                             (cell_of (demo_points PTID) "geometry" l.2))
              (rows (demo_points PTID))).
Proof.
  eexists. split; [vm_compute; reflexivity|].
  apply (do_sjoin_left_join_repeats_the_left_cells pandas_2_2 intersects
           (demo_points PTID) (demo_polygons PGID) "intersects" PTID PGID
           (Str "NaN") KEEP_COLUMNS);
    [exact demo_ready|exact demo_kept_NoDup|vm_compute; reflexivity
    |by_computation|by_computation|by_computation].
Defined.

(** X6 for the polygon-id column of the demonstration join. *)
Lemma demo_join_lists_the_partner_ids :
  ∃ df3,
    (do_sjoin pandas_2_2 (demo_points PTID) (demo_polygons PGID) "intersects"
       PTID PGID how_left (Str "NaN") KEEP_COLUMNS).2 = Ok df3
    ∧ series df3 PGID
      = Ok (if decide (PGID = PGID)
            then fill (Str "NaN")
                   <$> flat_map (λ l, right_cells pandas_2_2 how_left intersects (demo_points PTID)
                                        (demo_polygons PGID) PGID l.2)
                         (rows (demo_points PTID))
            else flat_map (λ l, right_cells pandas_2_2 how_left intersects (demo_points PTID)
                                  (demo_polygons PGID) PGID l.2)
                   (rows (demo_points PTID))).
Proof.
  eexists. split; [vm_compute; reflexivity|].
  apply (do_sjoin_left_join_lists_the_partner_cells pandas_2_2 intersects
           (demo_points PTID) (demo_polygons PGID) "intersects" PTID PGID
           (Str "NaN") KEEP_COLUMNS);
    [exact demo_ready|exact demo_kept_NoDup|vm_compute; reflexivity
    |by_computation|by_computation].
Defined.

(** X7 on the demonstration join. *)
Lemma demo_join_returns :
  is_Ok (do_sjoin pandas_2_2 (demo_points PTID) (demo_polygons PGID) "intersects"
           PTID PGID how_left (Str "NaN") KEEP_COLUMNS).2
  ↔ PGID ∈ with_geometry (geometry_name (demo_points PTID)) KEEP_COLUMNS
    ∧ ∀ c, c ∈ with_geometry (geometry_name (demo_points PTID)) KEEP_COLUMNS →
           c ∈ columns (demo_points PTID) ∨ c = "index_right"
           ∨ c ∈ drop_label (geometry_name (demo_polygons PGID))
                   (columns (demo_polygons PGID)).
Proof.
  apply (do_sjoin_returns_iff_the_kept_labels_are_joined pandas_2_2 intersects);
    [exact demo_ready|discriminate|exact demo_kept_NoDup|by_computation].
Defined.

(** X8 on the inner [within] join of the demonstration data. *)
Lemma demo_inner_join_drops_the_unmatched_points :
  ∃ df3,
    (do_sjoin pandas_2_2 (demo_points PTID) (demo_polygons PGID) "within"
       PTID PGID how_inner (Str "NaN") KEEP_COLUMNS).2 = Ok df3
    ∧ (∀ i, i ∈ index df3
            ↔ ∃ l, l ∈ rows (demo_points PTID) ∧ l.1 = i
                   ∧ partners_by pandas_2_2 within (demo_points PTID) (demo_polygons PGID) l.2 ≠ [])
    ∧ length (rows df3)
      = sum_list_with (λ l, length (partners_by pandas_2_2 within (demo_points PTID)
                                      (demo_polygons PGID) l.2))
          (rows (demo_points PTID)).
Proof.
  eexists. split; [vm_compute; reflexivity|].
  apply (do_sjoin_inner_join_drops_the_unmatched_rows pandas_2_2 within
           (demo_points PTID) (demo_polygons PGID) "within" PTID PGID
           (Str "NaN") KEEP_COLUMNS);
    [exact demo_inner_ready|exact demo_kept_NoDup|vm_compute; reflexivity].
Defined.

(** X9: the right join with polygons whose geometry column is [geom]. *)
Lemma right_join_with_polygons_geom_raises :
  Forall (λ c, c ∉ columns polygons_geom)
    (drop_label (geometry_name (demo_points PTID)) (columns (demo_points PTID)))
  ∧ (geometry_name (demo_points PTID) ∉ columns polygons_geom)
  ∧ raises (do_sjoin pandas_2_2 (demo_points PTID) polygons_geom "intersects"
              PTID PGID how_right (Str "NaN") KEEP_COLUMNS).2.
Proof.
  assert (Forall (λ c, c ∉ columns polygons_geom)
            (drop_label (geometry_name (demo_points PTID))
               (columns (demo_points PTID)))) as Hdis by by_computation.
  assert (geometry_name (demo_points PTID) ∉ columns polygons_geom) as Hg
    by by_computation.
  split; [exact Hdis|]. split; [exact Hg|].
  exact (do_sjoin_right_join_loses_the_left_geometry pandas_2_2 (demo_points PTID)
           polygons_geom "intersects" PTID PGID (Str "NaN") KEEP_COLUMNS Hdis Hg).
Defined.

(** X10 on the demonstration join: [B] and [F] have several partners. *)
Lemma demo_join_subtitle :
  ∃ df3,
    (do_sjoin pandas_2_2 (demo_points PTID) (demo_polygons PGID) "intersects"
       PTID PGID how_left (Str "NaN") KEEP_COLUMNS).2 = Ok df3
    ∧ set_card (Z.of_nat (length (rows (demo_points PTID)))) df3
      = Ok (if decide (Forall (λ l, (length (partners_by pandas_2_2 intersects (demo_points PTID)
                                               (demo_polygons PGID) l.2) ≤ 1)%nat)
                         (rows (demo_points PTID)))
            then "$\vert P \vert = \vert P^\prime \vert$"
            else "$\vert P \vert < \vert P^\prime \vert$").
Proof.
  eexists. split; [vm_compute; reflexivity|].
  apply (set_card_of_a_left_join_never_shows_greater pandas_2_2 intersects
           (demo_points PTID) (demo_polygons PGID) "intersects" PTID PGID
           (Str "NaN") KEEP_COLUMNS);
    [exact demo_ready|exact demo_kept_NoDup|vm_compute; reflexivity].
Defined.
Lemma numbered_ready :
  join_ready pandas_2_2 intersects "intersects" (demo_points PTID) numbered_polygons.
Proof.
  constructor; [reflexivity|unfold well_shaped; by_computation
               |unfold well_shaped; by_computation|by_computation ..].
Qed.

(** X11: the demonstration call without the point id among the kept
    labels. *)
Lemma demo_call_without_ptid_raises :
  ((PTID ∉ with_geometry (geometry_name (demo_points PTID)) [PGID])
   ∨ (PGID ∉ with_geometry (geometry_name (demo_points PTID)) [PGID]))
  ∧ raises (nd_intersects pandas_2_2 (demo_points PTID) (demo_polygons PGID)
              PTID PGID [PGID]).2.
Proof.
  assert ((PTID ∉ with_geometry (geometry_name (demo_points PTID)) [PGID])
          ∨ (PGID ∉ with_geometry (geometry_name (demo_points PTID)) [PGID])) as Hmissing.
  { left. by_computation. }
  split; [exact Hmissing|].
  exact (nd_intersects_raises_unless_both_ids_are_kept pandas_2_2 (demo_points PTID)
           (demo_polygons PGID) PTID PGID [PGID] Hmissing).
Defined.


(** X13 on the demonstration call. *)
Lemma demo_call_subtitle :
  ∃ out,
    (nd_intersects pandas_2_2 (demo_points PTID) (demo_polygons PGID)
       PTID PGID KEEP_COLUMNS).2 = Ok out
    ∧ set_card (Z.of_nat (length (rows (demo_points PTID)))) out
      = Ok "$\vert P \vert = \vert P^\prime \vert$".
Proof.
  eexists. split; [vm_compute; reflexivity|].
  apply (set_card_of_nd_intersects_shows_equal pandas_2_2 (demo_points PTID)
           (demo_polygons PGID) PTID PGID KEEP_COLUMNS).
  vm_compute. reflexivity.
Defined.

(** X14 on a group with the polygon ids [x] and [2]. *)
Lemma group_numeric_raises :
  series group_numeric PGID = Ok [Str "x"; Num 2]
  ∧ _row PGID (Str "P") group_numeric = Raise TypeError.
Proof.
  split; [reflexivity|].
  apply (row_raises_TypeError_on_a_non_string_id PGID (Str "P") group_numeric
           [Str "x"; Num 2] (Num 2));
    [reflexivity|by_computation|discriminate].
Defined.

(** X15: the demonstration points against polygons identified by numbers. *)
Lemma numbered_polygons_raise :
  raises (nd_intersects pandas_2_2 (demo_points PTID) numbered_polygons
            PTID PGID KEEP_COLUMNS).2.
Proof.
  apply (nd_intersects_raises_on_a_numeric_polygon_id pandas_2_2 intersects
           (demo_points PTID) numbered_polygons PTID PGID KEEP_COLUMNS
           (0, [Str "A"; Geom (Point (-4) (-4))])
           (0, [Num 1; Geom (Polygon [(-4, -4); (0, -4); (0, 0); (-4, 0)])]) 1);
    [exact numbered_ready|by_computation|by_computation|by_computation
    |by_computation|by_computation|reflexivity].
Defined.

(** X16 on the demonstration call. *)
Lemma demo_call_keeps_three_columns :
  ∃ out,
    (nd_intersects pandas_2_2 (demo_points PTID) (demo_polygons PGID)
       PTID PGID KEEP_COLUMNS).2 = Ok out
    ∧ (broadcasts pandas_2_2 = false
       ∨ length (group_keys (point_ids (demo_points PTID) PTID)) ≠ 1%nat)
    ∧ with_geometry (geometry_name (demo_points PTID)) KEEP_COLUMNS
      ≡ₚ [PTID; PGID; geometry_name (demo_points PTID)]
    ∧ NoDup (point_ids (demo_points PTID) PTID)
    ∧ Forall (λ c, is_key c) (point_ids (demo_points PTID) PTID).
Proof.
  eexists. split; [vm_compute; reflexivity|].
  split; [right; vm_compute; discriminate|].
  eapply (nd_intersects_returns_only_for_the_three_columns pandas_2_2 intersects
           (demo_points PTID) (demo_polygons PGID) PTID PGID KEEP_COLUMNS);
    [exact demo_ready|by_computation|by_computation|by_computation
    |exact demo_kept_NoDup|discriminate|right; vm_compute; discriminate
    |vm_compute; reflexivity].
Defined.

(** X17 on the demonstration call. *)
Lemma demo_call_in_closed_form :
  ∃ out,
    (nd_intersects pandas_2_2 (demo_points PTID) (demo_polygons PGID)
       PTID PGID KEEP_COLUMNS).2 = Ok out
    ∧ columns out = [PTID; PGID; geometry_name (demo_points PTID)]
    ∧ rows out
      = zip (index (demo_points PTID))
          ((λ l, fold_point pandas_2_2 (demo_points PTID) (demo_polygons PGID)
                   PTID PGID l.2)
             <$> merge_sort
                   (λ a b, cell_le (cell_of (demo_points PTID) PTID a.2)
                                   (cell_of (demo_points PTID) PTID b.2))
                   (rows (demo_points PTID))).
Proof.
  exact (nd_intersects_returns_the_folded_points_in_id_order pandas_2_2
           (demo_points PTID) (demo_polygons PGID) PTID PGID KEEP_COLUMNS
           Examples.demo_valid Examples.demo_ids_NoDup).
Defined.

(** X18 on the demonstration call, whose points come in ascending order. *)
Lemma demo_rows_line_up :
  ∃ out,
    (nd_intersects pandas_2_2 (demo_points PTID) (demo_polygons PGID)
       PTID PGID KEEP_COLUMNS).2 = Ok out
    ∧ (rows out
       = (λ l, (l.1, fold_point pandas_2_2 (demo_points PTID) (demo_polygons PGID)
                       PTID PGID l.2))
           <$> rows (demo_points PTID)
       ↔ Sorted cell_le (point_ids (demo_points PTID) PTID)).
Proof.
  exact (nd_intersects_rows_line_up_iff_ids_ascend pandas_2_2
           (demo_points PTID) (demo_polygons PGID) PTID PGID KEEP_COLUMNS
           Examples.demo_valid Examples.demo_ids_NoDup).
Defined.

(** X19 for the point [F], which lies on the corner shared by the three
    squares. *)
Lemma demo_point_F_gets_all_its_partners :
  ∃ out i,
    (nd_intersects pandas_2_2 (demo_points PTID) (demo_polygons PGID)
       PTID PGID KEEP_COLUMNS).2 = Ok out
    ∧ (i, [Str "F"; Str "x-y-z"; Geom (Point 0 0)]) ∈ rows out.
Proof.
  apply (matched_points_get_all_their_partners pandas_2_2 (demo_points PTID)
           (demo_polygons PGID) PTID PGID KEEP_COLUMNS
           (5, [Str "F"; Geom (Point 0 0)]));
    [exact Examples.demo_valid|exact Examples.demo_ids_NoDup
    |by_computation|vm_compute; discriminate].
Defined.

(** X20 on the demonstration call. *)
Lemma demo_point_labels :
  ∃ out,
    (nd_intersects pandas_2_2 (demo_points PTID) (demo_polygons PGID)
       PTID PGID KEEP_COLUMNS).2 = Ok out
    ∧ (is_Ok (pt_label_texts PTID PGID out)
       ↔ Forall (λ c, ∃ s, c = Str s) (point_ids (demo_points PTID) PTID))
    ∧ ∀ texts,
        pt_label_texts PTID PGID out = Ok texts →
        texts = (λ r, id_text (at_loc 0 r.2) +:+ "," +:+ id_text (at_loc 1 r.2))
                  <$> rows out.
Proof.
  exact (point_labels_of_nd_intersects pandas_2_2
           (demo_points PTID) (demo_polygons PGID) PTID PGID KEEP_COLUMNS
           Examples.demo_valid Examples.demo_ids_NoDup).
Defined.

(** X22 on the one group of [setup_package]. *)
Lemma base_requirements_are_read :
  NoDup _groups_files.*1
  ∧ (Setup._get_requirements_from_files read_lines _groups_files
     = Some [("base", ["geopandas"; "matplotlib"])]
     ↔ Forall2 (λ kv e, e.1 = kv.1 ∧ read_lines kv.2 = Some e.2)
         _groups_files [("base", ["geopandas"; "matplotlib"])]).
Proof.
  assert (NoDup _groups_files.*1) as Hkeys by by_computation.
  split; [exact Hkeys|].
  exact (requirements_are_read_group_by_group read_lines _groups_files
           [("base", ["geopandas"; "matplotlib"])] Hkeys).
Defined.

Lemma points_BA_valid :
  valid_call pandas_2_2 points_BA (demo_polygons PGID) PTID PGID KEEP_COLUMNS.
Proof. valid_by_computation. Qed.

Lemma points_BA_ids_NoDup : NoDup (point_ids points_BA PTID).
Proof. by_computation. Qed.

(** X26 on the points B, A. *)
Lemma points_BA_rows_in_sorted_id_order :
  valid_call pandas_2_2 points_BA (demo_polygons PGID) PTID PGID KEEP_COLUMNS
  ∧ NoDup (point_ids points_BA PTID)
  ∧ ∃ out ids,
    (nd_intersects pandas_2_2 points_BA (demo_polygons PGID)
       PTID PGID KEEP_COLUMNS).2 = Ok out
    ∧ series out PTID = Ok ids
    ∧ ids = merge_sort cell_le (point_ids points_BA PTID)
    ∧ Sorted cell_le ids.
Proof.
  split; [exact points_BA_valid|]. split; [exact points_BA_ids_NoDup|].
  apply (nd_intersects_rows_in_sorted_id_order pandas_2_2);
    [exact points_BA_valid|exact points_BA_ids_NoDup].
Defined.

(** The order of the merged identifiers is the order of the spatial index:
    with an index that yields the squares in the reverse of their order in
    the frame, the point [F] gets [z-y-x]. *)
Example reversed_index_reverses_the_merged_ids :
  ∃ out,
    (nd_intersects reversed_d (demo_points PTID) (demo_polygons PGID)
       PTID PGID KEEP_COLUMNS).2 = Ok out
    ∧ rows out !! 5%nat = Some (5, [Str "F"; Str "z-y-x"; Geom (Point 0 0)]).
Proof. eexists. split; vm_compute; reflexivity. Qed.

Lemma polygons_wide_valid :
  valid_call pandas_2_2 (demo_points PTID) polygons_wide PTID PGID KEEP_COLUMNS.
Proof. valid_by_computation. Qed.

(** X25: the demonstration polygons and their wide variant. *)
Lemma polygons_wide_give_the_same_table :
  nd_intersects pandas_2_2 (demo_points PTID) (demo_polygons PGID) PTID PGID
    KEEP_COLUMNS
  = nd_intersects pandas_2_2 (demo_points PTID) polygons_wide PTID PGID
      KEEP_COLUMNS.
Proof.
  apply (nd_intersects_reads_only_the_ids_and_geometries_of_the_polygons pandas_2_2);
    [exact Examples.demo_valid|exact polygons_wide_valid
    |exact Examples.demo_ids_NoDup|by_computation].
Defined.
End MoreExamples.

(** * The demonstration frames under other labels *)

Module DemoLabels.
Import Demo.

Lemma demo_point_cell ptid r : cell_of (demo_points ptid) ptid r = at_loc 0 r.
Proof.
  unfold cell_of. cbn [columns demo_points get_loc]. by rewrite decide_True.
Qed.

Lemma demo_polygon_cell pgid r : cell_of (demo_polygons pgid) pgid r = at_loc 0 r.
Proof.
  unfold cell_of. cbn [columns demo_polygons get_loc]. by rewrite decide_True.
Qed.

Lemma demo_point_ids ptid :
  point_ids (demo_points ptid) ptid
  = [Str "A"; Str "B"; Str "C"; Str "D"; Str "E"; Str "F"; Str "G"].
Proof.
  unfold point_ids.
  rewrite (list_fmap_ext _ (λ l, at_loc 0 l.2) (rows (demo_points ptid)));
    [reflexivity|]. intros _ l _. apply demo_point_cell.
Qed.

(** X24.  [demo_points] and [demo_polygons] use their argument only as the
    label of the identifier column: for any two labels that differ from each
    other, from [geometry] and from the labels the join reserves, the frames
    they build make a well-formed call, with seven distinct point
    identifiers in ascending order. *)
Theorem demo_frames_fit_for_any_labels ptid pgid :
  ptid ≠ pgid →
  ptid ≠ "geometry" →
  pgid ≠ "geometry" →
  Forall (λ c, c ≠ "index_left" ∧ c ≠ "index_right") [ptid; pgid] →
  valid_call pandas_2_2 (demo_points ptid) (demo_polygons pgid) ptid pgid [ptid; pgid]
  ∧ NoDup (point_ids (demo_points ptid) ptid)
  ∧ Sorted cell_le (point_ids (demo_points ptid) ptid)
  ∧ length (point_ids (demo_points ptid) ptid) = 7%nat.
Proof.
  intros Hne Hpt Hpg Hres.
  apply Forall_cons_1 in Hres as [Hres1 Hres2].
  apply Forall_cons_1 in Hres2 as [Hres2 _].
  assert (drop_label "geometry" [pgid; "geometry"] = [pgid]) as Hdrop.
  { unfold drop_label. rewrite filter_cons_True by done.
    by rewrite filter_cons_False by (intros Hn; by apply Hn). }
  split; [|rewrite demo_point_ids; split; [by_computation|split; [by_computation|done]]].
  constructor.
  - by eexists.
  - unfold well_shaped. by_computation.
  - unfold well_shaped. by_computation.
  - cbn [columns demo_points demo_polygons app].
    repeat (apply Forall_cons_2; [done|]). apply Forall_nil_2.
  - cbn [columns geometry_name demo_points demo_polygons]. rewrite Hdrop.
    repeat (apply Forall_cons_2; [|]); try apply Forall_nil_2;
      rewrite list_elem_of_singleton; congruence.
  - cbn [columns geometry_name demo_points]. apply list_elem_of_further, list_elem_of_here.
  - cbn [columns geometry_name demo_polygons].
    apply list_elem_of_further, list_elem_of_here.
  - apply list_elem_of_here.
  - done.
  - cbn [columns geometry_name demo_polygons]. rewrite Hdrop. apply list_elem_of_here.
  - rewrite demo_point_ids. by_computation.
  - apply Forall_forall. intros r Hr. rewrite demo_polygon_cell. revert r Hr.
    apply Forall_forall. by_computation.
  - cbn [geometry_name demo_points]. unfold with_geometry.
    rewrite decide_False; [done|].
    rewrite !elem_of_cons, elem_of_nil. intros [?|[?|[]]]; congruence.
Qed.

(** X24 for the labels of [demo]. *)
Lemma demo_frames_fit_for_the_demo_labels :
  valid_call pandas_2_2 (demo_points PTID) (demo_polygons PGID) PTID PGID [PTID; PGID]
  ∧ NoDup (point_ids (demo_points PTID) PTID)
  ∧ Sorted cell_le (point_ids (demo_points PTID) PTID)
  ∧ length (point_ids (demo_points PTID) PTID) = 7%nat.
Proof.
  apply (demo_frames_fit_for_any_labels PTID PGID);
    [discriminate|discriminate|discriminate|by_computation].
Defined.
End DemoLabels.
